(** * Secure image-transcoding pipeline: shallow embedding and properties

    The development embeds the Go package [imageprocessing]
    (src/internal/proxy/config.go): the security checks
    ([validateCommandName], [validateCommandArgs], [validateFilePath],
    [validateFileExtension], [validateFileSize]), the temporary-file
    lifecycle ([secureCreateTempFile], [secureCleanup]), the RAW converter
    ([buildDarktableArgs], [safeExecuteDarktableCommand],
    [ProcessARWToPNG], [ValidateARWFile]) and the adaptive encoder
    ([calculateScaleFactor], [calculateUserScaleFactor], [ProcessImage]).

    Go strings are byte sequences: they are modelled by [string] (lists of
    [ascii]).  Go [int] values are modelled by [Z].  [float64] values are
    IEEE-754 binary64 numbers, modelled by [spec_float] with the operations
    of the standard library's [SpecFloat] at precision 53 and maximal
    exponent 1024.  The operating system (files, PATH, started processes)
    is an explicit [World] threaded through the effectful functions. *)

From Stdlib Require Import ZArith Bool List Ascii String Lia.
From Stdlib Require Import DecimalString SpecFloat QArith Qpower Lqa.
From stdpp Require Import base gmap strings.

Open Scope string_scope.
Open Scope Z_scope.

(** ** Unicode: white space, UTF-8 and case *)

Module Unicode.

(** [utf8.EncodeRune] for a code point below 0x10000 that is no surrogate. *)
Definition utf8 (r : N) : string :=
  (if r <? 128 then String (ascii_of_N r) ""
   else if r <? 2048 then
     String (ascii_of_N (192 + r / 64)) (String (ascii_of_N (128 + r mod 64)) "")
   else
     String (ascii_of_N (224 + r / 4096))
       (String (ascii_of_N (128 + (r / 64) mod 64))
          (String (ascii_of_N (128 + r mod 64)) "")))%N.

(** The code points of [unicode.IsSpace]: tab to carriage return, space,
    U+0085, U+00A0 and the other characters with the White_Space
    property. *)
Definition White_Space : list N :=
  [ 9; 10; 11; 12; 13; 32; 133; 160; 5760;
    8192; 8193; 8194; 8195; 8196; 8197; 8198; 8199; 8200; 8201; 8202;
    8232; 8233; 8239; 8287; 12288 ]%N.

(** [bytes] is the UTF-8 encoding of one white-space character. *)
Definition isSpace (bytes : string) : bool :=
  existsb (fun r => String.eqb bytes (utf8 r)) White_Space.

(** [utf8.RuneError], the replacement character U+FFFD. *)
Definition RuneError : N := 65533.

(** [utf8.AppendRune]: one to four bytes; a surrogate or a value above
    U+10FFFF is written as [RuneError]. *)
Definition EncodeRune (r : N) : string :=
  (if r <? 65536 then
     if (55296 <=? r) && (r <=? 57343) then utf8 RuneError else utf8 r
   else if r <=? 1114111 then
     String (ascii_of_N (240 + r / 262144))
       (String (ascii_of_N (128 + (r / 4096) mod 64))
          (String (ascii_of_N (128 + (r / 64) mod 64))
             (String (ascii_of_N (128 + r mod 64)) "")))
   else utf8 RuneError)%N.

(** The tables [first] and [acceptRanges] of package [utf8]: the length of
    the encoding that a first byte of 0x80 or more announces and the range
    its second byte must be in; nothing for a byte that starts no
    encoding. *)
Definition first (b : N) : option (N * N * N) :=
  (if b <? 194 then None
   else if b <? 224 then Some (2, 128, 191)
   else if b =? 224 then Some (3, 160, 191)
   else if b =? 237 then Some (3, 128, 159)
   else if b <? 240 then Some (3, 128, 191)
   else if b =? 240 then Some (4, 144, 191)
   else if b <? 244 then Some (4, 128, 191)
   else if b =? 244 then Some (4, 128, 143)
   else None)%N.

(** A continuation byte outside 0x80..0xBF. *)
Definition notCont (b : N) : bool := ((b <? 128) || (191 <? b))%N.

(** [utf8.DecodeRuneInString]: the first character of [s] and the number
    of bytes it takes; [RuneError] with width 1 for a byte that starts no
    valid encoding, with width 0 for the empty string. *)
Definition DecodeRuneInString (s : string) : N * nat :=
  match s with
  | EmptyString => (RuneError, O)
  | String a s1 =>
      let s0 := N_of_ascii a in
      if (s0 <? 128)%N then (s0, 1%nat)
      else
        match first s0, s1 with
        | Some (sz, lo, hi), String b s2 =>
            let b1 := N_of_ascii b in
            if ((b1 <? lo) || (hi <? b1))%N then (RuneError, 1%nat)
            else if (sz =? 2)%N then ((s0 mod 32) * 64 + b1 mod 64, 2%nat)%N
            else
              match s2 with
              | String c s3 =>
                  let c2 := N_of_ascii c in
                  if notCont c2 then (RuneError, 1%nat)
                  else if (sz =? 3)%N then
                    ((s0 mod 16) * 4096 + (b1 mod 64) * 64 + c2 mod 64, 3%nat)%N
                  else
                    match s3 with
                    | String d _ =>
                        let d3 := N_of_ascii d in
                        if notCont d3 then (RuneError, 1%nat)
                        else ((s0 mod 8) * 262144 + (b1 mod 64) * 4096
                              + (c2 mod 64) * 64 + d3 mod 64, 4%nat)%N
                    | EmptyString => (RuneError, 1%nat)
                    end
              | EmptyString => (RuneError, 1%nat)
              end
        | _, _ => (RuneError, 1%nat)
        end
  end.

(** [s[n:]]. *)
Fixpoint drop (n : nat) (s : string) : string :=
  match n, s with
  | S k, String _ s' => drop k s'
  | _, _ => s
  end.

(** The characters [for _, c := range s] yields; a string of [fuel] bytes
    has at most [fuel] of them. *)
Fixpoint runes_upto (fuel : nat) (s : string) : list N :=
  match fuel, s with
  | S k, String _ _ =>
      let '(r, width) := DecodeRuneInString s in r :: runes_upto k (drop width s)
  | _, _ => []
  end.

Definition runes (s : string) : list N := runes_upto (String.length s) s.

(** The entries of [unicode.CaseRanges] that change a character above
    U+007F under [unicode.LowerCase] (Unicode 15.0): each [(lo, hi, stride,
    to)] maps the characters [lo], [lo + stride], ..., [hi] to [to],
    [to + stride], ... *)
Definition lowerRanges : list (N * N * N * N) :=
  [ (192, 214, 1, 224); (216, 222, 1, 248); (256, 302, 2, 257); (304, 304, 1, 105);
    (306, 310, 2, 307); (313, 327, 2, 314); (330, 374, 2, 331); (376, 376, 1, 255);
    (377, 381, 2, 378); (385, 385, 1, 595); (386, 388, 2, 387); (390, 390, 1, 596);
    (391, 391, 1, 392); (393, 394, 1, 598); (395, 395, 1, 396); (398, 398, 1, 477);
    (399, 399, 1, 601); (400, 400, 1, 603); (401, 401, 1, 402); (403, 403, 1, 608);
    (404, 404, 1, 611); (406, 406, 1, 617); (407, 407, 1, 616); (408, 408, 1, 409);
    (412, 412, 1, 623); (413, 413, 1, 626); (415, 415, 1, 629); (416, 420, 2, 417);
    (422, 422, 1, 640); (423, 423, 1, 424); (425, 425, 1, 643); (428, 428, 1, 429);
    (430, 430, 1, 648); (431, 431, 1, 432); (433, 434, 1, 650); (435, 437, 2, 436);
    (439, 439, 1, 658); (440, 440, 1, 441); (444, 444, 1, 445); (452, 452, 1, 454);
    (453, 453, 1, 454); (455, 455, 1, 457); (456, 456, 1, 457); (458, 458, 1, 460);
    (459, 475, 2, 460); (478, 494, 2, 479); (497, 497, 1, 499); (498, 500, 2, 499);
    (502, 502, 1, 405); (503, 503, 1, 447); (504, 542, 2, 505); (544, 544, 1, 414);
    (546, 562, 2, 547); (570, 570, 1, 11365); (571, 571, 1, 572); (573, 573, 1, 410);
    (574, 574, 1, 11366); (577, 577, 1, 578); (579, 579, 1, 384); (580, 580, 1, 649);
    (581, 581, 1, 652); (582, 590, 2, 583); (880, 882, 2, 881); (886, 886, 1, 887);
    (895, 895, 1, 1011); (902, 902, 1, 940); (904, 906, 1, 941); (908, 908, 1, 972);
    (910, 911, 1, 973); (913, 929, 1, 945); (931, 939, 1, 963); (975, 975, 1, 983);
    (984, 1006, 2, 985); (1012, 1012, 1, 952); (1015, 1015, 1, 1016);
    (1017, 1017, 1, 1010); (1018, 1018, 1, 1019); (1021, 1023, 1, 891);
    (1024, 1039, 1, 1104); (1040, 1071, 1, 1072); (1120, 1152, 2, 1121);
    (1162, 1214, 2, 1163); (1216, 1216, 1, 1231); (1217, 1229, 2, 1218);
    (1232, 1326, 2, 1233); (1329, 1366, 1, 1377); (4256, 4293, 1, 11520);
    (4295, 4295, 1, 11559); (4301, 4301, 1, 11565); (5024, 5103, 1, 43888);
    (5104, 5109, 1, 5112); (7312, 7354, 1, 4304); (7357, 7359, 1, 4349);
    (7680, 7828, 2, 7681); (7838, 7838, 1, 223); (7840, 7934, 2, 7841);
    (7944, 7951, 1, 7936); (7960, 7965, 1, 7952); (7976, 7983, 1, 7968);
    (7992, 7999, 1, 7984); (8008, 8013, 1, 8000); (8025, 8031, 2, 8017);
    (8040, 8047, 1, 8032); (8072, 8079, 1, 8064); (8088, 8095, 1, 8080);
    (8104, 8111, 1, 8096); (8120, 8121, 1, 8112); (8122, 8123, 1, 8048);
    (8124, 8124, 1, 8115); (8136, 8139, 1, 8050); (8140, 8140, 1, 8131);
    (8152, 8153, 1, 8144); (8154, 8155, 1, 8054); (8168, 8169, 1, 8160);
    (8170, 8171, 1, 8058); (8172, 8172, 1, 8165); (8184, 8185, 1, 8056);
    (8186, 8187, 1, 8060); (8188, 8188, 1, 8179); (8486, 8486, 1, 969);
    (8490, 8490, 1, 107); (8491, 8491, 1, 229); (8498, 8498, 1, 8526);
    (8544, 8559, 1, 8560); (8579, 8579, 1, 8580); (9398, 9423, 1, 9424);
    (11264, 11311, 1, 11312); (11360, 11360, 1, 11361); (11362, 11362, 1, 619);
    (11363, 11363, 1, 7549); (11364, 11364, 1, 637); (11367, 11371, 2, 11368);
    (11373, 11373, 1, 593); (11374, 11374, 1, 625); (11375, 11375, 1, 592);
    (11376, 11376, 1, 594); (11378, 11378, 1, 11379); (11381, 11381, 1, 11382);
    (11390, 11391, 1, 575); (11392, 11490, 2, 11393); (11499, 11501, 2, 11500);
    (11506, 11506, 1, 11507); (42560, 42604, 2, 42561); (42624, 42650, 2, 42625);
    (42786, 42798, 2, 42787); (42802, 42862, 2, 42803); (42873, 42875, 2, 42874);
    (42877, 42877, 1, 7545); (42878, 42886, 2, 42879); (42891, 42891, 1, 42892);
    (42893, 42893, 1, 613); (42896, 42898, 2, 42897); (42902, 42920, 2, 42903);
    (42922, 42922, 1, 614); (42923, 42923, 1, 604); (42924, 42924, 1, 609);
    (42925, 42925, 1, 620); (42926, 42926, 1, 618); (42928, 42928, 1, 670);
    (42929, 42929, 1, 647); (42930, 42930, 1, 669); (42931, 42931, 1, 43859);
    (42932, 42946, 2, 42933); (42948, 42948, 1, 42900); (42949, 42949, 1, 642);
    (42950, 42950, 1, 7566); (42951, 42953, 2, 42952); (42960, 42960, 1, 42961);
    (42966, 42968, 2, 42967); (42997, 42997, 1, 42998); (65313, 65338, 1, 65345);
    (66560, 66599, 1, 66600); (66736, 66771, 1, 66776); (66928, 66964, 2, 66967);
    (66929, 66938, 1, 66968); (66941, 66954, 1, 66980); (66957, 66962, 1, 66996);
    (66965, 66965, 1, 67004); (68736, 68786, 1, 68800); (71840, 71871, 1, 71872);
    (93760, 93791, 1, 93792); (125184, 125217, 1, 125218) ]%N.

(** [unicode.ToLower]. *)
Definition ToLower (r : N) : N :=
  (if r <=? 127 then (if (65 <=? r) && (r <=? 90) then r + 32 else r)
   else
     match find (fun '(lo, hi, stride, _) =>
                   (lo <=? r) && (r <=? hi) && ((r - lo) mod stride =? 0)) lowerRanges with
     | Some (lo, _, _, to) => to + (r - lo)
     | None => r
     end)%N.

End Unicode.

(** ** Go strings *)

Module Strings.

(** [strings.HasPrefix]. *)
Fixpoint HasPrefix (s p : string) : bool :=
  match p, s with
  | EmptyString, _ => true
  | String _ _, EmptyString => false
  | String b p', String a s' => if Ascii.eqb a b then HasPrefix s' p' else false
  end.

(** [strings.Contains]: some suffix of [s] starts with [sub]. *)
Fixpoint Contains (s sub : string) : bool :=
  HasPrefix s sub ||
  match s with
  | EmptyString => false
  | String _ s' => Contains s' sub
  end.

(** [strings.ContainsAny] for a class of single-byte characters. *)
Fixpoint ContainsAny (s : string) (class : list ascii) : bool :=
  match s with
  | EmptyString => false
  | String a s' => existsb (Ascii.eqb a) class || ContainsAny s' class
  end.

(** [strings.Map] with a mapping that drops no character: every character
    of [s], an invalid byte counting as [utf8.RuneError], is replaced by
    the encoding of its image. *)
Definition Map (mapping : N -> N) (s : string) : string :=
  fold_right (fun r acc => Unicode.EncodeRune (mapping r) ++ acc) "" (Unicode.runes s).

(** [strings.ToLower]; its shortcut for ASCII text gives what [Map]
    gives. *)
Definition ToLower (s : string) : string := Map Unicode.ToLower s.

(** [len(s)]: the number of bytes. *)
Definition len (s : string) : Z := Z.of_nat (String.length s).

(** [strings.HasSuffix]. *)
Definition HasSuffix (s suf : string) : bool :=
  let n := String.length s in
  let k := String.length suf in
  (k <=? n)%nat && String.eqb (String.substring (n - k) k s) suf.

(** Splits [s] at every occurrence of the byte [sep]
    ([strings.Split] with a one-byte separator). *)
Fixpoint SplitByte (sep : ascii) (s : string) : list string :=
  match s with
  | EmptyString => [EmptyString]
  | String a s' =>
      if Ascii.eqb a sep then EmptyString :: SplitByte sep s'
      else match SplitByte sep s' with
           | [] => [String a EmptyString]
           | w :: ws => String a w :: ws
           end
  end.

(** [strings.Join]. *)
Fixpoint Join (l : list string) (sep : string) : string :=
  match l with
  | [] => EmptyString
  | [w] => w
  | w :: ws => w ++ sep ++ Join ws sep
  end.

(** The suffix of [s] starting at the last occurrence of the byte [c],
    if there is one ([s[strings.LastIndex(s, c):]]). *)
Fixpoint FromLastByte (c : ascii) (s : string) : option string :=
  match s with
  | EmptyString => None
  | String a s' =>
      match FromLastByte c s' with
      | Some t => Some t
      | None => if Ascii.eqb a c then Some s else None
      end
  end.

(** [strconv.Itoa]. *)
Definition Itoa (n : Z) : string := NilZero.string_of_int (Z.to_int n).

(** [strings.Repeat]. *)
Fixpoint Repeat (s : string) (count : nat) : string :=
  match count with
  | O => EmptyString
  | S k => s ++ Repeat s k
  end.

(** [strings.TrimLeftFunc(s, unicode.IsSpace)]: the text from the first
    character that is no white space.  Characters are decoded from UTF-8,
    one to three bytes for the white-space ones; a byte that starts no
    valid encoding is no white space. *)
Fixpoint TrimLeft (s : string) : string :=
  match s with
  | EmptyString => EmptyString
  | String a s1 =>
      if Unicode.isSpace (String a "") then TrimLeft s1
      else
        match s1 with
        | EmptyString => s
        | String b s2 =>
            if Unicode.isSpace (String a (String b "")) then TrimLeft s2
            else
              match s2 with
              | EmptyString => s
              | String c s3 =>
                  if Unicode.isSpace (String a (String b (String c ""))) then TrimLeft s3
                  else s
              end
        end
  end.

(** [strings.TrimRightFunc(s, unicode.IsSpace)]: the text up to the last
    character that is no white space.  With the white space at the end of
    the tail removed, the head byte and what is left are one white-space
    character, and nothing remains, or they are kept. *)
Fixpoint TrimRight (s : string) : string :=
  match s with
  | EmptyString => EmptyString
  | String a s' =>
      let t := TrimRight s' in
      if Unicode.isSpace (String a t) then EmptyString else String a t
  end.

(** [strings.TrimSpace]. *)
Definition TrimSpace (s : string) : string := TrimRight (TrimLeft s).

End Strings.

(** ** Durations ([time.Duration]: a number of nanoseconds) *)

Module Time.

Definition Microsecond : Z := 1000.
Definition Millisecond : Z := 1000 * Microsecond.
Definition Second : Z := 1000 * Millisecond.

(** [fmtFrac]: the last [prec] decimal digits of [v] as a fraction, without
    its trailing zeros and without the point when nothing is left, put in
    front of [tail]; and [v / 10^prec]. *)
Fixpoint fmtFrac (prec : nat) (v : Z) (print : bool) (tail : string) : string * Z :=
  match prec with
  | O => (if print then String "." tail else tail, v)
  | S k =>
      let digit := v mod 10 in
      let print := print || negb (digit =? 0) in
      fmtFrac k (v / 10) print
        (if print then String (ascii_of_N (Z.to_N digit + 48)) tail else tail)
  end.

(** [Duration.String], the text [%v] prints: 1m30s, 1.5s, 250ms, 0s. *)
Definition Duration_String (d : Z) : string :=
  let u := Z.abs d in
  let text :=
    if u <? Second then
      if u =? 0 then "0s"
      else
        let '(prec, unit) :=
          if u <? Microsecond then (0%nat, "ns")
          else if u <? Millisecond then (3%nat, String "194" (String "181" "s"))
          else (6%nat, "ms") in
        let '(frac, u) := fmtFrac prec u false unit in
        Strings.Itoa u ++ frac
    else
      let '(frac, u) := fmtFrac 9 u false "s" in
      let text := Strings.Itoa (u mod 60) ++ frac in
      let u := u / 60 in
      if u >? 0 then
        let text := Strings.Itoa (u mod 60) ++ "m" ++ text in
        let u := u / 60 in
        if u >? 0 then Strings.Itoa u ++ "h" ++ text else text
      else text in
  if d <? 0 then "-" ++ text else text.

End Time.

(** ** Go integers

    [int] is a 64-bit two's-complement integer: products wrap around. *)

Definition wrap_int (n : Z) : Z := (n + 2 ^ 63) mod 2 ^ 64 - 2 ^ 63.

(** ** Errors

    [Errorf] is an error built by [fmt.Errorf] without [%w]; [Wrapf] is one
    built with [%w] around a cause; the two struct error types of the
    package keep their fields. Operating-system errors are classified the
    way the code inspects them. *)

#[local] Set Warnings "-register-all".
Inductive error : Type :=
| Errorf (msg : string)
| Wrapf (msg : string) (cause : error)
| SecurityError (Type_ Message : string) (Cause : option error)
| InputValidationError (Field Value Reason : string)
| ErrNotExist
| ErrPermission
| ErrExit
| ErrDeadlineExceeded
| ErrCodec.
#[local] Set Warnings "+register-all".

Inductive result (A : Type) : Type :=
| Ok (a : A)
| Err (e : error).
Arguments Ok {A} a.
Arguments Err {A} e.

Definition is_ok {A} (r : result A) : bool :=
  match r with Ok _ => true | Err _ => false end.

(** [errors.As(err, &target)] for [*InputValidationError]: the first
    validation error on the chain of wrapped causes, as its field name. *)
Fixpoint as_validation_field (e : error) : option string :=
  match e with
  | InputValidationError f _ _ => Some f
  | Wrapf _ c => as_validation_field c
  | SecurityError _ _ (Some c) => as_validation_field c
  | _ => None
  end.

(** ** Security configuration *)

Definition MaxFileSize : Z := 100 * 1024 * 1024.

Definition AllowedImageExts : string :=
  ".png,.jpg,.jpeg,.webp,.tiff,.bmp,.arw,.srf,.sr2".

(** The character class of [dangerousCommandChars]:
    semicolon, ampersand, bar, backquote, quote, double quote, parentheses,
    braces, brackets, dollar, angle brackets. *)
Definition dangerousCommandClass : list ascii :=
  [ ";"; "&"; "|"; "`"; "'"; "034"; "("; ")"; "{"; "}"; "["; "]"; "$"; "<"; ">" ]%char.

Definition dangerousCommandChars (s : string) : bool :=
  Strings.ContainsAny s dangerousCommandClass.

(** [dangerousPathChars]: two dots followed by a slash or a backslash. *)
Definition dangerousPathChars (s : string) : bool :=
  Strings.Contains s "../" || Strings.Contains s (String "." (String "." (String "092" EmptyString))).

Record SecurityConfig := {
  AllowedCommands : gmap string bool;
  AllowedTempDir : string;
  cfgMaxFileSize : Z;
  CommandTimeout : Z;
  EnableInputValidation : bool
}.

(** Indexing a Go [map[string]bool] by a missing key yields [false]. *)
Definition map_get (m : gmap string bool) (k : string) : bool :=
  default false (m !! k).

(** A [time.Duration] is a number of nanoseconds. *)
Definition DefaultCommandTimeout : Z := 30 * Time.Second.

(** [DefaultSecurityConfig]; [tmp] is the value of [os.TempDir()]. *)
Definition DefaultSecurityConfig (tmp : string) : SecurityConfig :=
  {| AllowedCommands := <["darktable-cli" := true]> (<["echo" := true]> ∅);
     AllowedTempDir := tmp;
     cfgMaxFileSize := MaxFileSize;
     CommandTimeout := DefaultCommandTimeout;
     EnableInputValidation := true |}.

Definition validateCommandName (cmdName : string) (config : SecurityConfig) : option error :=
  if negb (map_get (AllowedCommands config) cmdName) then
    Some (Errorf ("command not allowed: " ++ cmdName))
  else if dangerousCommandChars cmdName then
    Some (Errorf ("command contains dangerous characters: " ++ cmdName))
  else None.

Fixpoint validateCommandArgs (args : list string) : option error :=
  match args with
  | [] => None
  | arg :: rest =>
      if dangerousCommandChars arg then
        Some (Errorf ("argument contains dangerous characters: " ++ arg))
      else if dangerousPathChars arg then
        Some (Errorf ("argument contains path traversal sequences: " ++ arg))
      else if Strings.len arg >? 4096 then
        Some (Errorf ("argument too long: " ++ arg))
      else validateCommandArgs rest
  end.

(** ** The operating system

    A [World] holds what the package observes and changes outside the
    process: the files (permission bits and contents by path), the paths
    whose removal the system refuses, the paths the system refuses to open
    for writing, each with the error it gives (a missing or read-only
    directory, a directory in the place of the file, a protected file), the
    file-mode creation mask of the process, the executables [exec.LookPath]
    and [exec.Command] resolve, the value of [os.TempDir()], the random
    strings [os.CreateTemp] will draw, the processes started so far (latest
    first) and what a started process does to the files and how it
    ends. *)

Record File := { f_mode : Z; f_data : string }.

Record Process := {
  proc_name : string;
  proc_args : list string;
  proc_dir : string
}.

(** How a started process ends for [cmd.Run()]: with status 0, with
    another status, or at the deadline of its context, with the error
    [Run] then returns (that of the killed process, as a rule). *)
Inductive run_status := Exited0 | ExitedNonzero | TimedOut (err : error).

Record World := {
  files : gmap string File;
  locked : gset string;
  unwritable : gmap string error;
  umask : Z;
  lookpath : gset string;
  tempdir : string;
  randoms : list string;
  spawned : list Process;
  behaviour : Process -> gmap string File -> gmap string File * run_status
}.

Definition set_files (fs : gmap string File) (w : World) : World :=
  {| files := fs; locked := locked w; unwritable := unwritable w; umask := umask w;
     lookpath := lookpath w;
     tempdir := tempdir w; randoms := randoms w; spawned := spawned w;
     behaviour := behaviour w |}.

Definition set_randoms (rs : list string) (w : World) : World :=
  {| files := files w; locked := locked w; unwritable := unwritable w; umask := umask w;
     lookpath := lookpath w;
     tempdir := tempdir w; randoms := rs; spawned := spawned w;
     behaviour := behaviour w |}.

Definition add_spawned (p : Process) (w : World) : World :=
  {| files := files w; locked := locked w; unwritable := unwritable w; umask := umask w;
     lookpath := lookpath w;
     tempdir := tempdir w; randoms := randoms w; spawned := p :: spawned w;
     behaviour := behaviour w |}.

(** Effectful functions take the world and return the new world with their
    result. *)
Definition IO (A : Type) : Type := World -> World * A.

#[global] Instance IO_ret : MRet IO := fun A (a : A) w => (w, a).

#[global] Instance IO_bind : MBind IO :=
  fun A B (k : A -> IO B) (m : IO A) w => let '(w', a) := m w in k a w'.

(** [cmd.Run()] for [exec.CommandContext(ctx, name, args...)] with
    [cmd.Dir = dir], where [ctx] comes from [context.WithTimeout] with
    [timeout]; the result is the error of [Run] with whether [ctx.Err()] is
    [context.DeadlineExceeded] afterwards.  A name that does not resolve to
    an executable fails without starting anything.  With a timeout that is
    not positive the context is done from the start and [Run] starts
    nothing.  Otherwise the process is started, recorded, and acts on the
    files: a positive timeout is taken to run out, if it does, only once
    the process is started. *)
Definition cmd_Run (name : string) (args : list string) (dir : string) (timeout : Z)
    : IO (option error * bool) :=
  fun w =>
    if decide (name ∈ lookpath w) then
      if timeout <=? 0 then (w, (Some ErrDeadlineExceeded, true))
      else
        let p := {| proc_name := name; proc_args := args; proc_dir := dir |} in
        let '(fs, st) := behaviour w p (files w) in
        let w' := set_files fs (add_spawned p w) in
        match st with
        | Exited0 => (w', (None, false))
        | ExitedNonzero => (w', (Some ErrExit, false))
        | TimedOut err => (w', (Some err, true))
        end
    else (w, (Some ErrNotExist, timeout <=? 0)).

(** [safeExecuteCommand] under the context its one caller passes,
    [context.Background()]: the deadline of [context.WithTimeout] is the
    only one. *)
Definition safeExecuteCommand (cmdName : string) (args : list string)
    (config : SecurityConfig) : IO (option error) :=
  match validateCommandName cmdName config with
  | Some err => mret (Some (Wrapf "invalid command" err))
  | None =>
  match validateCommandArgs args with
  | Some err => mret (Some (Wrapf "invalid arguments" err))
  | None =>
    r ← cmd_Run cmdName args (AllowedTempDir config) (CommandTimeout config);
    match r with
    | (Some err, true) =>
        mret (Some (Wrapf ("command timed out after "
                           ++ Time.Duration_String (CommandTimeout config)) err))
    | (Some err, false) => mret (Some (Wrapf "command execution failed" err))
    | (None, _) => mret None
    end
  end end.

(** ** Paths ([path/filepath] on a system whose separator is the slash) *)

Module Filepath.

Definition is_dotdot (el : string) : bool := String.eqb el "..".

(** One path element against the elements kept so far (latest first):
    empty and [.] elements are dropped, [..] removes the last real
    element, is dropped at the root, and is kept at the start of a
    relative path. *)
Definition clean_step (rooted : bool) (kept : list string) (el : string) : list string :=
  if String.eqb el "" || String.eqb el "." then kept
  else if is_dotdot el then
    match kept with
    | top :: rest =>
        if is_dotdot top then (if rooted then kept else el :: kept) else rest
    | [] => if rooted then [] else [el]
    end
  else el :: kept.

(** [filepath.Clean]. *)
Definition Clean (path : string) : string :=
  if String.eqb path "" then "."
  else
    let rooted := Strings.HasPrefix path "/" in
    let kept := fold_left (clean_step rooted) (Strings.SplitByte "/" path) [] in
    let body := Strings.Join (rev kept) "/" in
    if rooted then "/" ++ body
    else if String.eqb body "" then "." else body.

(** [filepath.IsAbs]. *)
Definition IsAbs (path : string) : bool := Strings.HasPrefix path "/".

(** [filepath.Ext]: from the last dot of the last path element. *)
Definition Ext (path : string) : string :=
  default "" (Strings.FromLastByte "." (List.last (Strings.SplitByte "/" path) "")).

End Filepath.

Definition validateFilePath (filePath : string) (config : SecurityConfig) : result string :=
  let cleanPath := Filepath.Clean filePath in
  if Strings.Contains cleanPath ".." then
    Err (Errorf ("path traversal detected: " ++ filePath))
  else if Filepath.IsAbs cleanPath then
    Err (Errorf ("absolute paths not allowed: " ++ filePath))
  else if dangerousPathChars cleanPath then
    Err (Errorf ("path contains dangerous characters: " ++ filePath))
  else if Strings.len cleanPath >? 260 then
    Err (Errorf ("path too long: " ++ filePath))
  else Ok cleanPath.

Definition validateFileExtension (filePath : string) : option error :=
  let ext := Strings.ToLower (Filepath.Ext filePath) in
  let allowedExts := Strings.SplitByte "," AllowedImageExts in
  if existsb (String.eqb ext) allowedExts then None
  else Some (Errorf ("file extension not allowed: " ++ ext)).

(** ** Files *)

(** [os.Stat]: the file at [path], or [ErrNotExist]. *)
Definition os_Stat (path : string) : IO (result File) :=
  fun w => (w, match files w !! path with Some f => Ok f | None => Err ErrNotExist end).

Definition file_Size (f : File) : Z := Strings.len (f_data f).

(** [os.ReadFile]. *)
Definition os_ReadFile (path : string) : IO (result string) :=
  fun w => (w, match files w !! path with Some f => Ok (f_data f) | None => Err ErrNotExist end).

(** [os.Remove]: an absent path gives [ErrNotExist], a path the system
    protects gives [ErrPermission], any other file is unlinked. *)
Definition os_Remove (path : string) : IO (option error) :=
  fun w =>
    match files w !! path with
    | None => (w, Some ErrNotExist)
    | Some _ =>
        if decide (path ∈ locked w) then (w, Some ErrPermission)
        else (set_files (delete path (files w)) w, None)
    end.

Definition os_IsNotExist (e : error) : bool :=
  match e with ErrNotExist => true | _ => false end.

(** [File.Chmod]. *)
Definition file_Chmod (path : string) (mode : Z) : IO (option error) :=
  fun w =>
    match files w !! path with
    | None => (w, Some ErrNotExist)
    | Some f =>
        if decide (path ∈ locked w) then (w, Some ErrPermission)
        else (set_files (<[path := {| f_mode := mode; f_data := f_data f |}]> (files w)) w, None)
    end.

(** [File.Write] of all of [data] at the end of the file. *)
Definition file_Write (path : string) (data : string) : IO (option error) :=
  fun w =>
    match files w !! path with
    | None => (w, Some ErrNotExist)
    | Some f =>
        (set_files (<[path := {| f_mode := f_mode f; f_data := f_data f ++ data |}]> (files w)) w, None)
    end.

(** [File.Sync]: nothing that is modelled changes. *)
Definition file_Sync (path : string) : IO (option error) :=
  fun w => (w, None).


(** The prefix and suffix of a [CreateTemp] pattern: split at the last
    star; a pattern with a separator is refused. *)
Definition prefixAndSuffix (pattern : string) : result (string * string) :=
  if Strings.Contains pattern "/" then Err (Errorf "pattern contains path separator")
  else match Strings.FromLastByte "*" pattern with
       | Some star_suffix =>
           let k := String.length star_suffix in
           Ok (String.substring 0 (String.length pattern - k) pattern,
               String.substring 1 (k - 1) star_suffix)
       | None => Ok (pattern, "")
       end.

Definition joinPath (dir name : string) : string :=
  if Strings.HasSuffix dir "/" then dir ++ name else dir ++ "/" ++ name.

(** The first name [prefix ++ r ++ suffix], [r] drawn from the supply, that
    is not taken; the rest of the supply. *)
Fixpoint fresh_name (fs : gmap string File) (prefix suffix : string) (rs : list string)
    : option (string * list string) :=
  match rs with
  | [] => None
  | r :: rs' =>
      let name := prefix ++ r ++ suffix in
      match fs !! name with
      | None => Some (name, rs')
      | Some _ => fresh_name fs prefix suffix rs'
      end
  end.

(** [os.CreateTemp]: a new empty file, created with the bits of 0600 that
    the creation mask leaves, whose name is made of the directory, the
    pattern and a random string.  An exhausted supply of random strings
    stands for every failure of the system call.  The returned handle is
    the file's name. *)
Definition os_CreateTemp (dir pattern : string) : IO (result string) :=
  fun w =>
    let dir := if String.eqb dir "" then tempdir w else dir in
    match prefixAndSuffix pattern with
    | Err e => (w, Err e)
    | Ok (prefix, suffix) =>
        match fresh_name (files w) (joinPath dir prefix) suffix (randoms w) with
        | None => (set_randoms [] w, Err ErrPermission)
        | Some (name, rs) =>
            (set_files (<[name := {| f_mode := Z.ldiff 384 (umask w); f_data := "" |}]>
                          (files w))
                       (set_randoms rs w), Ok name)
        end
    end.

Definition validateFileSize (filePath : string) (maxSize : Z) : IO (option error) :=
  st ← os_Stat filePath;
  match st with
  | Err err => mret (Some (Wrapf "failed to get file info" err))
  | Ok fileInfo =>
      if file_Size fileInfo >? maxSize then
        mret (Some (Errorf ("file too large: " ++ Strings.Itoa (file_Size fileInfo)
                            ++ " bytes (max: " ++ Strings.Itoa maxSize ++ ")")))
      else mret None
  end.

(** [secureCreateTempFile]; 384 is 0600.  Closing a file changes nothing
    that is modelled. *)
Definition secureCreateTempFile (pattern : string) (config : SecurityConfig) : IO (result string) :=
  r ← os_CreateTemp (AllowedTempDir config) pattern;
  match r with
  | Err err => mret (Err (Wrapf "failed to create temp file" err))
  | Ok tempFile =>
      e ← file_Chmod tempFile 384;
      match e with
      | Some err =>
          _ ← os_Remove tempFile;
          mret (Err (Wrapf "failed to set secure permissions" err))
      | None => mret (Ok tempFile)
      end
  end.

Definition secureCleanup (filePath : string) (keepTemp : bool) : IO (option error) :=
  if keepTemp then mret None
  else
    e ← os_Remove filePath;
    match e with
    | Some err =>
        if negb (os_IsNotExist err) then
          mret (Some (Wrapf ("failed to cleanup file " ++ filePath) err))
        else mret None
    | None => mret None
    end.

(** ** RAW conversion *)

Record ARWProcessOptions := {
  Bitness : Z;
  Compression : Z;
  ColorSpace : string;
  WhiteBalance : string;
  Exposure : spec_float;
  Contrast : spec_float;
  Saturation : spec_float;
  arwTempDir : string;
  KeepTemp : bool
}.

Definition DefaultARWProcessOptions : ARWProcessOptions :=
  {| Bitness := 16; Compression := 6; ColorSpace := "sRGB"; WhiteBalance := "camera";
     Exposure := S754_zero false; Contrast := S754_zero false; Saturation := S754_zero false;
     arwTempDir := ""; KeepTemp := false |}.

Definition colorSpaceMap : gmap string string :=
  <["sRGB" := "2"]> (<["AdobeRGB" := "1"]> (<["ProPhoto" := "3"]> ∅)).

Definition wbMap : gmap string string :=
  <["camera" := "camera"]> (<["auto" := "auto"]> (<["manual" := "manual"]> ∅)).

(** [exec.LookPath] of the converter together with the allow-list entry. *)
Definition isDarktableAvailable : IO bool :=
  fun w =>
    let config := DefaultSecurityConfig (tempdir w) in
    (w, bool_decide ("darktable-cli" ∈ lookpath w)
        && map_get (AllowedCommands config) "darktable-cli").

(** [buildDarktableArgs]; [tmp] is the value of [os.TempDir()] read by
    [DefaultSecurityConfig]. *)
Definition buildDarktableArgs (tmp inputPath outputPath : string)
    (options : ARWProcessOptions) : result (list string) :=
  match validateFilePath inputPath (DefaultSecurityConfig tmp) with
  | Err err => Err (SecurityError "path_validation" "invalid input path" (Some err))
  | Ok _ =>
  match validateFilePath outputPath (DefaultSecurityConfig tmp) with
  | Err err => Err (SecurityError "path_validation" "invalid output path" (Some err))
  | Ok _ =>
  if negb (Bitness options =? 8) && negb (Bitness options =? 16) then
    Err (InputValidationError "bitness" (Strings.Itoa (Bitness options)) "must be 8 or 16")
  else if (Compression options <? 0) || (Compression options >? 9) then
    Err (InputValidationError "compression" (Strings.Itoa (Compression options))
           "must be between 0 and 9")
  else
    let args := [inputPath; outputPath] in
    let bitArgs := ["--core"; "--conf";
                    "plugins/imageio/format/png/bpp=" ++ Strings.Itoa (Bitness options)] in
    let args := (args ++ bitArgs)%list in
    let compressionArgs := ["--core"; "--conf";
                            "plugins/imageio/format/png/compression="
                              ++ Strings.Itoa (Compression options)] in
    let args := (args ++ compressionArgs)%list in
    match colorSpaceMap !! ColorSpace options with
    | None =>
        Err (InputValidationError "colorspace" (ColorSpace options)
               "must be sRGB, AdobeRGB, or ProPhoto")
    | Some colorSpaceID =>
        let args := (args ++ ["--core"; "--conf";
                             "plugins/lighttable/export/colorspace=" +:+ colorSpaceID])%list in
        match wbMap !! WhiteBalance options with
        | None =>
            Err (InputValidationError "whitebalance" (WhiteBalance options)
                   "must be camera, auto, or manual")
        | Some wbMode =>
            let args := (args ++ ["--core"; "--conf";
                                 "plugins/lighttable/export/wb=" +:+ wbMode])%list in
            let args := (args ++ ["--hq"; "--upscale"])%list in
            Ok (args ++ ["--conf"; "plugins/lighttable/export/overwrite=true"])%list
        end
    end
  end end.

Definition safeExecuteDarktableCommand (inputPath outputPath : string)
    (options : ARWProcessOptions) : IO (option error) :=
  fun w =>
    let config := DefaultSecurityConfig (tempdir w) in
    match buildDarktableArgs (tempdir w) inputPath outputPath options with
    | Err err => (w, Some (Wrapf "failed to build command args" err))
    | Ok args => safeExecuteCommand "darktable-cli" args config w
    end.

(** [extractExt]: slicing from index -1 panics when there is no dot. *)
Definition extractExt (filename : string) : option string :=
  Strings.ToLower <$> Strings.FromLastByte "." filename.


(** The configuration [ProcessARWToPNG] works with: the default one with
    the temporary directory of the options, or [os.TempDir()] when the
    options name none. *)
Definition arwConfig (tmp : string) (options : ARWProcessOptions) : SecurityConfig :=
  {| AllowedCommands := AllowedCommands (DefaultSecurityConfig tmp);
     AllowedTempDir := if String.eqb (arwTempDir options) "" then tmp else arwTempDir options;
     cfgMaxFileSize := MaxFileSize;
     CommandTimeout := DefaultCommandTimeout;
     EnableInputValidation := true |}.

(** [ProcessARWToPNG].  The deferred function (close, then
    [secureCleanup]) runs after the body whatever the body returns; its
    errors are only printed. *)
Definition ProcessARWToPNG (arwPath : string) (options : ARWProcessOptions)
    : IO (result string) :=
  fun w0 =>
  let config := arwConfig (tempdir w0) options in
  match validateFilePath arwPath config with
  | Err err => (w0, Err (SecurityError "path_validation" "invalid ARW file path" (Some err)))
  | Ok cleanPath =>
  match validateFileExtension cleanPath with
  | Some err =>
      (w0, Err (SecurityError "extension_validation" "invalid file extension for ARW" (Some err)))
  | None =>
  (e ← validateFileSize cleanPath MaxFileSize;
   match e with
   | Some err => mret (Err (SecurityError "size_validation" "ARW file too large" (Some err)))
   | None =>
   st ← os_Stat cleanPath;
   if match st with Err err => os_IsNotExist err | Ok _ => false end then
     mret (Err (Errorf ("ARW file does not exist: " ++ cleanPath)))
   else
   avail ← isDarktableAvailable;
   if negb avail then
     mret (Err (Errorf "darktable-cli is not available. Please install darktable-cli"))
   else
   t ← secureCreateTempFile "arw_output_*.png" config;
   match t with
   | Err err => mret (Err (Wrapf "failed to create secure temp output file" err))
   | Ok tempOutputPath =>
       r ← (x ← safeExecuteDarktableCommand cleanPath tempOutputPath options;
            match x with
            | Some err => mret (Err (Wrapf "darktable-cli execution failed" err))
            | None =>
                d ← os_ReadFile tempOutputPath;
                match d with
                | Err err => mret (Err (Wrapf "failed to read output PNG file" err))
                | Ok pngData =>
                    if Strings.len pngData >? MaxFileSize then
                      mret (Err (SecurityError "size_validation" "output PNG file too large" None))
                    else mret (Ok pngData)
                end
            end);
       _ ← secureCleanup tempOutputPath (KeepTemp options);
       mret r
   end
   end) w0
  end end.

(** The header test of [ValidateARWFile] on the first 512 bytes. *)
Definition isValidARW (header : string) : bool :=
  Strings.Contains header "ARW" || Strings.Contains header "SONY"
  || Strings.Contains header
       (String "000" (String "000" (String "000" (String "024" "FTYP")))).

Definition ValidateARWFile (arwPath : string) : IO (option error) :=
  fun w0 =>
  let config := DefaultSecurityConfig (tempdir w0) in
  match validateFilePath arwPath config with
  | Err err => (w0, Some (SecurityError "path_validation" "invalid ARW file path" (Some err)))
  | Ok cleanPath =>
  match validateFileExtension cleanPath with
  | Some err =>
      (w0, Some (SecurityError "extension_validation" "invalid file extension for ARW" (Some err)))
  | None =>
  (e ← validateFileSize cleanPath MaxFileSize;
   match e with
   | Some err =>
       mret (Some (SecurityError "size_validation" "ARW file size validation failed" (Some err)))
   | None =>
   st ← os_Stat cleanPath;
   match st with
   | Err err =>
       if os_IsNotExist err then mret (Some (Errorf ("file does not exist: " ++ cleanPath)))
       else mret (Some (Wrapf "failed to access file" err))
   | Ok fileInfo =>
       if file_Size fileInfo =? 0 then mret (Some (Errorf ("file is empty: " ++ cleanPath)))
       else
       let ext := default "" (extractExt cleanPath) in
       if negb (String.eqb ext ".arw") && negb (String.eqb ext ".srf")
          && negb (String.eqb ext ".sr2") then
         mret (Some (Errorf ("unsupported file extension: " ++ ext
                             ++ " (expected .arw, .srf, or .sr2)")))
       else
       d ← os_ReadFile cleanPath;
       match d with
       | Err err => mret (Some (Wrapf "failed to open file" err))
       | Ok data =>
           let buffer := String.substring 0 512 data in
           if negb (isValidARW buffer) then
             mret (Some (Errorf ("file does not appear to be a valid ARW file: " ++ cleanPath)))
           else mret None
       end
   end
   end) w0
  end end.

(** ** float64

    IEEE-754 binary64 arithmetic with round-to-nearest-even, by the
    standard library's executable specification. *)

Module F64.

Definition prec : Z := 53.
Definition emax : Z := 1024.

Definition mul : spec_float -> spec_float -> spec_float := SFmul prec emax.
Definition div : spec_float -> spec_float -> spec_float := SFdiv prec emax.

(** [x < y], [x <= y], [x > y], [x >= y], [x == y]; all false on NaN. *)
Definition lt (x y : spec_float) : bool := SFltb x y.
Definition le (x y : spec_float) : bool := SFleb x y.
Definition gt (x y : spec_float) : bool := SFltb y x.
Definition ge (x y : spec_float) : bool := SFleb y x.
Definition eq (x y : spec_float) : bool := SFeqb x y.

(** [float64(n)] for an integer [n]. *)
Definition of_int (n : Z) : spec_float := binary_normalize prec emax n 0 false.

(** A decimal constant [a/b] of the source: the binary64 number nearest
    to it. *)
Definition const (a b : Z) : spec_float := div (of_int a) (of_int b).

Definition c1_0 : spec_float := Eval vm_compute in of_int 1.
Definition c0_6 : spec_float := Eval vm_compute in const 6 10.
Definition c0_75 : spec_float := Eval vm_compute in const 75 100.
Definition c0_85 : spec_float := Eval vm_compute in const 85 100.
Definition c0_8 : spec_float := Eval vm_compute in const 8 10.
Definition c0_1 : spec_float := Eval vm_compute in const 1 10.

(** [int(x)]: the fraction is discarded.  The language leaves the result
    open when the value is not a 64-bit integer (NaN, infinities, too
    large): the model has no result there. *)
Definition to_int (x : spec_float) : option Z :=
  match x with
  | S754_zero _ => Some 0
  | S754_finite s m e =>
      let a := match e with
               | Zneg p => Z.pos m / 2 ^ Z.pos p
               | _ => Z.pos m * 2 ^ e
               end in
      let v := if s then - a else a in
      if (- 2 ^ 63 <=? v) && (v <? 2 ^ 63) then Some v else None
  | _ => None
  end.

Definition is_nan (x : spec_float) : bool :=
  match x with S754_nan => true | _ => false end.

Definition is_neg_inf (x : spec_float) : bool :=
  match x with S754_infinity true => true | _ => false end.

Definition signbit (x : spec_float) : bool :=
  match x with
  | S754_zero s | S754_infinity s | S754_finite s _ _ => s
  | S754_nan => false
  end.

(** [math.Min]. *)
Definition Min (x y : spec_float) : spec_float :=
  if is_neg_inf x || is_neg_inf y then S754_infinity true
  else if is_nan x || is_nan y then S754_nan
  else if eq x (S754_zero false) && eq x y then (if signbit x then x else y)
  else if lt x y then x else y.

(** The rational value of a finite number (0 for the others). *)
Definition value (x : spec_float) : Q :=
  match x with
  | S754_finite s m e => (if s then -(1) else 1) * inject_Z (Z.pos m) * 2 ^ e
  | _ => 0
  end%Q.

(** The numbers the encoder computes with: zero or positive, finite and
    in canonical form. *)
Definition fin (x : spec_float) : Prop :=
  match x with
  | S754_zero s => s = false
  | S754_finite s m e => s = false /\ bounded prec emax m e = true
  | _ => False
  end.

(** The same or plus infinity: not NaN, not negative, canonical. *)
Definition wf (x : spec_float) : Prop :=
  match x with
  | S754_zero s | S754_infinity s => s = false
  | S754_finite s m e => s = false /\ bounded prec emax m e = true
  | S754_nan => False
  end.

(** A shift record [(m, r, s)] after [k] shifts locates the integer [V]:
    [V] lies in [[m, m+1) * 2^k], and the round and sticky bits are both
    clear exactly when [V = m * 2^k]. *)
Definition located (mrs : shr_record) (k : Z) (V : Z) : Prop :=
  0 <= shr_m mrs /\
  shr_m mrs * 2 ^ k <= V < (shr_m mrs + 1) * 2 ^ k /\
  (shr_r mrs = false /\ shr_s mrs = false <-> V = shr_m mrs * 2 ^ k).

End F64.

(** ** Images

    The decoders, the encoders and the resampler are those of the [image],
    [image/png], [image/jpeg] and [imaging] libraries: an [ImageLib] gives
    them over an abstract type of images.  [Dx] and [Dy] are the width and
    the height of the bounds. *)

Class ImageLib := {
  Image : Type;
  Dx : Image -> Z;
  Dy : Image -> Z;
  imaging_Decode : string -> option Image;
  png_Decode : string -> option Image;
  jpeg_Decode : string -> option Image;
  jpeg_Encode : Image -> Z -> option string;
  png_Encode : Image -> option string;
  imaging_Resize : Image -> Z -> Z -> Image
}.

Record ProcessImageOptions := {
  MaxSizeBytes : Z;
  MaxWidth : Z;
  MaxHeight : Z;
  Quality : Z;
  OutputFormat : string;
  TempDir : string
}.

Definition DefaultProcessImageOptions : ProcessImageOptions :=
  {| MaxSizeBytes := 7 * 1024 * 1024; MaxWidth := 0; MaxHeight := 0;
     Quality := 85; OutputFormat := "png"; TempDir := "" |}.

(** The dynamic type of the [interface{}] input. *)
Inductive Input :=
| InPath (path : string)
| InBytes (data : string)
| InOther (typeName : string).

Definition calculateScaleFactor (pixels : Z) : spec_float :=
  if pixels >=? 8 * 1024 * 1024 then F64.c0_6
  else if pixels >=? 4 * 1024 * 1024 then F64.c0_75
  else if pixels >=? 2 * 1024 * 1024 then F64.c0_85
  else F64.c1_0.

Definition calculateUserScaleFactor (width height maxWidth maxHeight : Z) : spec_float :=
  if (maxWidth <=? 0) && (maxHeight <=? 0) then F64.c1_0
  else
    let scaleX :=
      if (maxWidth >? 0) && (width >? maxWidth)
      then F64.div (F64.of_int maxWidth) (F64.of_int width) else F64.c1_0 in
    let scaleY :=
      if (maxHeight >? 0) && (height >? maxHeight)
      then F64.div (F64.of_int maxHeight) (F64.of_int height) else F64.c1_0 in
    let result := F64.Min scaleX scaleY in
    if F64.gt result F64.c1_0 then F64.c1_0 else result.

(** The configuration [ProcessImageToTempFile] works with: the default one
    with the temporary directory of the options, or [os.TempDir()] when
    the options name none. *)
Definition tempFileConfig (tmp : string) (options : ProcessImageOptions) : SecurityConfig :=
  {| AllowedCommands := AllowedCommands (DefaultSecurityConfig tmp);
     AllowedTempDir := if String.eqb (TempDir options) "" then tmp else TempDir options;
     cfgMaxFileSize := MaxFileSize;
     CommandTimeout := DefaultCommandTimeout;
     EnableInputValidation := true |}.

(** What a run of the resize loop comes to: a returned value, a
    conversion to [int] the language leaves open, or no answer within the
    given number of iterations. *)
Inductive outcome (A : Type) : Type :=
| Returned (a : A)
| Unspecified
| OutOfFuel.
Arguments Returned {A} a.
Arguments Unspecified {A}.
Arguments OutOfFuel {A}.

Section Encoder.
Context {lib : ImageLib}.

(** The bytes and extension [ProcessImage] returns, with the image they
    were encoded from (not a value of the Go function: kept to speak about
    its dimensions). *)
Record Encoded := {
  enc_bytes : string;
  enc_ext : string;
  enc_image : Image
}.

Definition decodeImage (input : Input) : IO (result (Image * string)) :=
  fun w =>
  let reader : result string :=
    match input with
    | InPath v =>
        let config := DefaultSecurityConfig (tempdir w) in
        match validateFilePath v config with
        | Err err => Err (SecurityError "path_validation" "invalid file path" (Some err))
        | Ok cleanPath =>
        match validateFileExtension cleanPath with
        | Some err =>
            Err (SecurityError "extension_validation" "invalid file extension" (Some err))
        | None =>
        match (validateFileSize cleanPath MaxFileSize w).2 with
        | Some err =>
            Err (SecurityError "size_validation" "file size validation failed" (Some err))
        | None =>
        match (os_ReadFile cleanPath w).2 with
        | Err err => Err (Wrapf "failed to open file" err)
        | Ok data => Ok data
        end end end end
    | InBytes v =>
        if Strings.len v >? MaxFileSize
        then Err (SecurityError "size_validation" "input data too large" None)
        else Ok v
    | InOther t => Err (InputValidationError "input_type" t "unsupported input type")
    end in
  match reader with
  | Err err => (w, Err err)
  | Ok data =>
      match imaging_Decode data with
      | Some img => (w, Ok (img, "unknown"))
      | None =>
      match png_Decode data with
      | Some pngImg => (w, Ok (pngImg, "png"))
      | None =>
      match jpeg_Decode data with
      | Some jpegImg => (w, Ok (jpegImg, "jpeg"))
      | None => (w, Err (Errorf "unsupported image format"))
      end end end
  end.

Definition encodeImageWithCompression (img : Image) (options : ProcessImageOptions)
    : result (string * string) :=
  let format := Strings.ToLower (OutputFormat options) in
  if String.eqb format "jpeg" then
    match jpeg_Encode img (Quality options) with
    | None => Err ErrCodec
    | Some buf => Ok (buf, ".jpg")
    end
  else if String.eqb format "png" then
    match png_Encode img with
    | None => Err ErrCodec
    | Some buf => Ok (buf, ".png")
    end
  else Err (Errorf ("unsupported output format: " ++ OutputFormat options)).

(** The loop of [ProcessImage]: [last] is the result of the latest
    encoding, returned when the running factor falls below [minFactor]. *)
Fixpoint resizeLoop (fuel : nat) (img : Image) (options : ProcessImageOptions)
    (originalWidth originalHeight : Z) (scaleFactor currentFactor : spec_float)
    (last : Encoded) : outcome (result Encoded) :=
  let minFactor := F64.c0_1 in
  if negb (F64.ge currentFactor minFactor) then Returned (Ok last)
  else
    match fuel with
    | O => OutOfFuel
    | S fuel' =>
        let targetFactor := F64.mul currentFactor scaleFactor in
        let targetFactor := if F64.gt targetFactor F64.c1_0 then F64.c1_0 else targetFactor in
        match F64.to_int (F64.mul (F64.of_int originalWidth) targetFactor),
              F64.to_int (F64.mul (F64.of_int originalHeight) targetFactor) with
        | Some newWidth, Some newHeight =>
            let scaledImg := imaging_Resize img newWidth newHeight in
            match encodeImageWithCompression scaledImg options with
            | Err err => Returned (Err (Wrapf "failed to encode scaled image" err))
            | Ok (result, ext) =>
                let enc := {| enc_bytes := result; enc_ext := ext; enc_image := scaledImg |} in
                if Strings.len result <=? MaxSizeBytes options then Returned (Ok enc)
                else
                  let currentFactor := F64.mul targetFactor F64.c0_8 in
                  resizeLoop fuel' img options originalWidth originalHeight
                    scaleFactor currentFactor enc
            end
        | _, _ => Unspecified
        end
    end.

(** The options after the defaults are filled in. *)
Definition withDefaults (tmp : string) (options : ProcessImageOptions) : ProcessImageOptions :=
  {| MaxSizeBytes := if MaxSizeBytes options <=? 0
                     then MaxSizeBytes DefaultProcessImageOptions else MaxSizeBytes options;
     MaxWidth := MaxWidth options;
     MaxHeight := MaxHeight options;
     Quality := if Quality options <=? 0
                then Quality DefaultProcessImageOptions else Quality options;
     OutputFormat := if String.eqb (OutputFormat options) ""
                     then OutputFormat DefaultProcessImageOptions else OutputFormat options;
     TempDir := if String.eqb (TempDir options) "" then tmp else TempDir options |}.

(** The scale factor the loop runs with. *)
Definition chooseScaleFactor (originalWidth originalHeight : Z)
    (options : ProcessImageOptions) : spec_float :=
  let originalPixels := wrap_int (originalWidth * originalHeight) in
  let scaleFactor := calculateScaleFactor originalPixels in
  if (MaxWidth options >? 0) || (MaxHeight options >? 0) then
    let userScaleFactor :=
      calculateUserScaleFactor originalWidth originalHeight
        (MaxWidth options) (MaxHeight options) in
    if F64.lt userScaleFactor scaleFactor then userScaleFactor else scaleFactor
  else scaleFactor.

(** [ProcessImage] after decoding. *)
Definition processDecoded (fuel : nat) (img : Image) (options : ProcessImageOptions)
    : outcome (result Encoded) :=
  let originalWidth := Dx img in
  let originalHeight := Dy img in
  match encodeImageWithCompression img options with
  | Err err => Returned (Err (Wrapf "failed to encode image" err))
  | Ok (result, ext) =>
      let enc := {| enc_bytes := result; enc_ext := ext; enc_image := img |} in
      if Strings.len result <=? MaxSizeBytes options then Returned (Ok enc)
      else
        let scaleFactor := chooseScaleFactor originalWidth originalHeight options in
        resizeLoop fuel img options originalWidth originalHeight scaleFactor F64.c1_0 enc
  end.


(** [enc] was encoded from the original image or from the original image
    resized to dimensions that are not negative and not above the original
    ones. *)
Definition within (img : Image) (enc : Encoded) : Prop :=
  enc_image enc = img \/
  exists newWidth newHeight,
    0 <= newWidth <= Dx img /\ 0 <= newHeight <= Dy img /\
    enc_image enc = imaging_Resize img newWidth newHeight.

(** [ProcessImage]; [fuel] bounds the iterations of the loop. *)
Definition ProcessImage (fuel : nat) (input : Input) (options : ProcessImageOptions)
    : IO (outcome (result Encoded)) :=
  fun w =>
  let options := withDefaults (tempdir w) options in
  let '(w1, d) := decodeImage input w in
  match d with
  | Err err => (w1, Returned (Err (Wrapf "failed to decode image" err)))
  | Ok (img, _) => (w1, processDecoded fuel img options)
  end.


(** [ProcessImageToTempFile].  The deferred close changes nothing that is
    modelled. *)
Definition ProcessImageToTempFile (fuel : nat) (input : Input) (options : ProcessImageOptions)
    : IO (outcome (result string)) :=
  fun w =>
  let '(w1, r) := ProcessImage fuel input options w in
  match r with
  | Returned (Err err) => (w1, Returned (Err err))
  | Returned (Ok enc) =>
      let config := tempFileConfig (tempdir w1) options in
      (t ← secureCreateTempFile "processed_*.png" config;
       match t with
       | Err err => mret (Returned (Err (Wrapf "failed to create secure temp file" err)))
       | Ok tempPath =>
           e ← file_Write tempPath (enc_bytes enc);
           match e with
           | Some err =>
               _ ← secureCleanup tempPath false;
               mret (Returned (Err (Wrapf "failed to write temp file" err)))
           | None =>
               s ← file_Sync tempPath;
               match s with
               | Some err =>
                   _ ← secureCleanup tempPath false;
                   mret (Returned (Err (Wrapf "failed to sync temp file" err)))
               | None => mret (Returned (Ok tempPath))
               end
           end
       end) w1
  | Unspecified => (w1, Unspecified)
  | OutOfFuel => (w1, OutOfFuel)
  end.

(** [enc] holds the bytes and the extension its image is encoded to under
    [options]. *)
Definition encoded_from (options : ProcessImageOptions) (enc : Encoded) : Prop :=
  encodeImageWithCompression (enc_image enc) options = Ok (enc_bytes enc, enc_ext enc).

End Encoder.

(** ** Subscriptions (package [proxy])

    The subscription URLs come from an environment value and from a file
    the API edits; [json.Unmarshal] into a [[]string] is the decoder of
    [encoding/json], given by a [JSONLib]. *)

Definition singboxSubsFile : string := "tmp/singbox/subscriptions.json".

Class JSONLib := {
  json_Unmarshal : string -> option (list string)
}.

Definition ParseEnvSubs (envVal : string) : list string :=
  let parts := Strings.SplitByte "," envVal in
  fold_left (fun out p =>
               let p := Strings.TrimSpace p in
               if negb (String.eqb p "") then (out ++ [p])%list else out)
            parts [].

(** The variables the closure [add] of [MergeEnvAndSaved] captures. *)
Record merged := { seen : gmap string bool; out : list string }.

(** The closure [add]. *)
Definition add (st : merged) (u : string) : merged :=
  let u := Strings.TrimSpace u in
  if String.eqb u "" || map_get (seen st) u then st
  else {| seen := <[u := true]> (seen st); out := (out st ++ [u])%list |}.

Section Subscriptions.
Context {json : JSONLib}.

Definition LoadStoredSubs : IO (list string) :=
  d ← os_ReadFile singboxSubsFile;
  match d with
  | Err _ => mret []
  | Ok data =>
      match json_Unmarshal data with
      | None => mret []
      | Some subs => mret subs
      end
  end.

Definition MergeEnvAndSaved (envVal : string) : IO (list string) :=
  fun w =>
  let st := {| seen := ∅; out := [] |} in
  let st := fold_left add (ParseEnvSubs envVal) st in
  let '(w1, stored) := LoadStoredSubs w in
  let st := fold_left add stored st in
  (w1, out st).

End Subscriptions.

(** ** Notions used in the statements *)

(** The first option of a RAW conversion that is outside its domain, in
    the order the code checks them: bitness in {8, 16}, compression in
    [0, 9], color space in {sRGB, AdobeRGB, ProPhoto}, white balance in
    {camera, auto, manual}. *)
Definition offending_field (o : ARWProcessOptions) : option string :=
  if negb ((Bitness o =? 8) || (Bitness o =? 16)) then Some "bitness"
  else if (Compression o <? 0) || (Compression o >? 9) then Some "compression"
  else if negb (bool_decide (ColorSpace o ∈ ["sRGB"; "AdobeRGB"; "ProPhoto"]))
    then Some "colorspace"
  else if negb (bool_decide (WhiteBalance o ∈ ["camera"; "auto"; "manual"]))
    then Some "whitebalance"
  else None.

(** The default RAW options with the temporary directory [dir] and the
    [KeepTemp] flag [keep]. *)
Definition raw_options (dir : string) (keep : bool) : ARWProcessOptions :=
  {| Bitness := 16; Compression := 6; ColorSpace := "sRGB"; WhiteBalance := "camera";
     Exposure := S754_zero false; Contrast := S754_zero false; Saturation := S754_zero false;
     arwTempDir := dir; KeepTemp := keep |}.

(** The same with a bit depth of 10. *)
Definition bitness10_options (dir : string) (keep : bool) : ARWProcessOptions :=
  {| Bitness := 10; Compression := 6; ColorSpace := "sRGB"; WhiteBalance := "camera";
     Exposure := S754_zero false; Contrast := S754_zero false; Saturation := S754_zero false;
     arwTempDir := dir; KeepTemp := keep |}.

(** Encoder options asking for GIF output. *)
Definition gif_options : ProcessImageOptions :=
  {| MaxSizeBytes := 0; MaxWidth := 0; MaxHeight := 0; Quality := 0;
     OutputFormat := "gif"; TempDir := "" |}.

(** Encoder options with a byte budget and PNG output. *)
Definition budget_options (budget : Z) : ProcessImageOptions :=
  {| MaxSizeBytes := budget; MaxWidth := 0; MaxHeight := 0; Quality := 0;
     OutputFormat := "png"; TempDir := "" |}.





(** A path of 405 bytes that [filepath.Clean] shortens to a.png. *)
Definition dotted_path : string := Strings.Repeat "./" 200 ++ "a.png".


(** Encoder options asking for JPEG output, in capitals. *)
Definition jpeg_options : ProcessImageOptions :=
  {| MaxSizeBytes := 0; MaxWidth := 0; MaxHeight := 0; Quality := 0;
     OutputFormat := "JPEG"; TempDir := "" |}.

(** A path element [filepath.Clean] keeps as a name: not empty, not a dot,
    not two dots, without separator. *)
Definition plain_element (el : string) : Prop :=
  el <> "" /\ el <> "." /\ el <> ".." /\ ~ In "/"%char (list_ascii_of_string el).

(** The elements kept while cleaning (latest first): names above the
    leading [..] elements, which only a relative path has. *)
Definition kept_shape (rooted : bool) (kept : list string) : Prop :=
  exists names dotdots,
    kept = (names ++ dotdots)%list /\
    Forall plain_element names /\
    Forall (eq "..") dotdots /\
    (rooted = true -> dotdots = []).

(** The text starts with a white-space character. *)
Definition startsSpace (s : string) : bool :=
  match s with
  | EmptyString => false
  | String a s1 =>
      Unicode.isSpace (String a "") ||
      match s1 with
      | EmptyString => false
      | String b s2 =>
          Unicode.isSpace (String a (String b "")) ||
          match s2 with
          | EmptyString => false
          | String c _ => Unicode.isSpace (String a (String b (String c "")))
          end
      end
  end.

(** An entry as [ParseEnvSubs] returns them: not empty, without white
    space at its ends, without comma. *)
Definition entry (u : string) : Prop :=
  u <> "" /\ Strings.TrimSpace u = u /\ ~ In ","%char (list_ascii_of_string u).

(** What [add] keeps between calls: [seen] holds the entries of [out],
    which are distinct. *)
Definition merged_ok (st : merged) : Prop :=
  List.NoDup (out st) /\ forall u, map_get (seen st) u = true <-> In u (out st).

(** ** Stand-in library and worlds for concrete runs *)

(** An [ImageLib] whose images are their dimensions.  It decodes the two
    names below, encodes an image to eight bytes and one more for every
    100000 pixels, and resizes to the requested size, giving the empty
    image when a requested dimension is not positive. *)
Module DimLib.

Definition decode (data : string) : option (Z * Z) :=
  if String.eqb data "raster 4000x3000" then Some (4000, 3000)
  else if String.eqb data "raster 2x2" then Some (2, 2)
  else None.

Fixpoint fill (n : nat) : string :=
  match n with O => "" | S k => String "x" (fill k) end.

Definition encode (img : Z * Z) : option string :=
  Some (fill (Z.to_nat (img.1 * img.2 / 100000 + 8))).

Definition resize (img : Z * Z) (w h : Z) : Z * Z :=
  if (0 <? w) && (0 <? h) then (w, h) else (0, 0).

#[local] Instance lib : ImageLib :=
  {| Image := Z * Z; Dx := fst; Dy := snd;
     imaging_Decode := decode; png_Decode := fun _ => None; jpeg_Decode := fun _ => None;
     jpeg_Encode := fun img _ => encode img; png_Encode := encode;
     imaging_Resize := resize |}.

Definition image (w h : Z) : @Image lib := (w, h).

End DimLib.

(** The same with the libraries' treatment of images without pixels:
    [imaging.Resize] gives the empty image when a requested dimension is
    negative, when both are 0 and when the source is empty, and keeps the
    aspect ratio (in exact arithmetic here) when one of them is 0;
    [png.Encode] refuses an image without pixels. *)
Module StrictLib.

Definition resize (img : Z * Z) (w h : Z) : Z * Z :=
  if (w <? 0) || (h <? 0) then (0, 0)
  else if (w =? 0) && (h =? 0) then (0, 0)
  else if (img.1 <=? 0) || (img.2 <=? 0) then (0, 0)
  else
    let w := if w =? 0 then Z.max 1 ((2 * h * img.1 + img.2) / (2 * img.2)) else w in
    let h := if h =? 0 then Z.max 1 ((2 * w * img.2 + img.1) / (2 * img.1)) else h in
    (w, h).

Definition png_encode (img : Z * Z) : option string :=
  if (img.1 <=? 0) || (img.2 <=? 0) then None else DimLib.encode img.

#[local] Instance lib : ImageLib :=
  {| Image := Z * Z; Dx := fst; Dy := snd;
     imaging_Decode := DimLib.decode; png_Decode := fun _ => None;
     jpeg_Decode := fun _ => None;
     jpeg_Encode := fun img _ => DimLib.encode img; png_Encode := png_encode;
     imaging_Resize := resize |}.

Definition image (w h : Z) : @Image lib := (w, h).

End StrictLib.

(** A world with a RAW file and a PNG file in the working directory, the
    converter on the PATH, [/tmp] as the system's temporary directory, the
    creation mask 022 and a converter that writes its output file (its
    second argument). *)
Definition demo_behaviour (p : Process) (fs : gmap string File) : gmap string File * run_status :=
  match proc_args p with
  | _ :: out :: _ => (<[out := {| f_mode := 384; f_data := "PNGDATA" |}]> fs, Exited0)
  | _ => (fs, ExitedNonzero)
  end.

Definition demo_world : World :=
  {| files := <["photo.arw" := {| f_mode := 420; f_data := "II*.SONY ARW" |}]>
              (<["photo.png" := {| f_mode := 420; f_data := "raster 2x2" |}]> ∅);
     locked := ∅;
     unwritable := ∅;
     umask := 18;
     lookpath := {["darktable-cli"]};
     tempdir := "/tmp";
     randoms := ["r1"; "r2"];
     spawned := [];
     behaviour := demo_behaviour |}.

(** The same on a machine without the converter. *)
Definition bare_world : World :=
  {| files := files demo_world;
     locked := ∅;
     unwritable := ∅;
     umask := 18;
     lookpath := ∅;
     tempdir := "/tmp";
     randoms := ["r1"; "r2"];
     spawned := [];
     behaviour := demo_behaviour |}.


(** A decoder that accepts no text: every stored file counts as
    malformed. *)
#[local] Instance no_json : JSONLib := {| json_Unmarshal := fun _ => None |}.

(** * Properties *)

(** ** The model on concrete inputs *)

Example Clean_examples :
  map Filepath.Clean ["a/../../etc/passwd"; "a//b/./c/"; "/a/../.."; "../../a/../b"; ""; "a/.."]
  = ["../etc/passwd"; "a/b/c"; "/"; "../../b"; "."; "."].
Proof. reflexivity. Qed.

Example Ext_examples :
  map Filepath.Ext ["photo.PNG"; "x.tar.gz"; "a.b/c"; "noext"]
  = [".PNG"; ".gz"; ""; ""].
Proof. reflexivity. Qed.

(** [strings.ToLower] follows Unicode: the capital I with a dot above
    (U+0130) and the Kelvin sign (U+212A) become i and k, the capital sharp
    s (U+1E9E) becomes the small one, a Deseret capital (U+10400) its small
    letter, and a byte that is no UTF-8 is replaced by U+FFFD. *)
Example ToLower_examples :
  Strings.ToLower "Photo.TIFF" = "photo.tiff" /\
  Strings.ToLower (Unicode.EncodeRune 304) = "i" /\
  Strings.ToLower (Unicode.EncodeRune 8490) = "k" /\
  Strings.ToLower (Unicode.EncodeRune 7838) = Unicode.EncodeRune 223 /\
  Strings.ToLower (Unicode.EncodeRune 66560) = Unicode.EncodeRune 66600 /\
  Strings.ToLower (String "255" "A") = Unicode.EncodeRune 65533 ++ "a".
Proof. repeat split; vm_compute; reflexivity. Qed.

(** [Duration.String] on the timeouts a configuration may hold. *)
Example Duration_String_examples :
  map Time.Duration_String
    [ 0; 1; 1500; 250 * Time.Millisecond; 30 * Time.Second; 90 * Time.Second;
      1500 * Time.Millisecond; 3600 * Time.Second; - (5 * Time.Second) ]
  = [ "0s"; "1ns"; "1.5" ++ Unicode.EncodeRune 181 ++ "s"; "250ms"; "30s"; "1m30s";
      "1.5s"; "1h0m0s"; "-5s" ].
Proof. vm_compute. reflexivity. Qed.

Example validateCommandName_examples :
  validateCommandName "darktable-cli; rm -rf /" (DefaultSecurityConfig "/tmp")
  = Some (Errorf "command not allowed: darktable-cli; rm -rf /") /\
  validateCommandName "darktable-cli" (DefaultSecurityConfig "/tmp") = None.
Proof. split; reflexivity. Qed.

(** The constants are the binary64 numbers nearest to the decimal ones:
    0.6 is 0x1.3333333333333p-1 and 0.8 is 0x1.999999999999ap-1. *)
Example constants_bits :
  F64.c0_6 = S754_finite false 5404319552844595 (-53) /\
  F64.c0_8 = S754_finite false 7205759403792794 (-53) /\
  F64.c0_1 = S754_finite false 7205759403792794 (-56) /\
  F64.c1_0 = S754_finite false 4503599627370496 (-52).
Proof. repeat split. Qed.

(** The first two rounds of the loop on a raster of 4000 by 3000 pixels:
    target factors 0.6 and 0.6 * 0.8 * 0.6, the second height being
    truncated from a product just below 864. *)
Example rounds_4000_3000 :
  let t1 := F64.mul F64.c1_0 F64.c0_6 in
  let t2 := F64.mul (F64.mul t1 F64.c0_8) F64.c0_6 in
  F64.to_int (F64.mul (F64.of_int 4000) t1) = Some 2400 /\
  F64.to_int (F64.mul (F64.of_int 3000) t1) = Some 1800 /\
  F64.to_int (F64.mul (F64.of_int 4000) t2) = Some 1152 /\
  F64.to_int (F64.mul (F64.of_int 3000) t2) = Some 863.
Proof. repeat split; vm_compute; reflexivity. Qed.

(** ** Command execution *)

Lemma ContainsAny_spec (s : string) (class : list ascii) :
  Strings.ContainsAny s class = true <->
  exists a, In a (list_ascii_of_string s) /\ In a class.
Proof.
  induction s as [|c s IH]; simpl.
  - split; [discriminate | intros (a & [] & _)].
  - rewrite orb_true_iff, IH, existsb_exists. split.
    + intros [(x & Hx & Heq) | (a & Ha & Hc)].
      * apply Ascii.eqb_eq in Heq. subst x. exists c. auto.
      * exists a. auto.
    + intros (a & [-> | Ha] & Hc).
      * left. exists a. split; [assumption | apply Ascii.eqb_refl].
      * right. exists a. auto.
Qed.

Lemma validateCommandName_None (cmdName : string) (config : SecurityConfig) :
  validateCommandName cmdName config = None <->
  map_get (AllowedCommands config) cmdName = true /\ dangerousCommandChars cmdName = false.
Proof.
  unfold validateCommandName.
  destruct (map_get (AllowedCommands config) cmdName); simpl;
    destruct (dangerousCommandChars cmdName); simpl; intuition congruence.
Qed.

Lemma map_get_true (m : gmap string bool) (k : string) :
  map_get m k = true <-> m !! k = Some true.
Proof.
  unfold map_get. destruct (m !! k) as [[]|]; simpl; intuition congruence.
Qed.

Lemma cmd_Run_spawned name args dir timeout w :
  spawned (cmd_Run name args dir timeout w).1 = spawned w \/
  spawned (cmd_Run name args dir timeout w).1
  = {| proc_name := name; proc_args := args; proc_dir := dir |} :: spawned w.
Proof.
  unfold cmd_Run. destruct (decide (name ∈ lookpath w)); [|left; reflexivity].
  destruct (timeout <=? 0); [left; reflexivity|].
  destruct (behaviour w _ (files w)) as [fs st]. right. destruct st; reflexivity.
Qed.

Lemma safeExecuteCommand_spawned cmdName args config w :
  spawned (safeExecuteCommand cmdName args config w).1 = spawned w \/
  (validateCommandName cmdName config = None /\
   validateCommandArgs args = None /\
   spawned (safeExecuteCommand cmdName args config w).1
   = {| proc_name := cmdName; proc_args := args; proc_dir := AllowedTempDir config |}
       :: spawned w).
Proof.
  unfold safeExecuteCommand.
  destruct (validateCommandName cmdName config) eqn:Hn; [left; reflexivity|].
  destruct (validateCommandArgs args) eqn:Ha; [left; reflexivity|].
  unfold mbind, IO_bind.
  pose proof (cmd_Run_spawned cmdName args (AllowedTempDir config) (CommandTimeout config) w)
    as H.
  destruct (cmd_Run cmdName args (AllowedTempDir config) (CommandTimeout config) w)
    as [w' [r deadline]]. cbn [fst] in H.
  destruct r as [err|]; [destruct deadline|]; cbn [mret IO_ret fst];
    (destruct H as [H|H]; [left | right]; auto).
Qed.

(** C1.  No process is started unless the command name passed
    [validateCommandName]: whenever [safeExecuteCommand] adds a process to
    those started, the name is mapped to [true] by the policy's
    [AllowedCommands], holds no shell metacharacter, and the process is
    the one named; and [validateCommandName] returns an error for every
    name that the allow-list does not map to [true] or that holds a
    character of the metacharacter class. *)
Theorem safeExecuteCommand_only_allowed (config : SecurityConfig) :
  (forall name : string,
      AllowedCommands config !! name <> Some true \/
      (exists a, In a (list_ascii_of_string name) /\ In a dangerousCommandClass) ->
      exists err, validateCommandName name config = Some err) /\
  (forall (cmdName : string) (args : list string) (w : World),
      spawned (safeExecuteCommand cmdName args config w).1 <> spawned w ->
      validateCommandName cmdName config = None /\
      AllowedCommands config !! cmdName = Some true /\
      dangerousCommandChars cmdName = false /\
      spawned (safeExecuteCommand cmdName args config w).1
      = {| proc_name := cmdName; proc_args := args; proc_dir := AllowedTempDir config |}
          :: spawned w).
Proof.
  split.
  - intros name H.
    destruct (validateCommandName name config) as [err|] eqn:Hv; [eauto|].
    apply validateCommandName_None in Hv. destruct Hv as [Hal Hd].
    apply map_get_true in Hal. destruct H as [H|H]; [contradiction|].
    apply (ContainsAny_spec name dangerousCommandClass) in H.
    unfold dangerousCommandChars in Hd. congruence.
  - intros cmdName args w Hneq.
    destruct (safeExecuteCommand_spawned cmdName args config w) as [H|(Hn & _ & Hs)];
      [contradiction|].
    pose proof Hn as Hn'. apply validateCommandName_None in Hn'. destruct Hn' as [Hal Hd].
    apply map_get_true in Hal. auto.
Qed.

Lemma safeExecuteCommand_only_allowed_witness :
  (exists err, validateCommandName "darktable-cli; rm -rf /" (DefaultSecurityConfig "/tmp")
               = Some err) /\
  validateCommandName "darktable-cli" (DefaultSecurityConfig "/tmp") = None.
Proof.
  destruct (safeExecuteCommand_only_allowed (DefaultSecurityConfig "/tmp")) as [H1 H2].
  split.
  - apply H1. right. exists ";"%char. split; vm_compute; tauto.
  - apply (H2 "darktable-cli" ["photo.arw"] demo_world). vm_compute. discriminate.
Defined.

(** ** Path validation *)

Lemma HasPrefix_empty (s : string) : Strings.HasPrefix s "" = true.
Proof. destruct s; reflexivity. Qed.

Lemma Clean_IsAbs (p : string) :
  Filepath.IsAbs p = true -> Filepath.IsAbs (Filepath.Clean p) = true.
Proof.
  unfold Filepath.IsAbs, Filepath.Clean. intros H.
  destruct p as [|a p]; [discriminate|].
  change (String a p =? "")%string with false. cbv iota.
  rewrite H. simpl. apply HasPrefix_empty.
Qed.

Lemma validateFilePath_Ok (p c : string) (config : SecurityConfig) :
  validateFilePath p config = Ok c <->
  c = Filepath.Clean p /\
  Strings.Contains c ".." = false /\
  Filepath.IsAbs c = false /\
  dangerousPathChars c = false /\
  Strings.len c <= 260.
Proof.
  unfold validateFilePath.
  destruct (Strings.Contains (Filepath.Clean p) "..") eqn:H1.
  { split; [discriminate | intros (-> & ? & _); congruence]. }
  destruct (Filepath.IsAbs (Filepath.Clean p)) eqn:H2.
  { split; [discriminate | intros (-> & _ & ? & _); congruence]. }
  destruct (dangerousPathChars (Filepath.Clean p)) eqn:H3.
  { split; [discriminate | intros (-> & _ & _ & ? & _); congruence]. }
  destruct (Strings.len (Filepath.Clean p) >? 260) eqn:H4.
  { split; [discriminate | intros (-> & _ & _ & _ & ?); lia]. }
  split.
  - intros [= <-]. repeat split; auto. lia.
  - intros (-> & _). reflexivity.
Qed.

(** C8 (amended).  [validateFilePath] cleans its input and then returns an
    error when the cleaned path contains two consecutive dots, when the
    path is absolute, when the cleaned path matches the traversal pattern
    (two dots and a separator) and when the cleaned path is longer than 260
    bytes; an accepted path is returned cleaned.  The path
    a/../../etc/passwd is rejected, and the entry points report that
    rejection as a [SecurityError] of type path_validation;
    images/photo.png is accepted and returned as it is, being clean
    already. *)
Theorem validateFilePath_rejects (p : string) (config : SecurityConfig) :
  (Strings.Contains (Filepath.Clean p) ".." = true ->
   validateFilePath p config = Err (Errorf ("path traversal detected: " ++ p))) /\
  (Filepath.IsAbs p = true -> exists err, validateFilePath p config = Err err) /\
  (dangerousPathChars (Filepath.Clean p) = true ->
   exists err, validateFilePath p config = Err err) /\
  (Strings.len (Filepath.Clean p) > 260 -> exists err, validateFilePath p config = Err err) /\
  (forall c, validateFilePath p config = Ok c -> c = Filepath.Clean p) /\
  validateFilePath "a/../../etc/passwd" config
  = Err (Errorf "path traversal detected: a/../../etc/passwd") /\
  (forall (opts : ARWProcessOptions) (w : World),
      ProcessARWToPNG "a/../../etc/passwd" opts w
      = (w, Err (SecurityError "path_validation" "invalid ARW file path"
                   (Some (Errorf "path traversal detected: a/../../etc/passwd"))))) /\
  validateFilePath "images/photo.png" config = Ok "images/photo.png" /\
  Filepath.Clean "images/photo.png" = "images/photo.png".
Proof.
  assert (Hrej : forall q, (forall c, validateFilePath q config <> Ok c) ->
                           exists err, validateFilePath q config = Err err).
  { intros q H. destruct (validateFilePath q config) as [c|err]; [|eauto].
    contradiction (H c). reflexivity. }
  repeat split.
  - intros H. unfold validateFilePath. rewrite H. reflexivity.
  - intros H. apply Hrej. intros c Hc. apply validateFilePath_Ok in Hc.
    destruct Hc as (-> & _ & Habs & _). apply Clean_IsAbs in H. congruence.
  - intros H. apply Hrej. intros c Hc. apply validateFilePath_Ok in Hc.
    destruct Hc as (-> & _ & _ & Hd & _). congruence.
  - intros H. apply Hrej. intros c Hc. apply validateFilePath_Ok in Hc.
    destruct Hc as (-> & _ & _ & _ & Hl). lia.
  - intros c Hc. apply validateFilePath_Ok in Hc. tauto.
Qed.

Lemma validateFilePath_rejects_witness :
  exists err, validateFilePath "/etc/passwd" (DefaultSecurityConfig "/tmp") = Err err.
Proof.
  destruct (validateFilePath_rejects "/etc/passwd" (DefaultSecurityConfig "/tmp"))
    as (_ & H & _).
  apply H. reflexivity.
Defined.

(** C8, as stated, fails.  The pattern and the length are tested on the
    cleaned path, not on the path given: a/../b.png contains the traversal
    pattern and is accepted as b.png, and a path of 405 bytes, ./ two
    hundred times and then a.png, is accepted as a.png. *)
Lemma validateFilePath_cleaned_counterexample :
  dangerousPathChars "a/../b.png" = true /\
  validateFilePath "a/../b.png" (DefaultSecurityConfig "/tmp") = Ok "b.png" /\
  Strings.len dotted_path = 405 /\
  validateFilePath dotted_path (DefaultSecurityConfig "/tmp") = Ok "a.png".
Proof. repeat split; vm_compute; reflexivity. Qed.

(** ** Temporary files *)

Lemma secureCleanup_keep (path : string) (w : World) :
  secureCleanup path true w = (w, None).
Proof. reflexivity. Qed.

Lemma secureCleanup_absent (path : string) (w : World) :
  files w !! path = None -> secureCleanup path false w = (w, None).
Proof.
  intros H. unfold secureCleanup, mbind, IO_bind, os_Remove. rewrite H. reflexivity.
Qed.

Lemma secureCleanup_present (path : string) (w : World) :
  (path ∉ locked w) -> is_Some (files w !! path) ->
  secureCleanup path false w = (set_files (delete path (files w)) w, None).
Proof.
  intros Hl [f Hf]. unfold secureCleanup, mbind, IO_bind, os_Remove. rewrite Hf.
  destruct (decide (path ∈ locked w)); [contradiction | reflexivity].
Qed.

Lemma secureCreateTempFile_Ok (pattern : string) (config : SecurityConfig)
    (w w1 : World) (path : string) :
  secureCreateTempFile pattern config w = (w1, Ok path) ->
  files w !! path = None /\
  files w1 = <[path := {| f_mode := 384; f_data := "" |}]> (files w) /\
  (path ∉ locked w1) /\ locked w1 = locked w /\ spawned w1 = spawned w /\
  lookpath w1 = lookpath w /\ tempdir w1 = tempdir w /\ behaviour w1 = behaviour w.
Proof.
  unfold secureCreateTempFile, mbind, IO_bind, os_CreateTemp.
  destruct (prefixAndSuffix pattern) as [[prefix suffix]|e]; [|discriminate].
  set (dir := if (AllowedTempDir config =? "")%string then tempdir w else AllowedTempDir config).
  destruct (fresh_name (files w) (joinPath dir prefix) suffix (randoms w))
    as [[name rs]|] eqn:Hf; [|discriminate].
  assert (Hfresh : files w !! name = None).
  { clear -Hf. revert Hf. generalize (randoms w) as l.
    induction l as [|r l IH]; simpl; [discriminate|].
    destruct (files w !! (joinPath dir prefix ++ r ++ suffix)) eqn:E; [exact IH|].
    intros [= <- _]. exact E. }
  unfold file_Chmod. simpl. rewrite lookup_insert_eq.
  destruct (decide (name ∈ locked w)) as [Hin|Hnin].
  - unfold os_Remove. simpl. rewrite lookup_insert_eq.
    destruct (decide (name ∈ locked w)); discriminate.
  - intros [= <- <-]. simpl. rewrite insert_insert_eq. auto 10.
Qed.

(** C9.  Releasing a temporary file is idempotent and accepts that the
    file is gone.  With [keepTemp] set, [secureCleanup] changes nothing and
    returns no error.  With [keepTemp] unset and a path the system lets be
    removed, it returns no error, the file is absent afterwards, and a
    second release returns no error and changes nothing; on an absent file
    it returns no error.  A file made by [secureCreateTempFile] is new, has
    mode 0600 (384) from its creation, can be removed, keeps that mode when
    released with [keepTemp] set and is absent after a release without. *)
Theorem secureCleanup_idempotent (path : string) (w : World) :
  (path ∉ locked w) ->
  secureCleanup path true w = (w, None) /\
  (exists w1,
      secureCleanup path false w = (w1, None) /\
      files w1 !! path = None /\
      secureCleanup path false w1 = (w1, None)) /\
  (files w !! path = None -> secureCleanup path false w = (w, None)) /\
  (forall pattern config w0,
      secureCreateTempFile pattern config w0 = (w, Ok path) ->
      files w0 !! path = None /\
      files w !! path = Some {| f_mode := 384; f_data := "" |} /\
      files (secureCleanup path true w).1 !! path = Some {| f_mode := 384; f_data := "" |} /\
      files (secureCleanup path false w).1 = files w0).
Proof.
  intros Hl. split; [reflexivity|]. split; [|split].
  - destruct (files w !! path) as [f|] eqn:Hf.
    + exists (set_files (delete path (files w)) w).
      rewrite secureCleanup_present by eauto.
      split; [reflexivity|]. split; [apply lookup_delete_eq|].
      apply secureCleanup_absent. apply lookup_delete_eq.
    + exists w. rewrite secureCleanup_absent by assumption. auto.
  - apply secureCleanup_absent.
  - intros pattern config w0 H.
    apply secureCreateTempFile_Ok in H. destruct H as (Hnew & Hfs & _).
    split; [assumption|]. split; [rewrite Hfs; apply lookup_insert_eq|].
    split; [simpl; rewrite Hfs; apply lookup_insert_eq|].
    rewrite secureCleanup_present; [|assumption|rewrite Hfs, lookup_insert_eq; eauto].
    simpl. rewrite Hfs, delete_insert_eq. apply delete_id. assumption.
Qed.

Lemma secureCleanup_idempotent_witness :
  exists w1,
    secureCleanup "photo.png" false demo_world = (w1, None) /\
    files w1 !! "photo.png" = None /\
    secureCleanup "photo.png" false w1 = (w1, None).
Proof.
  apply (secureCleanup_idempotent "photo.png" demo_world). vm_compute. set_solver.
Defined.

(** ** RAW conversion *)

Lemma colorSpaceMap_None (cs : string) :
  colorSpaceMap !! cs = None <-> cs ∉ ["sRGB"; "AdobeRGB"; "ProPhoto"].
Proof.
  unfold colorSpaceMap. rewrite !lookup_insert_None, !not_elem_of_cons.
  split.
  - intros [[[_ H1] H2] H3].
    repeat split; try congruence; try apply not_elem_of_nil.
  - intros (H1 & H2 & H3 & _).
    repeat split; try congruence; try apply lookup_empty.
Qed.

Lemma wbMap_None (wb : string) :
  wbMap !! wb = None <-> wb ∉ ["camera"; "auto"; "manual"].
Proof.
  unfold wbMap. rewrite !lookup_insert_None, !not_elem_of_cons.
  split.
  - intros [[[_ H1] H2] H3].
    repeat split; try congruence; try apply not_elem_of_nil.
  - intros (H1 & H2 & H3 & _).
    repeat split; try congruence; try apply lookup_empty.
Qed.

Lemma buildDarktableArgs_offending (tmp inputPath outputPath : string)
    (options : ARWProcessOptions) (field : string) :
  is_ok (validateFilePath inputPath (DefaultSecurityConfig tmp)) = true ->
  is_ok (validateFilePath outputPath (DefaultSecurityConfig tmp)) = true ->
  offending_field options = Some field ->
  exists value reason,
    buildDarktableArgs tmp inputPath outputPath options
    = Err (InputValidationError field value reason).
Proof.
  unfold buildDarktableArgs, offending_field. intros Hi Ho.
  destruct (validateFilePath inputPath _); [|discriminate].
  destruct (validateFilePath outputPath _); [|discriminate].
  assert (Hcs : bool_decide (ColorSpace options ∈ ["sRGB"; "AdobeRGB"; "ProPhoto"])
                = bool_decide (is_Some (colorSpaceMap !! ColorSpace options))).
  { apply bool_decide_ext. rewrite <- not_eq_None_Some, colorSpaceMap_None.
    split; [auto | apply dec_stable]. }
  assert (Hwb : bool_decide (WhiteBalance options ∈ ["camera"; "auto"; "manual"])
                = bool_decide (is_Some (wbMap !! WhiteBalance options))).
  { apply bool_decide_ext. rewrite <- not_eq_None_Some, wbMap_None.
    split; [auto | apply dec_stable]. }
  rewrite Hcs, Hwb. clear Hcs Hwb.
  destruct (negb ((Bitness options =? 8) || (Bitness options =? 16))) eqn:Hb.
  { intros [= <-].
    destruct (Bitness options =? 8), (Bitness options =? 16); try discriminate.
    simpl. eauto. }
  replace (negb (Bitness options =? 8) && negb (Bitness options =? 16)) with false
    by (destruct (Bitness options =? 8), (Bitness options =? 16); easy).
  destruct ((Compression options <? 0) || (Compression options >? 9)).
  { intros [= <-]. eauto. }
  destruct (colorSpaceMap !! ColorSpace options) as [cid|].
  2:{ rewrite bool_decide_false by (intros [? ?]; discriminate). intros [= <-]. eauto. }
  rewrite bool_decide_true by eauto.
  destruct (wbMap !! WhiteBalance options) as [wid|].
  2:{ rewrite bool_decide_false by (intros [? ?]; discriminate). intros [= <-]. eauto. }
  rewrite bool_decide_true by eauto. discriminate.
Qed.

Lemma buildDarktableArgs_offending_Err (tmp inputPath outputPath : string)
    (options : ARWProcessOptions) (field : string) :
  offending_field options = Some field ->
  exists err, buildDarktableArgs tmp inputPath outputPath options = Err err.
Proof.
  intros H. unfold buildDarktableArgs.
  destruct (validateFilePath inputPath _) eqn:Hi; [|eauto].
  destruct (validateFilePath outputPath _) eqn:Ho; [|eauto].
  destruct (buildDarktableArgs_offending tmp inputPath outputPath options field)
    as (v & r & E); auto; try (rewrite ?Hi, ?Ho; reflexivity).
  unfold buildDarktableArgs in E. rewrite Hi, Ho in E. eauto.
Qed.

Lemma safeExecuteDarktableCommand_offending (inputPath outputPath : string)
    (options : ARWProcessOptions) (field : string) (w : World) :
  offending_field options = Some field ->
  exists err,
    safeExecuteDarktableCommand inputPath outputPath options w
    = (w, Some (Wrapf "failed to build command args" err)) /\
    buildDarktableArgs (tempdir w) inputPath outputPath options = Err err.
Proof.
  intros H. unfold safeExecuteDarktableCommand.
  destruct (buildDarktableArgs_offending_Err (tempdir w) inputPath outputPath options field H)
    as (err & E).
  rewrite E. eauto.
Qed.

Lemma validateFileSize_world (path : string) (maxSize : Z) (w : World) :
  (validateFileSize path maxSize w).1 = w.
Proof.
  unfold validateFileSize, mbind, IO_bind, os_Stat.
  destruct (files w !! path); [|reflexivity].
  destruct (file_Size _ >? maxSize); reflexivity.
Qed.

Lemma secureCreateTempFile_spawned (pattern : string) (config : SecurityConfig) (w : World) :
  spawned (secureCreateTempFile pattern config w).1 = spawned w.
Proof.
  destruct (secureCreateTempFile pattern config w) as [w1 [path|err]] eqn:E.
  - apply secureCreateTempFile_Ok in E. simpl. tauto.
  - revert E. unfold secureCreateTempFile, mbind, IO_bind, os_CreateTemp.
    destruct (prefixAndSuffix pattern) as [[prefix suffix]|e]; [|intros [= <- _]; reflexivity].
    destruct (fresh_name _ _ _ _) as [[name rs]|]; [|intros [= <- _]; reflexivity].
    unfold file_Chmod, os_Remove. simpl. rewrite lookup_insert_eq.
    destruct (decide (name ∈ locked w)); simpl.
    + rewrite lookup_insert_eq. destruct (decide (name ∈ locked w)); [|contradiction].
      intros [= <- _]. reflexivity.
    + discriminate.
Qed.

Lemma secureCleanup_spawned (path : string) (keep : bool) (w : World) :
  spawned (secureCleanup path keep w).1 = spawned w.
Proof.
  unfold secureCleanup, mbind, IO_bind, os_Remove. destruct keep; [reflexivity|].
  destruct (files w !! path); [|reflexivity].
  destruct (decide (path ∈ locked w)); reflexivity.
Qed.

Lemma ProcessARWToPNG_spawned_invalid (arwPath : string) (options : ARWProcessOptions)
    (w : World) (field : string) :
  offending_field options = Some field ->
  spawned (ProcessARWToPNG arwPath options w).1 = spawned w.
Proof.
  intros Hoff. unfold ProcessARWToPNG.
  destruct (validateFilePath arwPath _) as [cleanPath|]; [|reflexivity].
  destruct (validateFileExtension cleanPath); [reflexivity|].
  unfold mbind, IO_bind.
  pose proof (validateFileSize_world cleanPath MaxFileSize w) as Hw.
  destruct (validateFileSize cleanPath MaxFileSize w) as [wa e]. simpl in Hw. subst wa.
  destruct e; [reflexivity|].
  unfold os_Stat at 1.
  destruct (match files w !! cleanPath with
            | Some f => Ok f | None => Err ErrNotExist end) as [f|e];
    [|destruct (os_IsNotExist e); [reflexivity|]].
  all: unfold isDarktableAvailable;
    destruct (bool_decide ("darktable-cli" ∈ lookpath w) && _); [|reflexivity]; simpl;
    pose proof (secureCreateTempFile_spawned "arw_output_*.png"
                  (arwConfig (tempdir w) options) w) as Hs;
    destruct (secureCreateTempFile "arw_output_*.png" (arwConfig (tempdir w) options) w)
      as [w1 [tmp|err]]; simpl in Hs; [|assumption];
    destruct (safeExecuteDarktableCommand_offending cleanPath tmp options field w1 Hoff)
      as (err & -> & _);
    unfold mret, IO_ret;
    pose proof (secureCleanup_spawned tmp (KeepTemp options) w1) as Hc;
    destruct (secureCleanup tmp (KeepTemp options) w1) as [w2 e2];
    simpl in *; congruence.
Qed.

(** [ProcessARWToPNG] as the chain of its checks. *)
Lemma ProcessARWToPNG_checks (arwPath : string) (options : ARWProcessOptions) (w : World) :
  ProcessARWToPNG arwPath options w
  = match validateFilePath arwPath (arwConfig (tempdir w) options) with
    | Err err => (w, Err (SecurityError "path_validation" "invalid ARW file path" (Some err)))
    | Ok cleanPath =>
    match validateFileExtension cleanPath with
    | Some err =>
        (w, Err (SecurityError "extension_validation" "invalid file extension for ARW"
                   (Some err)))
    | None =>
    match (validateFileSize cleanPath MaxFileSize w).2 with
    | Some err => (w, Err (SecurityError "size_validation" "ARW file too large" (Some err)))
    | None =>
    if bool_decide ("darktable-cli" ∈ lookpath w) then
      match secureCreateTempFile "arw_output_*.png" (arwConfig (tempdir w) options) w with
      | (w1, Err err) => (w1, Err (Wrapf "failed to create secure temp output file" err))
      | (w1, Ok tempOutputPath) =>
          let '(w2, x) := safeExecuteDarktableCommand cleanPath tempOutputPath options w1 in
          ((secureCleanup tempOutputPath (KeepTemp options) w2).1,
           match x with
           | Some err => Err (Wrapf "darktable-cli execution failed" err)
           | None =>
               match files w2 !! tempOutputPath with
               | None => Err (Wrapf "failed to read output PNG file" ErrNotExist)
               | Some g =>
                   if Strings.len (f_data g) >? MaxFileSize
                   then Err (SecurityError "size_validation" "output PNG file too large" None)
                   else Ok (f_data g)
               end
           end)
      end
    else (w, Err (Errorf "darktable-cli is not available. Please install darktable-cli"))
    end end end.
Proof.
  unfold ProcessARWToPNG.
  destruct (validateFilePath arwPath _) as [c|e]; [|reflexivity].
  destruct (validateFileExtension c); [reflexivity|].
  unfold validateFileSize, mbind, IO_bind, os_Stat, mret, IO_ret.
  destruct (files w !! c) as [f|] eqn:Hf; [|reflexivity].
  destruct (file_Size f >? MaxFileSize); cbv beta iota; cbn [snd]; [reflexivity|].
  rewrite Hf. cbv beta iota.
  unfold isDarktableAvailable.
  change (map_get (AllowedCommands (DefaultSecurityConfig (tempdir w))) "darktable-cli")
    with true.
  destruct (bool_decide ("darktable-cli" ∈ lookpath w)); cbn [andb negb]; cbv beta iota;
    [|reflexivity].
  destruct (secureCreateTempFile "arw_output_*.png" (arwConfig (tempdir w) options) w)
    as [w1 [out|err]]; [|reflexivity].
  destruct (safeExecuteDarktableCommand c out options w1) as [w2 x].
  destruct x as [err|].
  - destruct (secureCleanup out (KeepTemp options) w2) as [w3 e3]. reflexivity.
  - unfold os_ReadFile. destruct (files w2 !! out) as [g|].
    + destruct (Strings.len (f_data g) >? MaxFileSize);
        destruct (secureCleanup out (KeepTemp options) w2) as [w3 e3]; reflexivity.
    + destruct (secureCleanup out (KeepTemp options) w2) as [w3 e3]. reflexivity.
Qed.

(** C6 (amended).  When an option of the RAW conversion is outside its
    domain, [ProcessARWToPNG] starts no process, whatever the path and the
    world.  [buildDarktableArgs] checks the two paths first and then the
    options in the order bitness, compression, color space, white balance:
    with both paths accepted it returns an [InputValidationError] whose
    field is the first offending one.  [ProcessARWToPNG] reaches that check
    last, and a check that fails before it decides the result, in this
    order: the path of the input, its extension and its size, each reported
    as a [SecurityError] around the error of the check, with nothing
    changed; the presence of the converter, with nothing changed; the
    creation of the temporary output file, reported around its error; and,
    inside [buildDarktableArgs], the input path and the path of the
    temporary file, each reported as an invalid path.  When all of them
    pass, the error returned wraps the validation error of the offending
    field.  Once the temporary file is created it is new, and it has been
    removed again on return unless [KeepTemp] is set, in which case it
    stays, empty, with mode 0600. *)
Theorem ProcessARWToPNG_invalid_options (arwPath : string) (options : ARWProcessOptions)
    (w : World) (field : string) :
  offending_field options = Some field ->
  let config := arwConfig (tempdir w) options in
  let default := DefaultSecurityConfig (tempdir w) in
  let refused (err : error) :=
    Err (Wrapf "darktable-cli execution failed" (Wrapf "failed to build command args" err)) in
  spawned (ProcessARWToPNG arwPath options w).1 = spawned w /\
  (forall tmp inputPath outputPath : string,
      is_ok (validateFilePath inputPath (DefaultSecurityConfig tmp)) = true ->
      is_ok (validateFilePath outputPath (DefaultSecurityConfig tmp)) = true ->
      exists value reason,
        buildDarktableArgs tmp inputPath outputPath options
        = Err (InputValidationError field value reason)) /\
  (forall value reason,
      as_validation_field
        (Wrapf "darktable-cli execution failed"
           (Wrapf "failed to build command args" (InputValidationError field value reason)))
      = Some field) /\
  (forall err,
      validateFilePath arwPath config = Err err ->
      ProcessARWToPNG arwPath options w
      = (w, Err (SecurityError "path_validation" "invalid ARW file path" (Some err)))) /\
  (forall cleanPath,
      validateFilePath arwPath config = Ok cleanPath ->
      (forall err,
          validateFileExtension cleanPath = Some err ->
          ProcessARWToPNG arwPath options w
          = (w, Err (SecurityError "extension_validation" "invalid file extension for ARW"
                       (Some err)))) /\
      (validateFileExtension cleanPath = None ->
       (forall err,
           (validateFileSize cleanPath MaxFileSize w).2 = Some err ->
           ProcessARWToPNG arwPath options w
           = (w, Err (SecurityError "size_validation" "ARW file too large" (Some err)))) /\
       ((validateFileSize cleanPath MaxFileSize w).2 = None ->
        ("darktable-cli" ∉ lookpath w ->
         ProcessARWToPNG arwPath options w
         = (w, Err (Errorf "darktable-cli is not available. Please install darktable-cli"))) /\
        ("darktable-cli" ∈ lookpath w ->
         forall w1 : World,
           (forall err,
               secureCreateTempFile "arw_output_*.png" config w = (w1, Err err) ->
               ProcessARWToPNG arwPath options w
               = (w1, Err (Wrapf "failed to create secure temp output file" err))) /\
           (forall tempOutputPath,
               secureCreateTempFile "arw_output_*.png" config w = (w1, Ok tempOutputPath) ->
               let cleaned := (secureCleanup tempOutputPath (KeepTemp options) w1).1 in
               files w !! tempOutputPath = None /\
               (forall err,
                   validateFilePath cleanPath default = Err err ->
                   ProcessARWToPNG arwPath options w
                   = (cleaned, refused (SecurityError "path_validation" "invalid input path"
                                          (Some err)))) /\
               (is_ok (validateFilePath cleanPath default) = true ->
                (forall err,
                    validateFilePath tempOutputPath default = Err err ->
                    ProcessARWToPNG arwPath options w
                    = (cleaned, refused (SecurityError "path_validation" "invalid output path"
                                           (Some err)))) /\
                (is_ok (validateFilePath tempOutputPath default) = true ->
                 (exists value reason,
                     ProcessARWToPNG arwPath options w
                     = (cleaned, refused (InputValidationError field value reason))) /\
                 files cleaned !! tempOutputPath
                 = (if KeepTemp options then Some {| f_mode := 384; f_data := "" |}
                    else None)))))))).
Proof.
  intros Hoff config default refused.
  split; [eapply ProcessARWToPNG_spawned_invalid; eassumption|].
  split; [intros; eapply buildDarktableArgs_offending; eassumption|].
  split; [reflexivity|].
  split.
  { intros err Hp. rewrite ProcessARWToPNG_checks. fold config. rewrite Hp. reflexivity. }
  intros cleanPath Hp. split.
  { intros err He. rewrite ProcessARWToPNG_checks. fold config. rewrite Hp, He. reflexivity. }
  intros He. split.
  { intros err Hs. rewrite ProcessARWToPNG_checks. fold config. rewrite Hp, He, Hs.
    reflexivity. }
  intros Hs. split.
  { intros Hdt. rewrite ProcessARWToPNG_checks. fold config. rewrite Hp, He, Hs.
    rewrite bool_decide_false by assumption. reflexivity. }
  intros Hdt w1. split.
  { intros err Ht. rewrite ProcessARWToPNG_checks. fold config. rewrite Hp, He, Hs.
    rewrite bool_decide_true by assumption. rewrite Ht. reflexivity. }
  intros tmp Ht cleaned.
  pose proof Ht as Ht'. apply secureCreateTempFile_Ok in Ht'.
  destruct Ht' as (Hnew & Hfs & Hnl & _ & _ & _ & Htd & _).
  split; [exact Hnew|].
  assert (Hrun : forall err,
             buildDarktableArgs (tempdir w) cleanPath tmp options = Err err ->
             ProcessARWToPNG arwPath options w = (cleaned, refused err)).
  { intros err Hb. rewrite ProcessARWToPNG_checks. fold config. rewrite Hp, He, Hs.
    rewrite bool_decide_true by assumption. rewrite Ht.
    unfold safeExecuteDarktableCommand. rewrite Htd, Hb. reflexivity. }
  split.
  { intros err Hin. apply Hrun. unfold buildDarktableArgs. fold default. rewrite Hin.
    reflexivity. }
  intros Hin. split.
  { intros err Hout. apply Hrun. unfold buildDarktableArgs. fold default.
    destruct (validateFilePath cleanPath default); [|discriminate]. rewrite Hout.
    reflexivity. }
  intros Hout. split.
  { destruct (buildDarktableArgs_offending (tempdir w) cleanPath tmp options field
                Hin Hout Hoff) as (v & r & Hb).
    exists v, r. apply Hrun. exact Hb. }
  subst cleaned. destruct (KeepTemp options) eqn:Hk.
  - rewrite secureCleanup_keep. cbn [fst]. rewrite Hfs. apply lookup_insert_eq.
  - rewrite secureCleanup_present; [|assumption|rewrite Hfs, lookup_insert_eq; eauto].
    cbn [fst files set_files]. apply lookup_delete_eq.
Qed.

Lemma ProcessARWToPNG_invalid_options_witness :
  spawned (ProcessARWToPNG "photo.arw" (bitness10_options "work" false) demo_world).1
  = spawned demo_world.
Proof.
  destruct (ProcessARWToPNG_invalid_options "photo.arw" (bitness10_options "work" false)
              demo_world "bitness" eq_refl) as [H _].
  exact H.
Defined.

(** C6, as stated, fails.  With a bit depth of 10, the temporary directory
    work and [KeepTemp] set, a call whose input passes every check creates
    the temporary output file before the option is rejected and leaves it
    behind.  With an absolute input path the call is rejected for that
    path, and with no temporary directory in the options, so the absolute
    one of the system, for its output path, before the bit depth is looked
    at: in both the error is a [SecurityError] and carries no validation
    error. *)
Lemma ProcessARWToPNG_bitness10_counterexample :
  files demo_world !! "work/arw_output_r1.png" = None /\
  files (ProcessARWToPNG "photo.arw" (bitness10_options "work" true) demo_world).1
    !! "work/arw_output_r1.png" = Some {| f_mode := 384; f_data := "" |} /\
  (ProcessARWToPNG "photo.arw" (bitness10_options "" false) demo_world).2
  = Err (Wrapf "darktable-cli execution failed"
           (Wrapf "failed to build command args"
              (SecurityError "path_validation" "invalid output path"
                 (Some (Errorf "absolute paths not allowed: /tmp/arw_output_r1.png"))))) /\
  (ProcessARWToPNG "/srv/photo.arw" (bitness10_options "work" false) demo_world).2
  = Err (SecurityError "path_validation" "invalid ARW file path"
           (Some (Errorf "absolute paths not allowed: /srv/photo.arw"))) /\
  as_validation_field
    (SecurityError "path_validation" "invalid ARW file path"
       (Some (Errorf "absolute paths not allowed: /srv/photo.arw"))) = None.
Proof. repeat split; vm_compute; reflexivity. Qed.

Lemma ValidateARWFile_None (path : string) (w : World) :
  (ValidateARWFile path w).2 = None ->
  exists c, validateFilePath path (DefaultSecurityConfig (tempdir w)) = Ok c /\
            validateFileExtension c = None /\
            (extractExt c = Some ".arw" \/ extractExt c = Some ".srf"
             \/ extractExt c = Some ".sr2").
Proof.
  unfold ValidateARWFile.
  destruct (validateFilePath path _) as [c|]; [|discriminate].
  destruct (validateFileExtension c) eqn:Hext; [discriminate|].
  unfold validateFileSize, mbind, IO_bind, os_Stat, os_ReadFile, mret, IO_ret.
  destruct (files w !! c) as [f|] eqn:Hf; [|discriminate].
  destruct (file_Size f >? MaxFileSize); [discriminate|]. cbv beta iota.
  rewrite Hf. cbv beta iota.
  destruct (file_Size f =? 0); [discriminate|].
  intros H. exists c. split; [reflexivity|]. split; [assumption|].
  destruct (extractExt c) as [ext|] eqn:Ee; [|discriminate H].
  change (default "" (Some ext)) with ext in H.
  destruct (String.eqb ext ".arw") eqn:E1;
    [apply String.eqb_eq in E1; subst; auto|].
  destruct (String.eqb ext ".srf") eqn:E2;
    [apply String.eqb_eq in E2; subst; auto|].
  destruct (String.eqb ext ".sr2") eqn:E3;
    [apply String.eqb_eq in E3; subst; auto|].
  discriminate H.
Qed.

(** C10.  The extension check of [ProcessARWToPNG] is
    [validateFileExtension], which accepts each of the nine extensions of
    the general list: for photo.png it succeeds, and in a world where the
    file exists and the converter is installed [ProcessARWToPNG] (with the
    temporary directory work) goes on to start the converter on photo.png
    and returns its output.
    [ValidateARWFile] alone narrows the extension to .arw, .srf and .sr2:
    it rejects photo.png in that same world, and whenever it returns no
    error the extension is one of the three. *)
Theorem ProcessARWToPNG_general_extension_check :
  Strings.SplitByte "," AllowedImageExts
  = [".png"; ".jpg"; ".jpeg"; ".webp"; ".tiff"; ".bmp"; ".arw"; ".srf"; ".sr2"] /\
  Forall (fun ext => validateFileExtension ("photo" ++ ext) = None)
         (Strings.SplitByte "," AllowedImageExts) /\
  validateFileExtension "photo.png" = None /\
  (ProcessARWToPNG "photo.png" (raw_options "work" false) demo_world).2 = Ok "PNGDATA" /\
  (exists args,
      spawned (ProcessARWToPNG "photo.png" (raw_options "work" false) demo_world).1
      = [ {| proc_name := "darktable-cli";
             proc_args := "photo.png" :: "work/arw_output_r1.png" :: args;
             proc_dir := "/tmp" |} ]) /\
  (ValidateARWFile "photo.png" demo_world).2
  = Some (Errorf "unsupported file extension: .png (expected .arw, .srf, or .sr2)") /\
  (forall (path : string) (w : World),
      (ValidateARWFile path w).2 = None ->
      exists c, validateFilePath path (DefaultSecurityConfig (tempdir w)) = Ok c /\
                validateFileExtension c = None /\
                (extractExt c = Some ".arw" \/ extractExt c = Some ".srf"
                 \/ extractExt c = Some ".sr2")).
Proof.
  split; [reflexivity|].
  split; [change (Strings.SplitByte "," AllowedImageExts)
            with [".png"; ".jpg"; ".jpeg"; ".webp"; ".tiff"; ".bmp"; ".arw"; ".srf"; ".sr2"];
          repeat (constructor; [reflexivity|]); constructor|].
  split; [reflexivity|].
  split; [vm_compute; reflexivity|].
  split; [eexists; vm_compute; reflexivity|].
  split; [vm_compute; reflexivity|].
  apply ValidateARWFile_None.
Qed.

(** ** The encoder: first encoding and output format *)

Section EncoderFacts.
Context {lib : ImageLib}.

Lemma len_nonneg (s : string) : 0 <= Strings.len s.
Proof. unfold Strings.len. lia. Qed.

Lemma withDefaults_budget (tmp : string) (options : ProcessImageOptions) (n : Z) :
  0 <= n -> n <= MaxSizeBytes options -> n <= MaxSizeBytes (withDefaults tmp options).
Proof.
  intros H0 H. simpl. destruct (MaxSizeBytes options <=? 0) eqn:E; [|assumption].
  simpl. lia.
Qed.

(** C5.  When the input decodes and the encoding of the decoded image at
    its original size is no longer than the budget, [ProcessImage] returns
    exactly that encoding with its extension and no error.  The returned
    bytes are those of the original image, so at the original dimensions,
    and the loop is not entered: the result is the same for every bound on
    its iterations, zero included. *)
Theorem ProcessImage_fits_at_full_size (fuel : nat) (input : Input)
    (options : ProcessImageOptions) (w w1 : World) (img : Image) (hint : string)
    (result ext : string) :
  decodeImage input w = (w1, Ok (img, hint)) ->
  encodeImageWithCompression img (withDefaults (tempdir w) options) = Ok (result, ext) ->
  Strings.len result <= MaxSizeBytes options ->
  ProcessImage fuel input options w
  = (w1, Returned (Ok {| enc_bytes := result; enc_ext := ext; enc_image := img |})) /\
  ProcessImage 0 input options w = ProcessImage fuel input options w /\
  Strings.len result <= MaxSizeBytes options.
Proof.
  intros Hd He Hb.
  assert (H : forall k, ProcessImage k input options w
                        = (w1, Returned (Ok {| enc_bytes := result; enc_ext := ext;
                                               enc_image := img |}))).
  { intros k. unfold ProcessImage. rewrite Hd. unfold processDecoded. rewrite He.
    pose proof (withDefaults_budget (tempdir w) options _ (len_nonneg result) Hb) as Hb'.
    replace (Strings.len result <=? MaxSizeBytes (withDefaults (tempdir w) options))
      with true by lia.
    reflexivity. }
  rewrite !H. auto.
Qed.

Lemma encodeImageWithCompression_unsupported (img : Image) (options : ProcessImageOptions) :
  Strings.ToLower (OutputFormat options) <> "jpeg" ->
  Strings.ToLower (OutputFormat options) <> "png" ->
  encodeImageWithCompression img options
  = Err (Errorf ("unsupported output format: " ++ OutputFormat options)).
Proof.
  intros Hj Hp. unfold encodeImageWithCompression.
  destruct (String.eqb_spec (Strings.ToLower (OutputFormat options)) "jpeg"); [contradiction|].
  destruct (String.eqb_spec (Strings.ToLower (OutputFormat options)) "png"); [contradiction|].
  reflexivity.
Qed.

(** C7 (amended).  The output format is looked at when the first encoding
    is attempted, after the input was decoded.  For a requested format that
    is not empty (the empty one stands for png) and whose lower-case form
    is neither jpeg nor png, [ProcessImage] returns, when the input
    decodes, the error of that encoding attempt: a plain error naming the
    unsupported format, not a validation error.  When the input does not
    decode, the decoding error is returned whatever the format is. *)
Theorem ProcessImage_unsupported_format (fuel : nat) (input : Input)
    (options : ProcessImageOptions) (w : World) :
  OutputFormat options <> "" ->
  Strings.ToLower (OutputFormat options) <> "jpeg" ->
  Strings.ToLower (OutputFormat options) <> "png" ->
  (forall w1 img hint,
      decodeImage input w = (w1, Ok (img, hint)) ->
      ProcessImage fuel input options w
      = (w1, Returned (Err (Wrapf "failed to encode image"
                              (Errorf ("unsupported output format: "
                                       ++ OutputFormat options)))))) /\
  (forall w1 err,
      decodeImage input w = (w1, Err err) ->
      ProcessImage fuel input options w
      = (w1, Returned (Err (Wrapf "failed to decode image" err)))).
Proof.
  intros Hne Hj Hp. split.
  - intros w1 img hint Hd. unfold ProcessImage. rewrite Hd. unfold processDecoded.
    rewrite encodeImageWithCompression_unsupported.
    + simpl. apply String.eqb_neq in Hne. rewrite Hne. reflexivity.
    + simpl. apply String.eqb_neq in Hne. rewrite Hne. assumption.
    + simpl. apply String.eqb_neq in Hne. rewrite Hne. assumption.
  - intros w1 err Hd. unfold ProcessImage. rewrite Hd. reflexivity.
Qed.

End EncoderFacts.

Lemma ProcessImage_fits_at_full_size_witness :
  (ProcessImage (lib := DimLib.lib) 5 (InPath "photo.png") DefaultProcessImageOptions
     demo_world).2
  = Returned (Ok {| enc_bytes := "xxxxxxxx"; enc_ext := ".png";
                    enc_image := DimLib.image 2 2 |}).
Proof.
  pose proof (ProcessImage_fits_at_full_size (lib := DimLib.lib) 5 (InPath "photo.png")
                DefaultProcessImageOptions demo_world demo_world (DimLib.image 2 2)
                "unknown" "xxxxxxxx" ".png")
    as H.
  destruct H as (H & _); [reflexivity | reflexivity | vm_compute; discriminate |].
  rewrite H. reflexivity.
Defined.

Lemma ProcessImage_unsupported_format_witness :
  (ProcessImage (lib := DimLib.lib) 5 (InPath "photo.png") gif_options demo_world).2
  = Returned (Err (Wrapf "failed to encode image"
                     (Errorf "unsupported output format: gif"))).
Proof.
  destruct (ProcessImage_unsupported_format (lib := DimLib.lib) 5 (InPath "photo.png")
              gif_options demo_world) as (H & _); try discriminate.
  rewrite (H demo_world (DimLib.image 2 2) "unknown"); reflexivity.
Defined.

(** C7, as stated, fails.  With GIF requested, an input that does not
    decode is answered by the decoding error, so decoding was attempted
    first; an input that decodes is answered by the encoder's plain error,
    which carries no validation error. *)
Lemma ProcessImage_format_counterexample :
  ProcessImage (lib := DimLib.lib) 5 (InBytes "not an image") gif_options demo_world
  = (demo_world,
     Returned (Err (Wrapf "failed to decode image" (Errorf "unsupported image format")))) /\
  ProcessImage (lib := DimLib.lib) 5 (InBytes "raster 2x2") gif_options demo_world
  = (demo_world,
     Returned (Err (Wrapf "failed to encode image"
                      (Errorf "unsupported output format: gif")))) /\
  as_validation_field
    (Wrapf "failed to encode image" (Errorf "unsupported output format: gif")) = None.
Proof. repeat split. Qed.

(** ** float64: rounding, comparison and conversion *)

Module F64Facts.
Import F64.

(** *** The number of digits of a mantissa *)
Lemma digits2_pos_size (m : positive) : digits2_pos m = Pos.size m.
Proof. induction m; simpl; congruence. Qed.

Lemma digits2_log2 (m : positive) : Z.pos (digits2_pos m) = Z.log2 (Z.pos m) + 1.
Proof.
  rewrite digits2_pos_size.
  destruct m as [q|q|]; cbn [Pos.size Z.log2]; rewrite ?Pos2Z.inj_succ; lia.
Qed.

Lemma digits2_bounds (m : positive) :
  2 ^ (Z.pos (digits2_pos m) - 1) <= Z.pos m < 2 ^ Z.pos (digits2_pos m).
Proof.
  rewrite digits2_log2. replace (Z.log2 (Z.pos m) + 1 - 1) with (Z.log2 (Z.pos m)) by lia.
  apply Z.log2_spec. lia.
Qed.

Lemma Zdigits2_log2 (m : Z) : 0 < m -> Zdigits2 m = Z.log2 m + 1.
Proof. destruct m; try lia. intros _. apply digits2_log2. Qed.

Lemma Zdigits2_nonneg (m : Z) : 0 <= m -> 0 <= Zdigits2 m.
Proof. destruct m; simpl; lia. Qed.

(** *** Shifting a mantissa to the right *)
Lemma shr_1_m (mrs : shr_record) : 0 <= shr_m mrs -> shr_m (shr_1 mrs) = shr_m mrs / 2.
Proof.
  destruct mrs as [m r s]. simpl. intros H.
  destruct m as [|p|p]; try lia; [reflexivity|].
  destruct p; simpl.
  - rewrite Pos2Z.inj_xI. apply Z.div_unique with 1; lia.
  - rewrite Pos2Z.inj_xO. apply Z.div_unique with 0; lia.
  - reflexivity.
Qed.

Lemma iter_pos_nat {A} (f : A -> A) (p : positive) (x : A) :
  SpecFloat.iter_pos f p x = Nat.iter (Pos.to_nat p) f x.
Proof.
  revert x. induction p; intros x; cbn [SpecFloat.iter_pos].
  - rewrite !IHp. rewrite Pos2Nat.inj_xI.
    replace (S (2 * Pos.to_nat p)) with (Pos.to_nat p + (Pos.to_nat p + 1))%nat by lia.
    rewrite !Nat.iter_add. reflexivity.
  - rewrite !IHp. rewrite Pos2Nat.inj_xO.
    replace (2 * Pos.to_nat p)%nat with (Pos.to_nat p + Pos.to_nat p)%nat by lia.
    rewrite Nat.iter_add. reflexivity.
  - reflexivity.
Qed.

Lemma shr_1_r (mrs : shr_record) : 0 <= shr_m mrs -> shr_r (shr_1 mrs) = Z.odd (shr_m mrs).
Proof.
  destruct mrs as [m r s]. simpl. intros H.
  destruct m as [|p|p]; try lia; [reflexivity|]. destruct p; reflexivity.
Qed.

Lemma shr_1_s (mrs : shr_record) : shr_s (shr_1 mrs) = shr_r mrs || shr_s mrs.
Proof.
  destruct mrs as [m r s]. simpl. destruct m as [|p|p]; try reflexivity; destruct p; reflexivity.
Qed.

Lemma located_shr_1 mrs k V :
  0 <= k -> located mrs k V -> located (shr_1 mrs) (k + 1) V.
Proof.
  intros Hk (Hm & Hb & He). unfold located.
  rewrite shr_1_m, shr_1_r, shr_1_s by assumption.
  rewrite Z.pow_add_r by lia. change (2 ^ 1) with 2.
  pose proof (Z.div_mod (shr_m mrs) 2 ltac:(lia)) as Hd.
  pose proof (Z.mod_pos_bound (shr_m mrs) 2 ltac:(lia)) as Hr.
  assert (Hp : 0 < 2 ^ k) by (apply Z.pow_pos_nonneg; lia).
  assert (Hodd : Z.odd (shr_m mrs) = false <-> shr_m mrs mod 2 = 0).
  { rewrite Zmod_odd. destruct (Z.odd (shr_m mrs)); split; intros; try reflexivity; discriminate. }
  split; [apply Z.div_pos; lia|]. split; [nia|].
  rewrite Hodd, orb_false_iff, He. split.
  - intros (H0 & H1). nia.
  - intros H. assert (shr_m mrs mod 2 = 0) by nia. split; [assumption|nia].
Qed.

Lemma located_iter mrs V (n : nat) :
  located mrs 0 V -> located (Nat.iter n shr_1 mrs) (Z.of_nat n) V.
Proof.
  intros H. induction n.
  - exact H.
  - rewrite Nat2Z.inj_succ. unfold Z.succ.
    change (Nat.iter (S n) shr_1 mrs) with (shr_1 (Nat.iter n shr_1 mrs)).
    apply located_shr_1; [lia|assumption].
Qed.

Lemma located_exact (m V : Z) :
  0 <= m -> V = m -> located (shr_record_of_loc m loc_Exact) 0 V.
Proof.
  intros Hm ->. unfold located. simpl. split; [assumption|]. split; [lia|]. split; [lia|auto].
Qed.

(** The record after [shr] by [n >= 0] from an exact position locates the
    mantissa it started from. *)
Lemma shr_located (m e n : Z) :
  0 <= m -> 0 <= n ->
  let '(mrs, e') := shr (shr_record_of_loc m loc_Exact) e n in
  e' = e + n /\ located mrs n m.
Proof.
  intros Hm Hn. unfold shr. destruct n as [|p|p]; try lia.
  - split; [lia|]. apply located_exact; auto.
  - split; [reflexivity|]. rewrite iter_pos_nat.
    rewrite <- (positive_nat_Z p). apply located_iter. apply located_exact; auto.
Qed.

Lemma round_nearest_even_located mrs k V :
  located mrs k V ->
  let m'' := round_nearest_even (shr_m mrs) (loc_of_shr_record mrs) in
  shr_m mrs <= m'' <= shr_m mrs + 1 /\ (V = shr_m mrs * 2 ^ k -> m'' = shr_m mrs).
Proof.
  intros (Hm & Hb & He). destruct mrs as [m r s]. simpl in *.
  destruct r, s; simpl; try (destruct (Z.even m)); split; try lia;
    intros HV; apply He in HV; destruct HV; try discriminate; reflexivity.
Qed.

Lemma iter_shr_1_m (n : nat) mrs :
  0 <= shr_m mrs -> shr_m (Nat.iter n shr_1 mrs) = shr_m mrs / 2 ^ Z.of_nat n.
Proof.
  intros Hm. induction n.
  - simpl. rewrite Z.div_1_r. reflexivity.
  - rewrite Nat2Z.inj_succ, Z.pow_succ_r by lia.
    change (Nat.iter (S n) shr_1 mrs) with (shr_1 (Nat.iter n shr_1 mrs)).
    rewrite shr_1_m.
    + rewrite IHn. rewrite Z.div_div by (try apply Z.pow_pos_nonneg; lia).
      f_equal. lia.
    + rewrite IHn. apply Z.div_pos; [assumption|apply Z.pow_pos_nonneg; lia].
Qed.

Lemma shr_record_of_loc_m m l : shr_m (shr_record_of_loc m l) = m.
Proof. destruct l as [|[]]; reflexivity. Qed.

(** The mantissa and the exponent after [shr] by [n >= 0]. *)
Lemma shr_m_e (m e n : Z) (l : location) :
  0 <= m -> 0 <= n ->
  shr_m (fst (shr (shr_record_of_loc m l) e n)) = m / 2 ^ n /\
  snd (shr (shr_record_of_loc m l) e n) = e + n.
Proof.
  intros Hm Hn. unfold shr. destruct n as [|p|p]; try lia; simpl.
  - rewrite shr_record_of_loc_m, Z.div_1_r. split; [reflexivity|lia].
  - rewrite iter_pos_nat, iter_shr_1_m by (rewrite shr_record_of_loc_m; assumption).
    rewrite shr_record_of_loc_m, positive_nat_Z. auto.
Qed.

Lemma round_nearest_even_range (m : Z) (l : location) :
  m <= round_nearest_even m l <= m + 1.
Proof. destruct l as [|[]]; simpl; try destruct (Z.even m); lia. Qed.

Lemma fexp_eq (e : Z) : fexp prec emax e = Z.max (e - 53) (-1074).
Proof. reflexivity. Qed.

Lemma Zdigits2_div_pow2 (m n : Z) :
  0 <= n -> 2 ^ n <= m -> Zdigits2 (m / 2 ^ n) = Zdigits2 m - n.
Proof.
  intros Hn Hm.
  assert (Hp : 0 < 2 ^ n) by (apply Z.pow_pos_nonneg; lia).
  assert (Hq : 0 < m / 2 ^ n) by (apply Z.div_str_pos; lia).
  rewrite !Zdigits2_log2 by lia.
  rewrite <- Z.shiftr_div_pow2 by assumption.
  rewrite Z.log2_shiftr by lia.
  assert (n <= Z.log2 m) by (apply Z.log2_le_pow2; lia).
  lia.
Qed.

Lemma Zdigits2_le (a b : Z) : 0 <= a <= b -> Zdigits2 a <= Zdigits2 b.
Proof.
  intros [Ha Hab]. destruct (Z.eq_dec a 0) as [->|Hne].
  - simpl. apply Zdigits2_nonneg. lia.
  - rewrite !Zdigits2_log2 by lia. pose proof (Z.log2_le_mono a b Hab). lia.
Qed.

Lemma Zdigits2_small (m n : Z) : 0 <= m < 2 ^ n -> 0 <= n -> Zdigits2 m <= n.
Proof.
  intros [H0 H1] Hn. destruct (Z.eq_dec m 0) as [->|Hne]; [simpl; lia|].
  rewrite Zdigits2_log2 by lia.
  assert (Z.log2 m < n) by (apply Z.log2_lt_pow2; lia). lia.
Qed.

(** The shape of [binary_round_aux] when the first shift is not negative. *)
Lemma binary_round_aux_shape (sx : bool) (m e : Z) (l : location) :
  0 <= m ->
  0 <= fexp prec emax (Zdigits2 m + e) - e ->
  let n1 := fexp prec emax (Zdigits2 m + e) - e in
  let e' := e + n1 in
  let mrs' := fst (shr (shr_record_of_loc m l) e n1) in
  let m'' := round_nearest_even (shr_m mrs') (loc_of_shr_record mrs') in
  let n2 := fexp prec emax (Zdigits2 m'' + e') - e' in
  let m3 := m'' / 2 ^ n2 in
  let e'' := e' + n2 in
  0 <= n2 /\
  shr_m mrs' = m / 2 ^ n1 /\
  binary_round_aux prec emax sx m e l
  = match m3 with
    | Z0 => S754_zero sx
    | Zpos p => if e'' <=? emax - prec then S754_finite sx p e'' else S754_infinity sx
    | Zneg _ => S754_nan
    end /\
  0 <= m3 /\
  (0 < m3 -> fexp prec emax (Zdigits2 m3 + e'') = e'').
Proof.
  intros Hm Hn1 n1 e' mrs' m'' n2 m3 e''.
  destruct (shr_m_e m e n1 l Hm Hn1) as [Hm' He'].
  fold mrs' in Hm'.
  pose proof (round_nearest_even_range (shr_m mrs') (loc_of_shr_record mrs')) as Hr.
  fold m'' in Hr. rewrite Hm' in Hr.
  assert (Hp1 : 0 < 2 ^ n1) by (apply Z.pow_pos_nonneg; lia).
  assert (Hq : 0 <= m / 2 ^ n1) by (apply Z.div_pos; lia).
  assert (Hm''0 : 0 <= m'') by lia.
  assert (Hn2 : 0 <= n2).
  { unfold n2. destruct (Z_lt_le_dec m (2 ^ n1)) as [Hlt|Hge].
    - (* everything was shifted out: the exponent is the least one *)
      assert (Hd : Zdigits2 m <= n1) by (apply Zdigits2_small; lia).
      unfold e', n1 in *. rewrite !fexp_eq in *. lia.
    - assert (Hd : Zdigits2 (m / 2 ^ n1) = Zdigits2 m - n1) by (apply Zdigits2_div_pow2; lia).
      assert (Hle : Zdigits2 (m / 2 ^ n1) <= Zdigits2 m'') by (apply Zdigits2_le; lia).
      unfold e', n1 in *. rewrite !fexp_eq in *. lia. }
  split; [assumption|]. split; [assumption|].
  assert (Hp2 : 0 < 2 ^ n2) by (apply Z.pow_pos_nonneg; lia).
  destruct (shr_m_e m'' e' n2 loc_Exact Hm''0 Hn2) as [Hm3 He''].
  split.
  { unfold binary_round_aux, shr_fexp. fold n1.
    destruct (shr (shr_record_of_loc m l) e n1) as [mrs1 e1] eqn:E1.
    simpl in He'. subst e1. change mrs1 with mrs'. fold e'. fold m''. fold n2.
    destruct (shr (shr_record_of_loc m'' loc_Exact) e' n2) as [mrs2 e2] eqn:E2.
    simpl in Hm3, He''. rewrite Hm3. fold m3. subst e2. fold e''. reflexivity. }
  split; [apply Z.div_pos; lia|].
  intros Hm3pos.
  assert (Hge : 2 ^ n2 <= m'').
  { destruct (Z_lt_le_dec m'' (2 ^ n2)) as [Hlt|]; [|assumption].
    unfold m3 in Hm3pos. rewrite Z.div_small in Hm3pos; lia. }
  unfold m3. rewrite Zdigits2_div_pow2 by lia.
  unfold e'', n2. rewrite !fexp_eq in *. lia.
Qed.

#[local] Open Scope Q_scope.

Lemma two_pow_pos (e : Z) : (0 < 2 ^ e)%Q.
Proof. apply Qpower_0_lt. reflexivity. Qed.

Lemma two_pow_split (e1 e2 : Z) :
  (e1 <= e2)%Z -> (2 ^ e2 == 2 ^ e1 * inject_Z (2 ^ (e2 - e1)))%Q.
Proof.
  intros H. rewrite Zpower_Qpower by lia. rewrite <- Qpower_plus by discriminate.
  replace (e1 + (e2 - e1))%Z with e2 by lia. reflexivity.
Qed.

(** *** Values

    Comparing [a * 2^e1] with [b * 2^e2] at the smaller exponent. *)
Lemma scaled_le (a b e1 e2 : Z) :
  (e1 <= e2)%Z ->
  (inject_Z a * 2 ^ e1 <= inject_Z b * 2 ^ e2)%Q <-> (a <= b * 2 ^ (e2 - e1))%Z.
Proof.
  intros H. rewrite (two_pow_split e1 e2 H).
  rewrite Zle_Qle, inject_Z_mult.
  pose proof (two_pow_pos e1) as Hp.
  split; intros Hle.
  - apply Qmult_le_r with (z := 2 ^ e1); [assumption|].
    rewrite <- Qmult_assoc, (Qmult_comm (inject_Z (2 ^ (e2 - e1)))). lra.
  - assert (H1 := Qmult_le_compat_r _ _ (2 ^ e1) Hle (Qlt_le_weak _ _ Hp)). lra.
Qed.

Lemma scaled_le' (a b e1 e2 : Z) :
  (e2 <= e1)%Z ->
  (inject_Z a * 2 ^ e1 <= inject_Z b * 2 ^ e2)%Q <-> (a * 2 ^ (e1 - e2) <= b)%Z.
Proof.
  intros H. rewrite (two_pow_split e2 e1 H).
  rewrite Zle_Qle, inject_Z_mult.
  pose proof (two_pow_pos e2) as Hp.
  split; intros Hle.
  - apply Qmult_le_r with (z := 2 ^ e2); [assumption|]. lra.
  - assert (H1 := Qmult_le_compat_r _ _ (2 ^ e2) Hle (Qlt_le_weak _ _ Hp)). lra.
Qed.

Lemma scaled_lt (a b e1 e2 : Z) :
  (e1 <= e2)%Z ->
  (inject_Z a * 2 ^ e1 < inject_Z b * 2 ^ e2)%Q <-> (a < b * 2 ^ (e2 - e1))%Z.
Proof.
  intros H. rewrite (two_pow_split e1 e2 H).
  rewrite Zlt_Qlt, inject_Z_mult.
  pose proof (two_pow_pos e1) as Hp.
  split; intros Hle.
  - apply Qmult_lt_r with (z := 2 ^ e1); [assumption|]. lra.
  - assert (H1 := Qmult_lt_compat_r _ _ (2 ^ e1) Hp Hle). lra.
Qed.

(** A smaller value has no larger magnitude (digits plus exponent). *)
Lemma magnitude_le (a b ea eb : Z) :
  (0 < a)%Z -> (0 < b)%Z ->
  (inject_Z a * 2 ^ ea <= inject_Z b * 2 ^ eb)%Q ->
  (Zdigits2 a + ea <= Zdigits2 b + eb)%Z.
Proof.
  intros Ha Hb Hle.
  rewrite !Zdigits2_log2 by assumption.
  pose proof (Z.log2_spec a Ha) as [Ha1 _].
  pose proof (Z.log2_spec b Hb) as [_ Hb2].
  pose proof (Z.log2_nonneg a). pose proof (Z.log2_nonneg b).
  destruct (Z_le_gt_dec ea eb) as [Hee|Hee].
  - apply scaled_le in Hle; [|assumption].
    destruct (Z_le_gt_dec (Z.log2 a + 1 + ea) (Z.log2 b + 1 + eb)) as [|Hgt]; [assumption|].
    exfalso.
    assert (2 ^ (Z.succ (Z.log2 b)) * 2 ^ (eb - ea) <= 2 ^ Z.log2 a)%Z.
    { rewrite <- Z.pow_add_r by lia. apply Z.pow_le_mono_r; lia. }
    assert (0 < 2 ^ (eb - ea))%Z by (apply Z.pow_pos_nonneg; lia).
    nia.
  - apply scaled_le' in Hle; [|lia].
    destruct (Z_le_gt_dec (Z.log2 a + 1 + ea) (Z.log2 b + 1 + eb)) as [|Hgt]; [assumption|].
    exfalso.
    assert (2 ^ (Z.succ (Z.log2 b)) <= 2 ^ Z.log2 a * 2 ^ (ea - eb))%Z.
    { rewrite <- Z.pow_add_r by lia. apply Z.pow_le_mono_r; lia. }
    assert (0 < 2 ^ (ea - eb))%Z by (apply Z.pow_pos_nonneg; lia).
    nia.
Qed.

Lemma bounded_spec (m : positive) (e : Z) :
  bounded prec emax m e = true <->
  (Z.max (Z.pos (digits2_pos m) + e - 53) (-1074) = e /\ e <= 971)%Z.
Proof.
  unfold bounded, canonical_mantissa. rewrite andb_true_iff, Z.eqb_eq, Z.leb_le.
  rewrite fexp_eq. reflexivity.
Qed.

Lemma digits_mul_ge (a b : positive) :
  (Z.pos (digits2_pos a) + Z.pos (digits2_pos b) - 1 <= Z.pos (digits2_pos (a * b)))%Z.
Proof.
  rewrite !digits2_log2. rewrite Pos2Z.inj_mul.
  pose proof (Z.log2_mul_below (Z.pos a) (Z.pos b) ltac:(lia) ltac:(lia)). lia.
Qed.

Lemma mul_shift_nonneg (mx my : positive) (ex ey : Z) :
  bounded prec emax mx ex = true -> bounded prec emax my ey = true ->
  (0 <= fexp prec emax (Zdigits2 (Z.pos (mx * my)) + (ex + ey)) - (ex + ey))%Z.
Proof.
  rewrite !bounded_spec, fexp_eq. intros [Hx _] [Hy _].
  pose proof (digits_mul_ge mx my). simpl Zdigits2.
  pose proof (Pos2Z.is_pos (digits2_pos mx)). pose proof (Pos2Z.is_pos (digits2_pos my)).
  lia.
Qed.

(** Rounding a product never passes a representable number above it. *)
Lemma SFmul_le (mx my mX : positive) (ex ey eX : Z) :
  bounded prec emax mx ex = true -> bounded prec emax my ey = true ->
  bounded prec emax mX eX = true ->
  (inject_Z (Z.pos (mx * my)) * 2 ^ (ex + ey) <= inject_Z (Z.pos mX) * 2 ^ eX)%Q ->
  SFmul prec emax (S754_finite false mx ex) (S754_finite false my ey) = S754_zero false \/
  exists m e,
    SFmul prec emax (S754_finite false mx ex) (S754_finite false my ey) = S754_finite false m e /\
    bounded prec emax m e = true /\
    (inject_Z (Z.pos m) * 2 ^ e <= inject_Z (Z.pos mX) * 2 ^ eX)%Q.
Proof.
  intros Bx By BX Hle.
  pose proof (mul_shift_nonneg mx my ex ey Bx By) as Hn1.
  set (P := Z.pos (mx * my)) in *. set (E := (ex + ey)%Z) in *.
  assert (HP : (0 < P)%Z) by (unfold P; lia).
  destruct (binary_round_aux_shape false P E loc_Exact ltac:(lia) Hn1)
    as (Hn2 & Hm' & Hres & Hm3 & Hcanon).
  set (n1 := (fexp prec emax (Zdigits2 P + E) - E)%Z) in *.
  set (e' := (E + n1)%Z) in *.
  set (mrs' := fst (shr (shr_record_of_loc P loc_Exact) E n1)) in *.
  set (m'' := round_nearest_even (shr_m mrs') (loc_of_shr_record mrs')) in *.
  set (n2 := (fexp prec emax (Zdigits2 m'' + e') - e')%Z) in *.
  set (m3 := (m'' / 2 ^ n2)%Z) in *.
  set (e'' := (e' + n2)%Z) in *.
  simpl SFmul. fold P E. rewrite Hres.
  (* the exponent after the first shift is at most that of the bound *)
  apply bounded_spec in BX. destruct BX as [BXc BXe].
  assert (Hmag : (Zdigits2 P + E <= Z.pos (digits2_pos mX) + eX)%Z).
  { apply (magnitude_le P (Z.pos mX) E eX); [lia|lia|exact Hle]. }
  assert (He'X : (e' <= eX)%Z).
  { unfold e', n1. rewrite fexp_eq. lia. }
  assert (HEX : (E <= eX)%Z) by lia.
  apply scaled_le in Hle; [|assumption].
  set (K := (Z.pos mX * 2 ^ (eX - e'))%Z).
  assert (Hp1 : (0 < 2 ^ n1)%Z) by (apply Z.pow_pos_nonneg; lia).
  assert (HK : (Z.pos mX * 2 ^ (eX - E) = K * 2 ^ n1)%Z).
  { unfold K. rewrite <- Z.mul_assoc, <- Z.pow_add_r by lia. do 2 f_equal. lia. }
  rewrite HK in Hle.
  (* the rounded mantissa does not pass K *)
  pose proof (shr_located P E n1 ltac:(lia) Hn1) as Hloc.
  destruct (shr (shr_record_of_loc P loc_Exact) E n1) as [mrs1 e1] eqn:E1.
  destruct Hloc as [_ Hloc]. change mrs1 with mrs' in Hloc.
  pose proof (round_nearest_even_located mrs' n1 P Hloc) as [Hrange Hexact].
  fold m'' in Hrange, Hexact.
  destruct Hloc as (Hm'0 & Hb & _).
  assert (Hm''K : (m'' <= K)%Z).
  { destruct (Z.eq_dec (shr_m mrs') K) as [Heq|Hne].
    - rewrite Hexact; [lia|]. nia.
    - assert (shr_m mrs' < K)%Z by nia. lia. }
  assert (Hp2 : (0 < 2 ^ n2)%Z) by (apply Z.pow_pos_nonneg; lia).
  assert (Hm3K : (m3 * 2 ^ n2 <= K)%Z).
  { unfold m3. pose proof (Z.mul_div_le m'' (2 ^ n2) Hp2). lia. }
  destruct m3 as [|p3|p3] eqn:Em3; [left; reflexivity| |lia].
  right.
  assert (Hval : (inject_Z (Z.pos p3) * 2 ^ e'' <= inject_Z (Z.pos mX) * 2 ^ eX)%Q).
  { assert (He''X : (e'' <= eX)%Z).
    { (* through the canonical exponent of the result *)
      destruct (Z_le_gt_dec e'' eX) as [|Hgt]; [assumption|exfalso].
      assert (Hs : (Z.pos p3 * 2 ^ (e'' - eX) <= Z.pos mX)%Z).
      { assert (2 ^ n2 * 2 ^ (eX - e') = 2 ^ (eX - e') * 2 ^ n2)%Z by lia.
        assert (Hsplit : (2 ^ n2 = 2 ^ (e'' - eX) * 2 ^ (eX - e'))%Z).
        { rewrite <- Z.pow_add_r by lia. f_equal. unfold e''. lia. }
        assert (0 < 2 ^ (eX - e'))%Z by (apply Z.pow_pos_nonneg; lia).
        unfold K in Hm3K. rewrite Hsplit in Hm3K. nia. }
      apply scaled_le' in Hs; [|lia].
      apply magnitude_le in Hs; [|lia|lia].
      specialize (Hcanon ltac:(lia)). rewrite fexp_eq in Hcanon. simpl Zdigits2 in *. lia. }
    apply scaled_le; [assumption|].
    assert (Hsplit : (2 ^ (eX - e') = 2 ^ n2 * 2 ^ (eX - e''))%Z).
    { rewrite <- Z.pow_add_r by (unfold e''; lia). f_equal. unfold e''. lia. }
    assert (0 < 2 ^ (eX - e''))%Z by (apply Z.pow_pos_nonneg; lia).
    unfold K in Hm3K. rewrite Hsplit in Hm3K. nia. }
  assert (He''max : (e'' <= 971)%Z).
  { pose proof Hval as Hs. apply magnitude_le in Hs; [|lia|lia].
    specialize (Hcanon ltac:(lia)). rewrite fexp_eq in Hcanon. simpl Zdigits2 in *. lia. }
  exists p3, e''.
  replace (e'' <=? emax - prec)%Z with true by (unfold emax, prec; lia).
  split; [reflexivity|]. split; [|exact Hval].
  apply bounded_spec. specialize (Hcanon ltac:(lia)). rewrite fexp_eq in Hcanon.
  simpl Zdigits2 in Hcanon. lia.
Qed.

(** Comparison of canonical positive numbers is comparison of values. *)
Lemma bounded_digits (m : positive) (e : Z) :
  bounded prec emax m e = true ->
  (Z.pos m < 2 ^ 53 /\ (-1074 <= e <= 971) /\ (-1074 < e -> 2 ^ 52 <= Z.pos m))%Z.
Proof.
  intros B. apply bounded_spec in B. destruct B as [Bc Be].
  pose proof (digits2_bounds m) as [Hlo Hhi].
  pose proof (Pos2Z.is_pos (digits2_pos m)).
  assert (Hd : (Z.pos (digits2_pos m) <= 53)%Z) by lia.
  split.
  - eapply Z.lt_le_trans; [exact Hhi|]. apply Z.pow_le_mono_r; lia.
  - split; [lia|]. intros He.
    assert (Z.pos (digits2_pos m) = 53)%Z by lia.
    replace 52%Z with (Z.pos (digits2_pos m) - 1)%Z by lia. assumption.
Qed.

Lemma SFcompare_finite (m1 m2 : positive) (e1 e2 : Z) :
  bounded prec emax m1 e1 = true -> bounded prec emax m2 e2 = true ->
  SFcompare (S754_finite false m1 e1) (S754_finite false m2 e2)
  = Some (value (S754_finite false m1 e1) ?= value (S754_finite false m2 e2))%Q.
Proof.
  intros B1 B2.
  destruct (bounded_digits m1 e1 B1) as (H1 & H1e & H1n).
  destruct (bounded_digits m2 e2 B2) as (H2 & H2e & H2n).
  unfold value. rewrite !Qmult_1_l. simpl SFcompare. f_equal.
  destruct (Z.compare_spec e1 e2) as [Heq|Hlt|Hgt].
  - subst e2. rewrite Pos.compare_cont_spec. simpl.
    symmetry. destruct (Pos.compare_spec m1 m2) as [Hm|Hm|Hm].
    + subst. apply Qeq_alt. reflexivity.
    + apply Qlt_alt. apply scaled_lt; [lia|]. rewrite Z.sub_diag. simpl. lia.
    + apply Qgt_alt. apply scaled_lt; [lia|]. rewrite Z.sub_diag. simpl. lia.
  - symmetry. apply Qlt_alt. apply scaled_lt; [lia|].
    specialize (H2n ltac:(lia)).
    assert (2 ^ 1 <= 2 ^ (e2 - e1))%Z by (apply Z.pow_le_mono_r; lia).
    change (2 ^ 1)%Z with 2%Z in *. change (2 ^ 53)%Z with (2 ^ 52 * 2)%Z in H1. nia.
  - symmetry. apply Qgt_alt. apply scaled_lt; [lia|].
    specialize (H1n ltac:(lia)).
    assert (2 ^ 1 <= 2 ^ (e1 - e2))%Z by (apply Z.pow_le_mono_r; lia).
    change (2 ^ 1)%Z with 2%Z in *. change (2 ^ 53)%Z with (2 ^ 52 * 2)%Z in H2. nia.
Qed.

Lemma fin_wf x : fin x -> wf x.
Proof. destruct x; simpl; tauto. Qed.

Lemma value_finite_pos (m : positive) (e : Z) : (0 < value (S754_finite false m e))%Q.
Proof.
  unfold value. rewrite Qmult_1_l.
  apply Qmult_lt_0_compat; [|apply two_pow_pos]. reflexivity.
Qed.

Lemma fin_value_nonneg x : fin x -> (0 <= value x)%Q.
Proof.
  destruct x as [s| | |s m e]; simpl; try tauto; try (intros; apply Qle_refl).
  intros [Hs _]. subst. apply Qlt_le_weak, (value_finite_pos m e).
Qed.

Lemma SFcompare_fin (x y : spec_float) :
  fin x -> fin y -> SFcompare x y = Some (value x ?= value y)%Q.
Proof.
  destruct x as [sx| | |sx mx ex], y as [sy| | |sy my ey]; simpl fin;
    try (intros; exfalso; assumption).
  - intros Hx Hy. subst. reflexivity.
  - intros Hx [Hy B]. subst. simpl SFcompare. f_equal. symmetry.
    apply Qlt_alt. apply (value_finite_pos my ey).
  - intros [Hx B] Hy. subst. simpl SFcompare. f_equal. symmetry.
    apply Qgt_alt. apply (value_finite_pos mx ex).
  - intros [Hx B1] [Hy B2]. subst. apply SFcompare_finite; assumption.
Qed.

Lemma SFltb_fin (x y : spec_float) :
  fin x -> fin y -> (SFltb x y = true <-> (value x < value y)%Q).
Proof.
  intros Hx Hy. unfold SFltb. rewrite (SFcompare_fin x y Hx Hy), Qlt_alt.
  destruct (value x ?= value y)%Q; split; congruence.
Qed.


(** The product of two such numbers, when it is at most a positive
   representable bound, is again such a number, at most the bound. *)
Lemma mul_fin_le (x y b : spec_float) :
  fin x -> fin y -> fin b ->
  (value x * value y <= value b)%Q ->
  fin (mul x y) /\ (value (mul x y) <= value b)%Q.
Proof.
  intros Hx Hy Hb Hle.
  pose proof (fin_value_nonneg b Hb) as Hb0.
  destruct x as [sx| | |sx mx ex]; simpl in Hx; try tauto;
    destruct y as [sy| | |sy my ey]; simpl in Hy; try tauto.
  - subst. simpl. auto.
  - destruct Hy; subst. simpl. auto.
  - destruct Hx; subst. simpl. auto.
  - destruct Hx as [-> Bx], Hy as [-> By].
    destruct b as [sb| | |sb mb eb]; simpl in Hb; try tauto.
    + exfalso. pose proof (value_finite_pos mx ex). pose proof (value_finite_pos my ey).
      simpl value at 3 in Hle.
      assert (0 < value (S754_finite false mx ex) * value (S754_finite false my ey))%Q
        by (apply Qmult_lt_0_compat; assumption).
      lra.
    + destruct Hb as [-> Bb].
      assert (Hle' : (inject_Z (Z.pos (mx * my)) * 2 ^ (ex + ey)
                      <= inject_Z (Z.pos mb) * 2 ^ eb)%Q).
      { unfold value in Hle. rewrite !Qmult_1_l in Hle.
        rewrite Pos2Z.inj_mul, inject_Z_mult, Qpower_plus by discriminate.
        lra. }
      unfold mul.
      destruct (SFmul_le mx my mb ex ey eb Bx By Bb Hle') as [->|(m & e & -> & Bm & Hv)].
      * simpl. split; [reflexivity|]. apply Qlt_le_weak, (value_finite_pos mb eb).
      * simpl fin. split; [auto|]. unfold value. rewrite !Qmult_1_l. exact Hv.
Qed.

Lemma to_int_le (x : spec_float) (n : Z) :
  fin x -> (value x <= inject_Z n)%Q -> (n < 2 ^ 63)%Z ->
  exists k, to_int x = Some k /\ (0 <= k <= n)%Z.
Proof.
  intros Hx Hv Hn. destruct x as [s| | |s m e]; simpl in Hx; try tauto.
  - subst. exists 0%Z. split; [reflexivity|].
    split; [lia|]. rewrite Zle_Qle. exact Hv.
  - destruct Hx as [-> B]. unfold value in Hv. rewrite Qmult_1_l in Hv.
    assert (Hn1 : (inject_Z n == inject_Z n * 2 ^ 0)%Q) by (simpl; lra).
    rewrite Hn1 in Hv. unfold to_int.
    set (a := match e with
              | Z.neg p => (Z.pos m / 2 ^ Z.pos p)%Z
              | _ => (Z.pos m * 2 ^ e)%Z
              end).
    assert (Ha : (0 <= a <= n)%Z).
    { unfold a. destruct e as [|p|p].
      - apply scaled_le' in Hv; [|lia]. simpl in *. lia.
      - apply scaled_le' in Hv; [|lia]. rewrite Z.sub_0_r in Hv.
        assert (0 < 2 ^ Z.pos p)%Z by (apply Z.pow_pos_nonneg; lia). nia.
      - apply scaled_le in Hv; [|lia].
        replace (0 - Z.neg p)%Z with (Z.pos p) in Hv by lia.
        assert (0 < 2 ^ Z.pos p)%Z by (apply Z.pow_pos_nonneg; lia).
        split; [apply Z.div_pos; lia|].
        apply Z.div_le_upper_bound; lia. }
    exists a. replace ((- 2 ^ 63 <=? a)%Z && (a <? 2 ^ 63)%Z) with true; [auto|].
    symmetry. apply andb_true_iff. split; [apply Z.leb_le | apply Z.ltb_lt]; lia.
Qed.

(** [float64(n)] is exact below 2^53. *)
Lemma Pos_iter_xO (p k : positive) : Z.pos (Pos.iter xO p k) = (Z.pos p * 2 ^ Z.pos k)%Z.
Proof.
  induction k using Pos.peano_ind.
  - simpl. lia.
  - rewrite Pos.iter_succ, Pos2Z.inj_xO, IHk, Pos2Z.inj_succ, Z.pow_succ_r by lia. lia.
Qed.

Lemma of_int_exact (n : Z) :
  (0 < n < 2 ^ 53)%Z ->
  exists m e, of_int n = S754_finite false m e /\ bounded prec emax m e = true /\
              (inject_Z (Z.pos m) * 2 ^ e == inject_Z n)%Q.
Proof.
  intros [Hn0 Hn]. destruct n as [|p|p]; try lia.
  unfold of_int, binary_normalize, binary_round.
  pose proof (digits2_bounds p) as [Hlo Hhi].
  set (d := Z.pos (digits2_pos p)) in *.
  assert (Hd : (1 <= d <= 53)%Z).
  { split; [unfold d; lia|].
    destruct (Z_le_gt_dec d 53); [assumption|exfalso].
    assert (2 ^ 53 <= 2 ^ (d - 1))%Z by (apply Z.pow_le_mono_r; lia). lia. }
  rewrite fexp_eq. replace (Z.max (d + 0 - 53) (-1074)) with (d - 53)%Z by lia.
  (* the aligned mantissa has 53 digits *)
  assert (Hal : exists mz, shl_align p 0 (d - 53) = (mz, (d - 53)%Z) /\
                           Z.pos mz = (Z.pos p * 2 ^ (53 - d))%Z).
  { unfold shl_align. destruct (d - 53 - 0)%Z as [|q|q] eqn:Eq; try lia.
    - exists p. split; [f_equal; lia|]. replace (53 - d)%Z with 0%Z by lia. simpl. lia.
    - eexists. split; [reflexivity|]. rewrite Pos_iter_xO. do 2 f_equal. lia. }
  destruct Hal as (mz & -> & Hmz).
  assert (Hp : (0 < 2 ^ (53 - d))%Z) by (apply Z.pow_pos_nonneg; lia).
  assert (Hdz : Zdigits2 (Z.pos mz) = 53%Z).
  { rewrite Zdigits2_log2 by lia. rewrite Hmz, Z.log2_mul_pow2 by lia.
    unfold d in *. rewrite digits2_log2 in *. lia. }
  assert (Hn1 : (fexp prec emax (Zdigits2 (Z.pos mz) + (d - 53)) - (d - 53) = 0)%Z).
  { rewrite Hdz, fexp_eq. lia. }
  destruct (binary_round_aux_shape false (Z.pos mz) (d - 53) loc_Exact ltac:(lia) ltac:(lia))
    as (_ & _ & Hres & _ & _).
  rewrite Hn1 in Hres. simpl shr in Hres. simpl round_nearest_even in Hres.
  rewrite Z.add_0_r in Hres. rewrite Hn1 in Hres. simpl (2 ^ 0)%Z in Hres.
  rewrite Z.div_1_r, Z.add_0_r in Hres.
  replace (d - 53 <=? emax - prec)%Z with true in Hres by (unfold emax, prec; lia).
  exists mz, (d - 53)%Z. split; [exact Hres|]. split.
  - apply bounded_spec. simpl Zdigits2 in Hdz. lia.
  - rewrite Hmz, inject_Z_mult, Zpower_Qpower by lia.
    rewrite <- Qmult_assoc, <- Qpower_plus by discriminate.
    replace (53 - d + (d - 53))%Z with 0%Z by lia. simpl. lra.
Qed.

Lemma binary_round_aux_wf (m e : Z) (l : location) :
  (0 <= m)%Z -> (0 <= fexp prec emax (Zdigits2 m + e) - e)%Z ->
  wf (binary_round_aux prec emax false m e l).
Proof.
  intros Hm Hn1.
  destruct (binary_round_aux_shape false m e l Hm Hn1) as (_ & _ & Hres & Hm3 & Hcanon).
  rewrite Hres. clear Hres.
  match type of Hcanon with
  | (0 < ?m3)%Z -> fexp _ _ (Zdigits2 _ + ?e'') = _ =>
      generalize dependent e''; generalize dependent m3
  end.
  intros m3 Hm3 e'' Hcanon.
  destruct m3 as [|p|p]; [reflexivity| |lia].
  destruct (e'' <=? emax - prec)%Z eqn:Ec; [|reflexivity].
  split; [reflexivity|].
  apply bounded_spec. specialize (Hcanon ltac:(lia)). rewrite fexp_eq in Hcanon.
  apply Z.leb_le in Ec. unfold emax, prec in Ec. simpl Zdigits2 in Hcanon. lia.
Qed.

(** A quotient of positive numbers is never NaN, negative or denormalised. *)
Lemma div_wf (m1 m2 : positive) (e1 e2 : Z) :
  wf (div (S754_finite false m1 e1) (S754_finite false m2 e2)).
Proof.
  unfold div, SFdiv, SFdiv_core_binary.
  set (d1 := Zdigits2 (Z.pos m1)). set (d2 := Zdigits2 (Z.pos m2)).
  set (e' := Z.min (fexp prec emax (d1 + e1 - (d2 + e2))) (e1 - e2)).
  set (s := (e1 - e2 - e')%Z).
  assert (Hs : (0 <= s)%Z) by (unfold s, e'; lia).
  set (m' := match s with
             | 0%Z => Z.pos m1
             | Z.pos _ => Z.shiftl (Z.pos m1) s
             | Z.neg _ => 0%Z
             end).
  assert (Hm' : m' = (Z.pos m1 * 2 ^ s)%Z).
  { unfold m'. destruct s as [|p|p] eqn:Es; try lia.
    rewrite Z.shiftl_mul_pow2 by lia. reflexivity. }
  clearbody m'.
  pose proof (Z_div_mod m' (Z.pos m2) ltac:(lia)) as Hdm.
  destruct (Z.div_eucl m' (Z.pos m2)) as [q r]. destruct Hdm as [Hq Hr].
  simpl xorb.
  assert (Hp : (0 < 2 ^ s)%Z) by (apply Z.pow_pos_nonneg; lia).
  assert (Hq0 : (0 <= q)%Z) by nia.
  apply binary_round_aux_wf; [assumption|].
  rewrite fexp_eq.
  assert (Hd1 : (2 ^ (d1 - 1) <= Z.pos m1 < 2 ^ d1)%Z) by apply digits2_bounds.
  assert (Hd2 : (2 ^ (d2 - 1) <= Z.pos m2 < 2 ^ d2)%Z) by apply digits2_bounds.
  assert (Hd1p : (1 <= d1)%Z) by (unfold d1; simpl; lia).
  assert (Hd2p : (1 <= d2)%Z) by (unfold d2; simpl; lia).
  (* the quotient has at least d1 + s - d2 digits *)
  assert (Hdq : (d1 + s - d2 <= Zdigits2 q)%Z).
  { destruct (Z_le_gt_dec (d1 + s - d2) (Zdigits2 q)) as [|Hgt]; [assumption|exfalso].
    pose proof (Zdigits2_nonneg q Hq0) as Hdq0.
    assert (Hqlt : (q < 2 ^ Zdigits2 q)%Z).
    { destruct q as [|pq|pq]; [simpl; lia | apply digits2_bounds | lia]. }
    assert (Hm'lt : (m' < 2 ^ (Zdigits2 q + d2))%Z).
    { rewrite Z.pow_add_r by lia. nia. }
    assert (Hm'ge : (2 ^ (d1 - 1 + s) <= m')%Z).
    { rewrite Hm', Z.pow_add_r by lia. nia. }
    assert (2 ^ (Zdigits2 q + d2) <= 2 ^ (d1 - 1 + s))%Z by (apply Z.pow_le_mono_r; lia).
    lia. }
  subst s e'. rewrite fexp_eq in *. lia.
Qed.

Lemma of_int_fin (n : Z) :
  (0 <= n < 2 ^ 53)%Z -> fin (of_int n) /\ value (of_int n) == inject_Z n.
Proof.
  intros [H0 H1]. destruct (Z.eq_dec n 0%Z) as [->|Hne].
  - split; reflexivity.
  - destruct (of_int_exact n ltac:(lia)) as (m & e & -> & B & Hv).
    split; [split; [reflexivity|assumption]|].
    unfold value. rewrite Qmult_1_l. exact Hv.
Qed.

Lemma consts_fin :
  fin c1_0 /\ fin c0_6 /\ fin c0_75 /\ fin c0_85 /\ fin c0_8 /\ fin c0_1.
Proof. repeat split. Qed.

Lemma consts_le_1 :
  value c1_0 == 1 /\ value c0_6 <= 1 /\ value c0_75 <= 1 /\ value c0_85 <= 1 /\
  value c0_8 <= 1.
Proof. repeat split; vm_compute; discriminate. Qed.

Lemma Min_wf (x y : spec_float) : wf x -> wf y -> wf (Min x y).
Proof.
  intros Hx Hy. unfold Min.
  assert (Hnx : is_neg_inf x = false) by (destruct x; simpl in *; subst; tauto).
  assert (Hny : is_neg_inf y = false) by (destruct y; simpl in *; subst; tauto).
  assert (Hax : is_nan x = false) by (destruct x; simpl in *; tauto).
  assert (Hay : is_nan y = false) by (destruct y; simpl in *; tauto).
  rewrite Hnx, Hny, Hax, Hay. cbn [orb].
  destruct (F64.eq x (S754_zero false) && F64.eq x y);
    [destruct (signbit x)|destruct (lt x y)]; assumption.
Qed.

(** A number that is not NaN, not negative and not above a finite bound
    is finite. *)
Lemma wf_lt_fin (x b : spec_float) :
  wf x -> fin b -> lt x b = true -> fin x /\ value x < value b.
Proof.
  intros Hx Hb Hlt.
  assert (Hfin : fin x).
  { destruct x as [sx|sx| |sx mx ex]; simpl in *; try tauto.
    subst. destruct b as [sb| | |sb mb eb]; simpl in Hb; try tauto.
    - subst. discriminate.
    - destruct Hb as [-> _]. discriminate. }
  split; [assumption|]. apply SFltb_fin; assumption.
Qed.

Lemma wf_not_gt_fin (x b : spec_float) :
  wf x -> fin b -> gt x b = false -> fin x /\ value x <= value b.
Proof.
  intros Hx Hb Hgt. unfold gt in Hgt.
  assert (Hfin : fin x).
  { destruct x as [sx|sx| |sx mx ex]; simpl in *; try tauto.
    subst. destruct b as [sb| | |sb mb eb]; simpl in Hb; try tauto.
    - subst. discriminate.
    - destruct Hb as [-> _]. discriminate. }
  split; [assumption|].
  destruct (Qlt_le_dec (value b) (value x)) as [Hlt|]; [|assumption].
  apply (SFltb_fin b x Hb Hfin) in Hlt. congruence.
Qed.

End F64Facts.

(** ** The scale factor *)

Lemma calculateScaleFactor_fin (pixels : Z) :
  F64.fin (calculateScaleFactor pixels) /\ (F64.value (calculateScaleFactor pixels) <= 1)%Q.
Proof.
  unfold calculateScaleFactor.
  destruct (pixels >=? 8 * 1024 * 1024); [split; [repeat split | vm_compute; discriminate]|].
  destruct (pixels >=? 4 * 1024 * 1024); [split; [repeat split | vm_compute; discriminate]|].
  destruct (pixels >=? 2 * 1024 * 1024); split; try (vm_compute; discriminate); repeat split.
Qed.

Lemma ratio_wf (a b : Z) :
  0 < a -> a < b -> b < 2 ^ 53 -> F64.wf (F64.div (F64.of_int a) (F64.of_int b)).
Proof.
  intros Ha Hab Hb.
  destruct (F64Facts.of_int_exact a ltac:(lia)) as (ma & ea & -> & _).
  destruct (F64Facts.of_int_exact b ltac:(lia)) as (mb & eb & -> & _).
  apply F64Facts.div_wf.
Qed.

Lemma calculateUserScaleFactor_wf (width height maxWidth maxHeight : Z) :
  0 <= width < 2 ^ 53 -> 0 <= height < 2 ^ 53 ->
  F64.wf (calculateUserScaleFactor width height maxWidth maxHeight).
Proof.
  intros HW HH. unfold calculateUserScaleFactor.
  destruct ((maxWidth <=? 0) && (maxHeight <=? 0)); [repeat split|].
  match goal with
  | |- F64.wf (if F64.gt ?r _ then _ else _) => assert (Hr : F64.wf r)
  end.
  { apply F64Facts.Min_wf.
    - destruct ((maxWidth >? 0) && (width >? maxWidth)) eqn:E; [|repeat split].
      apply andb_true_iff in E. destruct E. apply ratio_wf; lia.
    - destruct ((maxHeight >? 0) && (height >? maxHeight)) eqn:E; [|repeat split].
      apply andb_true_iff in E. destruct E. apply ratio_wf; lia. }
  destruct (F64.gt _ F64.c1_0); [repeat split | exact Hr].
Qed.

Section ScaleFactor.
Context {lib : ImageLib}.

Lemma chooseScaleFactor_fin (width height : Z) (options : ProcessImageOptions) :
  0 <= width < 2 ^ 53 -> 0 <= height < 2 ^ 53 ->
  F64.fin (chooseScaleFactor width height options) /\
  (F64.value (chooseScaleFactor width height options) <= 1)%Q.
Proof.
  intros HW HH. unfold chooseScaleFactor.
  pose proof (calculateScaleFactor_fin (wrap_int (width * height))) as [Hf Hv].
  destruct ((MaxWidth options >? 0) || (MaxHeight options >? 0)); [|auto].
  pose proof (calculateUserScaleFactor_wf width height (MaxWidth options)
                (MaxHeight options) HW HH) as Hu.
  destruct (F64.lt _ (calculateScaleFactor (wrap_int (width * height)))) eqn:E; [|auto].
  destruct (F64Facts.wf_lt_fin _ _ Hu Hf E) as [Hfu Hlt].
  split; [assumption|]. apply Qlt_le_weak. eapply Qlt_le_trans; eassumption.
Qed.

End ScaleFactor.

(** ** The resize loop *)

Section ResizeLoop.
Context {lib : ImageLib}.
Variables (img : Image) (options : ProcessImageOptions) (scaleFactor : spec_float).
Hypothesis width_range : 0 <= Dx img < 2 ^ 53.
Hypothesis height_range : 0 <= Dy img < 2 ^ 53.
Hypothesis scale_fin : F64.fin scaleFactor.
Hypothesis scale_le_1 : (F64.value scaleFactor <= 1)%Q.

(** The target factor of a round: the cap at 1.0 never applies, and the
    target is at most the running factor. *)
Lemma target_factor (c : spec_float) :
  F64.fin c -> (F64.value c <= 1)%Q ->
  let t0 := F64.mul c scaleFactor in
  (if F64.gt t0 F64.c1_0 then F64.c1_0 else t0) = t0 /\
  F64.fin t0 /\ (F64.value t0 <= F64.value c)%Q.
Proof.
  intros Hc Hc1 t0.
  pose proof (F64Facts.fin_value_nonneg c Hc) as Hc0.
  destruct (F64Facts.mul_fin_le c scaleFactor c Hc scale_fin Hc) as [Hf Hv].
  { rewrite <- (Qmult_1_r (F64.value c)) at 2.
    rewrite (Qmult_comm (F64.value c)), (Qmult_comm (F64.value c)).
    apply Qmult_le_compat_r; assumption. }
  fold t0 in Hf, Hv. split; [|auto].
  destruct (F64.gt t0 F64.c1_0) eqn:E; [|reflexivity]. exfalso.
  unfold F64.gt in E.
  apply (F64Facts.SFltb_fin F64.c1_0 t0 ltac:(repeat split) Hf) in E.
  change (F64.value F64.c1_0) with (1 * inject_Z 4503599627370496 * 2 ^ (-52))%Q in E.
  assert (H1 : (1 * inject_Z 4503599627370496 * 2 ^ (-52) == 1)%Q) by reflexivity.
  rewrite H1 in E. lra.
Qed.

(** The new dimension of a round is defined and within the original. *)
Lemma new_dimension (t : spec_float) (n : Z) :
  F64.fin t -> (F64.value t <= 1)%Q -> 0 <= n < 2 ^ 53 ->
  exists k, F64.to_int (F64.mul (F64.of_int n) t) = Some k /\ 0 <= k <= n.
Proof.
  intros Ht Ht1 Hn.
  destruct (F64Facts.of_int_fin n Hn) as [Hf Hv].
  pose proof (F64Facts.fin_value_nonneg _ Hf) as H0.
  destruct (F64Facts.mul_fin_le (F64.of_int n) t (F64.of_int n) Hf Ht Hf) as [Hm Hmv].
  { rewrite <- (Qmult_1_r (F64.value (F64.of_int n))) at 2.
    rewrite (Qmult_comm (F64.value (F64.of_int n))), (Qmult_comm (F64.value (F64.of_int n))).
    apply Qmult_le_compat_r; assumption. }
  apply F64Facts.to_int_le; [assumption| |].
  - rewrite <- Hv. exact Hmv.
  - assert (2 ^ 53 < 2 ^ 63) by reflexivity. lia.
Qed.

(** The running factor of the next round. *)
Lemma next_factor (t b : spec_float) :
  F64.fin t -> F64.fin b -> (F64.value t * F64.value F64.c0_8 <= F64.value b)%Q ->
  F64.fin (F64.mul t F64.c0_8) /\ (F64.value (F64.mul t F64.c0_8) <= F64.value b)%Q.
Proof.
  intros Ht Hb Hle. apply F64Facts.mul_fin_le; auto. repeat split.
Qed.

Lemma next_factor_self (t : spec_float) :
  F64.fin t ->
  F64.fin (F64.mul t F64.c0_8) /\ (F64.value (F64.mul t F64.c0_8) <= F64.value t)%Q.
Proof.
  intros Ht. pose proof (F64Facts.fin_value_nonneg t Ht) as H0.
  apply next_factor; [assumption|assumption|].
  assert (H8 : (F64.value F64.c0_8 <= 1)%Q) by (vm_compute; discriminate).
  rewrite <- (Qmult_1_r (F64.value t)) at 2.
  rewrite (Qmult_comm (F64.value t)), (Qmult_comm (F64.value t)).
  apply Qmult_le_compat_r; assumption.
Qed.

(** What the loop returns is [last] or the encoding of the original image
    resized to dimensions within the original ones; no conversion to [int]
    is ever left open. *)
Lemma resizeLoop_within (fuel : nat) :
  forall (c : spec_float) (last : Encoded),
    F64.fin c -> (F64.value c <= 1)%Q -> within img last ->
    match resizeLoop fuel img options (Dx img) (Dy img) scaleFactor c last with
    | Returned (Ok enc) => within img enc
    | Returned (Err _) => True
    | Unspecified => False
    | OutOfFuel => True
    end.
Proof.
  induction fuel as [|fuel IH]; intros c last Hc Hc1 Hlast; cbn [resizeLoop].
  - destruct (negb (F64.ge c F64.c0_1)); [assumption|exact I].
  - destruct (negb (F64.ge c F64.c0_1)); [assumption|].
    destruct (target_factor c Hc Hc1) as (-> & Ht & Htc).
    set (t := F64.mul c scaleFactor) in *.
    assert (Ht1 : (F64.value t <= 1)%Q) by (apply Qle_trans with (F64.value c); assumption).
    destruct (new_dimension t (Dx img) Ht Ht1 width_range) as (nw & -> & Hnw).
    destruct (new_dimension t (Dy img) Ht Ht1 height_range) as (nh & -> & Hnh).
    destruct (encodeImageWithCompression (imaging_Resize img nw nh) options)
      as [[result ext]|err]; [|exact I].
    assert (Hnew : within img {| enc_bytes := result; enc_ext := ext;
                                 enc_image := imaging_Resize img nw nh |}).
    { right. exists nw, nh. auto. }
    destruct (Strings.len result <=? MaxSizeBytes options); [exact Hnew|].
    destruct (next_factor_self t Ht) as [Hn Hnv].
    apply IH; [assumption| |exact Hnew].
    apply Qle_trans with (F64.value t); assumption.
Qed.






End ResizeLoop.


(** ** The encoder: dimensions, termination, scale factor *)

Section EncoderLoop.
Context {lib : ImageLib}.

Lemma c1_0_start : F64.fin F64.c1_0 /\ (F64.value F64.c1_0 <= 1)%Q.
Proof. split; [repeat split | vm_compute; discriminate]. Qed.

(** C3.  When the input decodes to an image whose sides are below 2^53
    pixels, no conversion of a scaled dimension to [int] is left open, and
    the image [ProcessImage] encodes and returns is the decoded image or
    the decoded image resized to a width and a height that are not negative
    and not above the original ones: the target factor never exceeds 1.
    With a resampler that keeps within the source when asked for
    dimensions within it, the returned image is therefore no wider and no
    higher than the original. *)
Theorem ProcessImage_never_upscales (fuel : nat) (input : Input)
    (options : ProcessImageOptions) (w w1 : World) (img : Image) (hint : string) :
  decodeImage input w = (w1, Ok (img, hint)) ->
  0 <= Dx img < 2 ^ 53 ->
  0 <= Dy img < 2 ^ 53 ->
  (ProcessImage fuel input options w).2 <> Unspecified /\
  (forall enc,
      (ProcessImage fuel input options w).2 = Returned (Ok enc) ->
      within img enc /\
      ((forall nw nh, 0 <= nw <= Dx img -> 0 <= nh <= Dy img ->
                      Dx (imaging_Resize img nw nh) <= Dx img /\
                      Dy (imaging_Resize img nw nh) <= Dy img) ->
       Dx (enc_image enc) <= Dx img /\ Dy (enc_image enc) <= Dy img)).
Proof.
  intros Hd HW HH.
  assert (Hmain : match (ProcessImage fuel input options w).2 with
                  | Returned (Ok enc) => within img enc
                  | Unspecified => False
                  | _ => True
                  end).
  { unfold ProcessImage. rewrite Hd. cbn [snd]. unfold processDecoded.
    destruct (encodeImageWithCompression img _) as [[result ext]|err]; [|exact I].
    destruct (Strings.len result <=? _); [left; reflexivity|].
    destruct (chooseScaleFactor_fin (Dx img) (Dy img) (withDefaults (tempdir w) options)
                HW HH) as [Hs Hs1].
    destruct c1_0_start as [H1 H1v].
    apply resizeLoop_within; auto. left. reflexivity. }
  split.
  - intros E. rewrite E in Hmain. exact Hmain.
  - intros enc E. rewrite E in Hmain. split; [exact Hmain|].
    intros Hres. destruct Hmain as [->|(nw & nh & Hnw & Hnh & ->)]; [lia|].
    apply Hres; assumption.
Qed.


End EncoderLoop.


Lemma ProcessImage_never_upscales_witness :
  (ProcessImage (lib := DimLib.lib) 11 (InBytes "raster 4000x3000") (budget_options 100)
     demo_world).2 <> Unspecified.
Proof.
  apply (ProcessImage_never_upscales (lib := DimLib.lib) 11 (InBytes "raster 4000x3000")
           (budget_options 100) demo_world demo_world (DimLib.image 4000 3000) "unknown").
  - reflexivity.
  - simpl. lia.
  - simpl. lia.
Defined.




(** C2.  The breakpoints of [calculateScaleFactor] are 8, 4 and 2 times
    1024 * 1024 pixels, not decimal millions: at exactly 8,000,000 pixels
    the factor is 0.75, at 4,000,000 it is 0.85 and at 2,000,000 it is 1.00.
    A raster of 4000 by 3000 pixels is above the first breakpoint either
    way: its factor is 0.60, and the first resized candidate is 2400 by
    1800. *)
Theorem calculateScaleFactor_breakpoints :
  (forall pixels,
      calculateScaleFactor pixels
      = if pixels >=? 8388608 then F64.c0_6
        else if pixels >=? 4194304 then F64.c0_75
        else if pixels >=? 2097152 then F64.c0_85
        else F64.c1_0) /\
  calculateScaleFactor 8000000 = F64.c0_75 /\
  calculateScaleFactor 4000000 = F64.c0_85 /\
  calculateScaleFactor 2000000 = F64.c1_0 /\
  calculateScaleFactor (4000 * 3000) = F64.c0_6 /\
  F64.to_int (F64.mul (F64.of_int 4000) F64.c0_6) = Some 2400 /\
  F64.to_int (F64.mul (F64.of_int 3000) F64.c0_6) = Some 1800 /\
  (exists bytes,
      ProcessImage (lib := DimLib.lib) 11 (InBytes "raster 4000x3000") (budget_options 100)
        demo_world
      = (demo_world,
         Returned (Ok {| enc_bytes := bytes; enc_ext := ".png";
                         enc_image := DimLib.image 2400 1800 |}))).
Proof.
  split; [intros pixels; reflexivity|].
  repeat (split; [vm_compute; reflexivity|]).
  exists (DimLib.fill 51). reflexivity.
Qed.

(** * Further properties *)

(** ** Command execution: arguments and outcomes *)

Lemma validateCommandArgs_None (args : list string) :
  validateCommandArgs args = None <->
  Forall (fun arg => dangerousCommandChars arg = false /\
                     dangerousPathChars arg = false /\
                     Strings.len arg <= 4096) args.
Proof.
  induction args as [|arg rest IH]; cbn [validateCommandArgs].
  - split; [constructor | reflexivity].
  - rewrite Forall_cons_iff, <- IH.
    destruct (dangerousCommandChars arg); [intuition discriminate|].
    destruct (dangerousPathChars arg); [intuition discriminate|].
    destruct (Strings.len arg >? 4096) eqn:E; [|intuition lia].
    split; [discriminate | intros ((_ & _ & ?) & _); lia].
Qed.

Lemma validateCommandArgs_app (xs ys : list string) :
  validateCommandArgs xs = None ->
  validateCommandArgs (xs ++ ys)%list = validateCommandArgs ys.
Proof.
  induction xs as [|x xs IH]; [reflexivity|]. cbn [validateCommandArgs app].
  destruct (dangerousCommandChars x); [discriminate|].
  destruct (dangerousPathChars x); [discriminate|].
  destruct (Strings.len x >? 4096); [discriminate|]. exact IH.
Qed.

Lemma dangerousCommandChars_false (s : string) :
  dangerousCommandChars s = false <->
  forall a, In a (list_ascii_of_string s) -> ~ In a dangerousCommandClass.
Proof.
  unfold dangerousCommandChars. rewrite <- not_true_iff_false, ContainsAny_spec.
  split.
  - intros H a Ha Hc. apply H. eauto.
  - intros H (a & Ha & Hc). exact (H a Ha Hc).
Qed.

(** [cmd.Run()]: nothing happens when the name resolves to no executable;
    otherwise the process is recorded, acts on the files, and its status
    decides the error. *)
Lemma cmd_Run_cases name args dir timeout w :
  ((name ∉ lookpath w) /\
   cmd_Run name args dir timeout w = (w, (Some ErrNotExist, timeout <=? 0))) \/
  (name ∈ lookpath w /\ timeout <= 0 /\
   cmd_Run name args dir timeout w = (w, (Some ErrDeadlineExceeded, true))) \/
  (name ∈ lookpath w /\ 0 < timeout /\
   let p := {| proc_name := name; proc_args := args; proc_dir := dir |} in
   (cmd_Run name args dir timeout w).1
   = set_files (behaviour w p (files w)).1 (add_spawned p w) /\
   (cmd_Run name args dir timeout w).2
   = match (behaviour w p (files w)).2 with
     | Exited0 => (None, false)
     | ExitedNonzero => (Some ErrExit, false)
     | TimedOut err => (Some err, true)
     end).
Proof.
  unfold cmd_Run. destruct (decide (name ∈ lookpath w)) as [Hin|Hnin]; [right|left; auto].
  destruct (timeout <=? 0) eqn:Ht; [left|right].
  - split; [assumption|]. split; [lia|reflexivity].
  - split; [assumption|]. split; [lia|]. cbv zeta.
    destruct (behaviour w _ (files w)) as [fs st]. destruct st; split; reflexivity.
Qed.

(** X1.  [safeExecuteCommand] starts a process only with arguments that
    all passed [validateCommandArgs]: none holds a character of the
    metacharacter class, none holds two dots followed by a slash or a
    backslash, none is longer than 4096 bytes.  The arguments are checked
    in order: with a command name that is allowed, the first argument that
    fails is reported, for the first test it fails (metacharacters, then
    traversal, then length), as an error wrapped as invalid arguments, and
    the world is left as it was. *)
Theorem safeExecuteCommand_checks_arguments (cmdName : string) (args : list string)
    (config : SecurityConfig) (w : World) :
  (spawned (safeExecuteCommand cmdName args config w).1 <> spawned w ->
   Forall (fun arg =>
             (forall a, In a (list_ascii_of_string arg) -> ~ In a dangerousCommandClass) /\
             Strings.Contains arg "../" = false /\
             Strings.Contains arg (String "." (String "." (String "092" EmptyString))) = false /\
             Strings.len arg <= 4096) args) /\
  (forall (before after : list string) (arg : string),
      args = (before ++ arg :: after)%list ->
      validateCommandArgs before = None ->
      validateCommandName cmdName config = None ->
      (dangerousCommandChars arg = true ->
       safeExecuteCommand cmdName args config w
       = (w, Some (Wrapf "invalid arguments"
                     (Errorf ("argument contains dangerous characters: " ++ arg))))) /\
      (dangerousCommandChars arg = false -> dangerousPathChars arg = true ->
       safeExecuteCommand cmdName args config w
       = (w, Some (Wrapf "invalid arguments"
                     (Errorf ("argument contains path traversal sequences: " ++ arg))))) /\
      (dangerousCommandChars arg = false -> dangerousPathChars arg = false ->
       4096 < Strings.len arg ->
       safeExecuteCommand cmdName args config w
       = (w, Some (Wrapf "invalid arguments" (Errorf ("argument too long: " ++ arg)))))).
Proof.
  split.
  - intros Hneq.
    destruct (safeExecuteCommand_spawned cmdName args config w) as [H|(_ & Ha & _)];
      [contradiction|].
    apply validateCommandArgs_None in Ha.
    eapply Forall_impl; [exact Ha|]. cbv beta.
    intros arg (Hc & Hp & Hl). pose proof (proj1 (dangerousCommandChars_false arg) Hc) as Hc'.
    unfold dangerousPathChars in Hp. apply orb_false_iff in Hp. tauto.
  - intros before after arg -> Hb Hn.
    unfold safeExecuteCommand. rewrite Hn, (validateCommandArgs_app _ _ Hb).
    cbn [validateCommandArgs].
    repeat split.
    + intros ->. reflexivity.
    + intros -> ->. reflexivity.
    + intros -> -> Hl. replace (Strings.len arg >? 4096) with true by lia. reflexivity.
Qed.

Lemma safeExecuteCommand_checks_arguments_witness :
  Forall (fun arg =>
            (forall a, In a (list_ascii_of_string arg) -> ~ In a dangerousCommandClass) /\
            Strings.Contains arg "../" = false /\
            Strings.Contains arg (String "." (String "." (String "092" EmptyString))) = false /\
            Strings.len arg <= 4096) ["photo.arw"; "out.png"].
Proof.
  apply (safeExecuteCommand_checks_arguments "darktable-cli" ["photo.arw"; "out.png"]
           (DefaultSecurityConfig "/tmp") demo_world).
  vm_compute. discriminate.
Defined.


(** X3.  The default policy allows exactly two commands: under
    [DefaultSecurityConfig], whatever the temporary directory,
    [validateCommandName] accepts darktable-cli and echo and no other
    name.  A process that [safeExecuteCommand] starts under that policy is
    one of the two, and its name resolved to an executable. *)
Theorem DefaultSecurityConfig_allows (tmp cmdName : string) :
  (validateCommandName cmdName (DefaultSecurityConfig tmp) = None <->
   cmdName = "darktable-cli" \/ cmdName = "echo") /\
  (forall (args : list string) (w : World),
      spawned (safeExecuteCommand cmdName args (DefaultSecurityConfig tmp) w).1 <> spawned w ->
      (cmdName = "darktable-cli" \/ cmdName = "echo") /\ cmdName ∈ lookpath w).
Proof.
  assert (H : validateCommandName cmdName (DefaultSecurityConfig tmp) = None <->
              cmdName = "darktable-cli" \/ cmdName = "echo").
  { rewrite validateCommandName_None, map_get_true. cbn [AllowedCommands DefaultSecurityConfig].
    rewrite !lookup_insert_Some, lookup_empty. split.
    - intros [[[<- _]|[_ [[<- _]|[_ E]]]] _]; auto. discriminate.
    - intros [->| ->]; (split; [|reflexivity]); [left|right]; auto. }
  split; [exact H|]. intros args w Hs.
  destruct (safeExecuteCommand_spawned cmdName args (DefaultSecurityConfig tmp) w)
    as [E|(Hn & _ & E)]; [contradiction|].
  split; [apply H; exact Hn|].
  destruct (decide (cmdName ∈ lookpath w)) as [Hin|Hnin]; [exact Hin|]. exfalso.
  apply Hs. unfold safeExecuteCommand. rewrite Hn.
  destruct (validateCommandArgs args); [reflexivity|].
  unfold mbind, IO_bind.
  destruct (cmd_Run_cases cmdName args (AllowedTempDir (DefaultSecurityConfig tmp))
              (CommandTimeout (DefaultSecurityConfig tmp)) w)
    as [[_ ->]|[(Hin & _)|(Hin & _)]]; [reflexivity|contradiction|contradiction].
Qed.

Lemma DefaultSecurityConfig_allows_witness :
  validateCommandName "echo" (DefaultSecurityConfig "/tmp") = None.
Proof.
  destruct (DefaultSecurityConfig_allows "/tmp" "echo") as [H _]. apply H. right. reflexivity.
Defined.

(** ** Lower case *)

Lemma append_assoc (a b c : string) : (a ++ b) ++ c = a ++ b ++ c.
Proof.
  induction a as [|x a IH]; [reflexivity|].
  change ((String x a ++ b) ++ c) with (String x ((a ++ b) ++ c)). rewrite IH. reflexivity.
Qed.




Lemma DecodeRuneInString_width (s : string) :
  s <> "" ->
  (1 <= (Unicode.DecodeRuneInString s).2 <= String.length s)%nat.
Proof.
  intros Hs. destruct s as [|a s1]; [contradiction Hs; reflexivity|].
  cbn [Unicode.DecodeRuneInString String.length].
  destruct (N_of_ascii a <? 128)%N; [cbn; lia|].
  destruct (Unicode.first (N_of_ascii a)) as [[[sz lo] hi]|]; [|cbn; lia].
  destruct s1 as [|b s2]; [cbn; lia|]. cbn [String.length].
  destruct (_ || _)%N; [cbn; lia|].
  destruct (sz =? 2)%N; [cbn; lia|].
  destruct s2 as [|c s3]; [cbn; lia|]. cbn [String.length].
  destruct (Unicode.notCont _); [cbn; lia|].
  destruct (sz =? 3)%N; [cbn; lia|].
  destruct s3 as [|d s4]; [cbn; lia|]. cbn [String.length].
  destruct (Unicode.notCont _); cbn; lia.
Qed.

Lemma drop_length (n : nat) (s : string) :
  String.length (Unicode.drop n s) = (String.length s - n)%nat.
Proof.
  revert s. induction n as [|n IH]; intros [|a s]; cbn [Unicode.drop String.length]; try lia.
  apply IH.
Qed.


Lemma runes_upto_nil (n : nat) : Unicode.runes_upto n "" = [].
Proof. destruct n; reflexivity. Qed.

Lemma runes_upto_fuel (n : nat) :
  forall (m : nat) (s : string),
    (String.length s <= n)%nat -> (String.length s <= m)%nat ->
    Unicode.runes_upto n s = Unicode.runes_upto m s.
Proof.
  induction n as [|n IH]; intros m s Hn Hm.
  - destruct s; [|cbn in Hn; lia]. rewrite !runes_upto_nil. reflexivity.
  - destruct s as [|a s]; [rewrite !runes_upto_nil; reflexivity|].
    destruct m as [|m]; [cbn in Hm; lia|].
    cbn [Unicode.runes_upto].
    pose proof (DecodeRuneInString_width (String a s) ltac:(discriminate)) as Hw.
    destruct (Unicode.DecodeRuneInString (String a s)) as [r width]. cbn [snd] in Hw.
    f_equal. cbn [String.length] in *.
    apply IH; rewrite drop_length; cbn [String.length]; lia.
Qed.

Lemma runes_cons (a : ascii) (s : string) :
  Unicode.runes (String a s)
  = (Unicode.DecodeRuneInString (String a s)).1
      :: Unicode.runes (Unicode.drop (Unicode.DecodeRuneInString (String a s)).2 (String a s)).
Proof.
  unfold Unicode.runes at 1. cbn [String.length Unicode.runes_upto].
  pose proof (DecodeRuneInString_width (String a s) ltac:(discriminate)) as Hw.
  destruct (Unicode.DecodeRuneInString (String a s)) as [r width]. cbn [fst snd] in *.
  f_equal. unfold Unicode.runes. apply runes_upto_fuel; rewrite ?drop_length;
    cbn [String.length] in *; lia.
Qed.





(** Lower-casing a byte below 0x80. *)
Lemma ToLower_cons (a : ascii) (s : string) :
  (N_of_ascii a < 128)%N ->
  Strings.ToLower (String a s)
  = String (ascii_of_N (Unicode.ToLower (N_of_ascii a))) (Strings.ToLower s).
Proof.
  intros Ha. unfold Strings.ToLower, Strings.Map. rewrite runes_cons.
  cbn [Unicode.DecodeRuneInString].
  replace (N_of_ascii a <? 128)%N with true by (symmetry; apply N.ltb_lt; exact Ha).
  cbn [fst snd Unicode.drop fold_right].
  assert (Hl : (Unicode.ToLower (N_of_ascii a) < 128)%N).
  { unfold Unicode.ToLower.
    replace (N_of_ascii a <=? 127)%N with true by (symmetry; apply N.leb_le; lia).
    destruct ((65 <=? N_of_ascii a) && (N_of_ascii a <=? 90))%N eqn:E; [|exact Ha].
    apply andb_true_iff in E. destruct E as [_ E]. apply N.leb_le in E. lia. }
  unfold Unicode.EncodeRune, Unicode.utf8.
  replace (Unicode.ToLower (N_of_ascii a) <? 65536)%N with true
    by (symmetry; apply N.ltb_lt; lia).
  replace ((55296 <=? Unicode.ToLower (N_of_ascii a))
           && (Unicode.ToLower (N_of_ascii a) <=? 57343))%N with false
    by (symmetry; apply andb_false_iff; left; apply N.leb_gt; lia).
  replace (Unicode.ToLower (N_of_ascii a) <? 128)%N with true
    by (symmetry; apply N.ltb_lt; lia).
  reflexivity.
Qed.

(** ** Extensions *)

Lemma SplitByte_cons (sep : ascii) (s : string) :
  exists w ws, Strings.SplitByte sep s = w :: ws.
Proof.
  destruct s as [|a s]; cbn [Strings.SplitByte]; [eauto|].
  destruct (Ascii.eqb a sep); [eauto|].
  destruct (Strings.SplitByte sep s); eauto.
Qed.

Lemma SplitByte_absent (sep : ascii) (s : string) :
  ~ In sep (list_ascii_of_string s) -> Strings.SplitByte sep s = [s].
Proof.
  induction s as [|a s IH]; cbn [Strings.SplitByte list_ascii_of_string]; [reflexivity|].
  intros H. destruct (Ascii.eqb_spec a sep) as [->|Hne].
  - contradiction H. left. reflexivity.
  - rewrite IH; [reflexivity|]. intros Hin. apply H. right. assumption.
Qed.

(** Appending text without separator extends the last piece. *)
Lemma SplitByte_app_last (sep : ascii) (p s : string) :
  ~ In sep (list_ascii_of_string s) ->
  length (Strings.SplitByte sep (p ++ s)) = length (Strings.SplitByte sep p) /\
  List.last (Strings.SplitByte sep (p ++ s)) "" = List.last (Strings.SplitByte sep p) "" ++ s.
Proof.
  intros Hs. induction p as [|a p [IHlen IHlast]].
  - change ("" ++ s) with s. rewrite (SplitByte_absent sep s Hs). split; reflexivity.
  - change (String a p ++ s) with (String a (p ++ s)). cbn [Strings.SplitByte].
    destruct (SplitByte_cons sep (p ++ s)) as (w & ws & E).
    destruct (SplitByte_cons sep p) as (w' & ws' & E').
    rewrite E, E' in *.
    destruct (Ascii.eqb a sep).
    + split; [cbn [length] in *; lia|].
      cbn [List.last]. exact IHlast.
    + split; [cbn [length] in *; lia|].
      destruct ws as [|x ws], ws' as [|x' ws']; try discriminate IHlen.
      * cbn [List.last] in *. rewrite IHlast. reflexivity.
      * exact IHlast.
Qed.

Lemma FromLastByte_None (c : ascii) (s : string) :
  Strings.FromLastByte c s = None <-> ~ In c (list_ascii_of_string s).
Proof.
  induction s as [|a s IH]; cbn [Strings.FromLastByte list_ascii_of_string].
  - split; [intros _ [] | reflexivity].
  - destruct (Strings.FromLastByte c s) as [t|].
    + split; [discriminate|]. intros H. exfalso.
      assert (Hn : ~ In c (list_ascii_of_string s)) by (intros Hin; apply H; right; assumption).
      apply IH in Hn. discriminate.
    + destruct (Ascii.eqb_spec a c) as [->|Hne].
      * split; [discriminate|]. intros H. contradiction H. left. reflexivity.
      * split; [|reflexivity]. intros _ [Heq|Hin]; [congruence|].
        revert Hin. apply IH. reflexivity.
Qed.

Lemma FromLastByte_app (c : ascii) (x e : string) :
  ~ In c (list_ascii_of_string e) ->
  Strings.FromLastByte c (x ++ String c e) = Some (String c e).
Proof.
  intros He. apply FromLastByte_None in He.
  induction x as [|a x IH].
  - change ("" ++ String c e) with (String c e). cbn [Strings.FromLastByte].
    rewrite He, Ascii.eqb_refl. reflexivity.
  - change (String a x ++ String c e) with (String a (x ++ String c e)).
    cbn [Strings.FromLastByte]. rewrite IH. reflexivity.
Qed.

(** The extension of a path that ends with a dot and text without dot or
    slash is that ending. *)
Lemma Ext_app (p e : string) :
  ~ In "."%char (list_ascii_of_string e) -> ~ In "/"%char (list_ascii_of_string e) ->
  Filepath.Ext (p ++ String "." e) = String "." e.
Proof.
  intros Hd Hs. unfold Filepath.Ext.
  destruct (SplitByte_app_last "/" p (String "." e)) as [_ ->].
  - cbn [list_ascii_of_string]. intros [H|H]; [discriminate|contradiction].
  - rewrite FromLastByte_app by assumption. reflexivity.
Qed.

Lemma allowedExts :
  Strings.SplitByte "," AllowedImageExts
  = [".png"; ".jpg"; ".jpeg"; ".webp"; ".tiff"; ".bmp"; ".arw"; ".srf"; ".sr2"].
Proof. reflexivity. Qed.

Lemma validateFileExtension_None (p : string) :
  validateFileExtension p = None <->
  In (Strings.ToLower (Filepath.Ext p))
     [".png"; ".jpg"; ".jpeg"; ".webp"; ".tiff"; ".bmp"; ".arw"; ".srf"; ".sr2"].
Proof.
  unfold validateFileExtension. rewrite allowedExts.
  destruct (existsb _ _) eqn:E.
  - split; [intros _|reflexivity].
    apply existsb_exists in E. destruct E as (x & Hx & Heq).
    apply String.eqb_eq in Heq. subst x. exact Hx.
  - split; [discriminate|]. intros Hin. exfalso.
    assert (H : existsb (String.eqb (Strings.ToLower (Filepath.Ext p)))
                  [".png"; ".jpg"; ".jpeg"; ".webp"; ".tiff"; ".bmp"; ".arw"; ".srf"; ".sr2"]
                = true).
    { apply existsb_exists. eexists. split; [exact Hin|apply String.eqb_refl]. }
    congruence.
Qed.

Lemma validateFileExtension_cases (p : string) :
  validateFileExtension p = None \/
  validateFileExtension p
  = Some (Errorf ("file extension not allowed: " ++ Strings.ToLower (Filepath.Ext p))).
Proof.
  unfold validateFileExtension. destruct (existsb _ _); [left|right]; reflexivity.
Qed.

(** X4.  [validateFileExtension] accepts a path exactly when the
    lower-case form of its [filepath.Ext] is one of the nine entries of
    [AllowedImageExts]; otherwise the error names that lower-case
    extension.  So a path that ends with a dot and text without dot or
    slash is accepted exactly when the text, lower-cased, is one of png,
    jpg, jpeg, webp, tiff, bmp, arw, srf, sr2, whatever comes before; and a
    path whose last element has no dot is refused with an empty extension
    in the message.  The lower-casing is that of [strings.ToLower], over
    all of Unicode: photo.TIFF is accepted, and so is photo.t\u0130ff,
    whose capital I with a dot above is lower-cased to i. *)
Theorem validateFileExtension_allow_list :
  (forall p : string,
      validateFileExtension p = None <->
      In (Strings.ToLower (Filepath.Ext p))
         [".png"; ".jpg"; ".jpeg"; ".webp"; ".tiff"; ".bmp"; ".arw"; ".srf"; ".sr2"]) /\
  (forall p : string,
      validateFileExtension p <> None ->
      validateFileExtension p
      = Some (Errorf ("file extension not allowed: " ++ Strings.ToLower (Filepath.Ext p)))) /\
  (forall p e : string,
      ~ In "."%char (list_ascii_of_string e) -> ~ In "/"%char (list_ascii_of_string e) ->
      (validateFileExtension (p ++ String "." e) = None <->
       In (Strings.ToLower e)
          ["png"; "jpg"; "jpeg"; "webp"; "tiff"; "bmp"; "arw"; "srf"; "sr2"])) /\
  (forall p : string,
      ~ In "."%char (list_ascii_of_string (List.last (Strings.SplitByte "/" p) "")) ->
      validateFileExtension p = Some (Errorf "file extension not allowed: ")) /\
  validateFileExtension "photo.TIFF" = None /\
  validateFileExtension ("photo.t" ++ Unicode.EncodeRune 304 ++ "ff") = None /\
  validateFileExtension "photo.gif" = Some (Errorf "file extension not allowed: .gif").
Proof.
  split; [exact validateFileExtension_None|]. split; [|split; [|split]].
  - intros p H. destruct (validateFileExtension_cases p) as [E|E]; [contradiction|exact E].
  - intros p e Hd Hs. rewrite validateFileExtension_None, (Ext_app p e Hd Hs).
    rewrite (ToLower_cons "." e) by reflexivity.
    change (ascii_of_N (Unicode.ToLower (N_of_ascii "."))) with "."%char.
    change [".png"; ".jpg"; ".jpeg"; ".webp"; ".tiff"; ".bmp"; ".arw"; ".srf"; ".sr2"]
      with (map (String ".") ["png"; "jpg"; "jpeg"; "webp"; "tiff"; "bmp"; "arw"; "srf"; "sr2"]).
    split; [|apply in_map].
    rewrite in_map_iff. intros (y & [= ->] & H). exact H.
  - intros p H. apply FromLastByte_None in H.
    unfold validateFileExtension, Filepath.Ext. rewrite H. vm_compute. reflexivity.
  - repeat split; vm_compute; reflexivity.
Qed.

Lemma validateFileExtension_allow_list_witness :
  validateFileExtension ("shots/2024.d/IMG_0001" ++ String "." "JPeG") = None.
Proof.
  destruct validateFileExtension_allow_list as (_ & _ & H & _).
  apply (H "shots/2024.d/IMG_0001" "JPeG").
  - vm_compute. intuition discriminate.
  - vm_compute. intuition discriminate.
  - vm_compute. tauto.
Defined.

(** A dot in the last element of a path is the last dot of the path. *)
Lemma FromLastByte_last_piece (p t : string) :
  Strings.FromLastByte "." (List.last (Strings.SplitByte "/" p) "") = Some t ->
  Strings.FromLastByte "." p = Some t.
Proof.
  induction p as [|a p IH]; cbn [Strings.SplitByte]; [discriminate|].
  destruct (SplitByte_cons "/" p) as (w & ws & E). rewrite E in *.
  destruct (Ascii.eqb_spec a "/") as [->|Hne].
  - cbn [List.last]. intros H. cbn [Strings.FromLastByte]. rewrite (IH H). reflexivity.
  - destruct ws as [|x ws].
    + assert (Hw : w = p).
      { clear -E. revert w E. induction p as [|b p IH]; cbn [Strings.SplitByte].
        - intros w [= <-]. reflexivity.
        - destruct (Ascii.eqb b "/"); [destruct (SplitByte_cons "/" p) as (? & ? & ->);
                                       discriminate|].
          destruct (Strings.SplitByte "/" p) as [|w' ws'] eqn:E'; intros w [= <-].
          + destruct (SplitByte_cons "/" p) as (? & ? & ?). congruence.
          + intros. f_equal. apply IH. congruence. }
      subst w. cbn [List.last]. tauto.
    + cbn [List.last] in *. intros H. cbn [Strings.FromLastByte]. rewrite (IH H). reflexivity.
Qed.

Lemma extractExt_Ext (c : string) :
  Filepath.Ext c <> "" -> extractExt c = Some (Strings.ToLower (Filepath.Ext c)).
Proof.
  unfold Filepath.Ext, extractExt.
  destruct (Strings.FromLastByte "." (List.last (Strings.SplitByte "/" c) "")) as [t|] eqn:E;
    [|intros H; contradiction H; reflexivity].
  intros _. rewrite (FromLastByte_last_piece c t E). reflexivity.
Qed.

(** X5.  [extractExt] slices the name from its last dot and has no result
    (the slice panics) exactly when the name holds no dot.  On every path
    that [validateFileExtension] accepted, and on every path whose
    [filepath.Ext] is not empty, it has a result: the lower-case form of
    [filepath.Ext].  The two differ on a path whose last dot is in a
    directory name: shots.d/raw has the empty extension for
    [filepath.Ext] and .d/raw for [extractExt]. *)
Theorem extractExt_after_validation :
  (forall c : string,
      validateFileExtension c = None ->
      extractExt c = Some (Strings.ToLower (Filepath.Ext c))) /\
  (forall c : string, extractExt c = None <-> ~ In "."%char (list_ascii_of_string c)) /\
  (forall c : string, Filepath.Ext c <> "" ->
      extractExt c = Some (Strings.ToLower (Filepath.Ext c))) /\
  Filepath.Ext "shots.d/raw" = "" /\ extractExt "shots.d/raw" = Some ".d/raw".
Proof.
  split; [|split; [|split; [exact extractExt_Ext|split; reflexivity]]].
  - intros c H. apply extractExt_Ext. apply validateFileExtension_None in H.
    intros E. rewrite E in H. cbn in H. intuition discriminate.
  - intros c. rewrite <- FromLastByte_None. unfold extractExt.
    destruct (Strings.FromLastByte "." c); cbn; intuition discriminate.
Qed.

Lemma extractExt_after_validation_witness :
  extractExt "shots/IMG_0001.ARW" = Some (Strings.ToLower (Filepath.Ext "shots/IMG_0001.ARW")).
Proof.
  destruct extractExt_after_validation as (H & _).
  apply (H "shots/IMG_0001.ARW"). reflexivity.
Defined.

(** ** Validation of a RAW file *)

Lemma ValidateARWFile_world (arwPath : string) (w : World) :
  (ValidateARWFile arwPath w).1 = w.
Proof.
  unfold ValidateARWFile.
  destruct (validateFilePath arwPath _) as [c|]; [|reflexivity].
  destruct (validateFileExtension c); [reflexivity|].
  unfold validateFileSize, mbind, IO_bind, os_Stat, os_ReadFile, mret, IO_ret.
  destruct (files w !! c) as [f|] eqn:Hf; [|reflexivity].
  destruct (file_Size f >? MaxFileSize); [reflexivity|]. cbv beta iota.
  rewrite Hf. cbv beta iota.
  destruct (file_Size f =? 0); [reflexivity|].
  destruct (negb _ && negb _ && negb _); [reflexivity|].
  rewrite Hf. cbv beta iota.
  destruct (negb (isValidARW _)); reflexivity.
Qed.

(** X6.  [ValidateARWFile] changes nothing, and it returns nil exactly
    when the path is accepted by [validateFilePath], the lower-case
    extension of the cleaned path is .arw, .srf or .sr2, the file exists,
    is not empty and not larger than [MaxFileSize], and its first 512
    bytes hold ARW, SONY or the four bytes 0, 0, 0, 24 followed by
    FTYP. *)
Theorem ValidateARWFile_accepts (arwPath : string) (w : World) :
  (ValidateARWFile arwPath w).1 = w /\
  ((ValidateARWFile arwPath w).2 = None <->
   exists (c : string) (f : File),
     validateFilePath arwPath (DefaultSecurityConfig (tempdir w)) = Ok c /\
     In (Strings.ToLower (Filepath.Ext c)) [".arw"; ".srf"; ".sr2"] /\
     files w !! c = Some f /\
     0 < file_Size f <= MaxFileSize /\
     isValidARW (String.substring 0 512 (f_data f)) = true).
Proof.
  split; [apply ValidateARWFile_world|].
  unfold ValidateARWFile.
  destruct (validateFilePath arwPath _) as [c|e] eqn:Hp.
  2:{ split; [discriminate|]. intros (c & f & [=] & _). }
  destruct (validateFileExtension_cases c) as [Hext|Hext]; rewrite Hext.
  2:{ split; [discriminate|]. intros (c' & f & [= <-] & Hin & _). exfalso.
      assert (Hv : validateFileExtension c = None).
      { apply validateFileExtension_None. cbn [In] in *. intuition auto. }
      congruence. }
  pose proof (proj1 (validateFileExtension_None c) Hext) as Hnine.
  assert (Hne : Filepath.Ext c <> "").
  { intros E. rewrite E in Hnine. cbn in Hnine. intuition discriminate. }
  pose proof (extractExt_Ext c Hne) as Hx.
  unfold validateFileSize, mbind, IO_bind, os_Stat, os_ReadFile, mret, IO_ret.
  destruct (files w !! c) as [f|] eqn:Hf.
  2:{ split; [discriminate|]. intros (c' & f & [= <-] & _ & Hf' & _). congruence. }
  destruct (file_Size f >? MaxFileSize) eqn:Hmax; cbv beta iota.
  { split; [discriminate|]. intros (c' & f' & [= <-] & _ & Hf' & Hsz & _).
    assert (f' = f) by congruence. subst f'. lia. }
  rewrite Hf. cbv beta iota.
  destruct (file_Size f =? 0) eqn:Hz.
  { split; [discriminate|]. intros (c' & f' & [= <-] & _ & Hf' & Hsz & _).
    assert (f' = f) by congruence. subst f'. lia. }
  rewrite Hx. change (default "" (Some ?x)) with x.
  remember (Strings.ToLower (Filepath.Ext c)) as ext eqn:Eext.
  destruct (negb (String.eqb ext ".arw") && negb (String.eqb ext ".srf")
            && negb (String.eqb ext ".sr2")) eqn:Hthree.
  { split; [discriminate|]. intros (c' & f' & [= <-] & Hin & _). exfalso.
    rewrite <- Eext in Hin. cbn [In] in Hin. clear Eext.
    destruct Hin as [<-|[<-|[<-|[]]]]; discriminate Hthree. }
  rewrite Hf. cbv beta iota.
  destruct (isValidARW (String.substring 0 512 (f_data f))) eqn:Hhdr; cbn [negb].
  - split; [intros _|reflexivity]. exists c, f.
    pose proof (len_nonneg (f_data f)) as Hlen. fold (file_Size f) in Hlen.
    split; [reflexivity|]. split; [|split; [assumption|split; [lia|assumption]]].
    rewrite <- Eext. cbn [In].
    destruct (String.eqb_spec ext ".arw") as [E1|]; [rewrite E1; auto|].
    destruct (String.eqb_spec ext ".srf") as [E2|]; [rewrite E2; auto|].
    destruct (String.eqb_spec ext ".sr2") as [E3|]; [rewrite E3; auto|]. discriminate Hthree.
  - split; [discriminate|]. intros (c' & f' & [= <-] & _ & Hf' & _ & Hh).
    assert (f' = f) by congruence. subst f'. congruence.
Qed.

(** ** Cleaning a path twice *)

Lemma SplitByte_no_sep (sep : ascii) (s : string) :
  Forall (fun el => ~ In sep (list_ascii_of_string el)) (Strings.SplitByte sep s).
Proof.
  induction s as [|a s IH]; cbn [Strings.SplitByte].
  - constructor; [intros []|constructor].
  - destruct (Ascii.eqb_spec a sep) as [->|Hne].
    + constructor; [intros []|exact IH].
    + destruct (Strings.SplitByte sep s) as [|w ws]; [constructor; [|constructor]|].
      * cbn. intros [H|[]]. congruence.
      * inversion IH as [|? ? Hw Hws]; subst. constructor; [|assumption].
        cbn [list_ascii_of_string]. intros [H|H]; [congruence|contradiction].
Qed.

Lemma SplitByte_app_sep (sep : ascii) (w rest : string) :
  ~ In sep (list_ascii_of_string w) ->
  Strings.SplitByte sep (w ++ String sep rest) = w :: Strings.SplitByte sep rest.
Proof.
  induction w as [|a w IH]; intros Hw.
  - change ("" ++ String sep rest) with (String sep rest). cbn [Strings.SplitByte].
    rewrite Ascii.eqb_refl. reflexivity.
  - change (String a w ++ String sep rest) with (String a (w ++ String sep rest)).
    cbn [Strings.SplitByte]. cbn [list_ascii_of_string] in Hw.
    destruct (Ascii.eqb_spec a sep) as [->|Hne]; [contradiction Hw; left; reflexivity|].
    rewrite IH by (intros H; apply Hw; right; exact H). reflexivity.
Qed.

Lemma SplitByte_Join (sep : ascii) (els : list string) :
  els <> [] ->
  Forall (fun el => ~ In sep (list_ascii_of_string el)) els ->
  Strings.SplitByte sep (Strings.Join els (String sep "")) = els.
Proof.
  induction els as [|w ws IH]; [intros H; contradiction H; reflexivity|].
  intros _ Hall. inversion Hall as [|? ? Hw Hws]; subst.
  destruct ws as [|x ws].
  - cbn [Strings.Join]. apply SplitByte_absent. assumption.
  - change (Strings.Join (w :: x :: ws) (String sep ""))
      with (w ++ String sep "" ++ Strings.Join (x :: ws) (String sep "")).
    change (String sep "" ++ Strings.Join (x :: ws) (String sep ""))
      with (String sep (Strings.Join (x :: ws) (String sep ""))).
    rewrite SplitByte_app_sep by assumption. f_equal. apply IH; [discriminate|assumption].
Qed.

Lemma clean_step_plain (rooted : bool) (kept : list string) (el : string) :
  plain_element el -> Filepath.clean_step rooted kept el = el :: kept.
Proof.
  intros (H1 & H2 & H3 & _). unfold Filepath.clean_step, Filepath.is_dotdot.
  apply String.eqb_neq in H1, H2, H3. rewrite H1, H2, H3. reflexivity.
Qed.

Lemma clean_step_shape (rooted : bool) (kept : list string) (el : string) :
  ~ In "/"%char (list_ascii_of_string el) ->
  kept_shape rooted kept -> kept_shape rooted (Filepath.clean_step rooted kept el).
Proof.
  intros Hs (names & dotdots & -> & Hn & Hd & Hr).
  unfold Filepath.clean_step, Filepath.is_dotdot.
  destruct (String.eqb_spec el "") as [->|H1]; [exists names, dotdots; auto|].
  destruct (String.eqb_spec el ".") as [->|H2]; [exists names, dotdots; auto|].
  cbn [orb].
  destruct (String.eqb_spec el "..") as [->|H3].
  - destruct names as [|x names].
    + destruct dotdots as [|d dotdots]; cbn [app].
      * destruct rooted; [exists [], []; auto|].
        exists [], [".."]. repeat split; auto. discriminate.
      * inversion Hd as [|? ? Hd1 Hd2]; subst. cbn [String.eqb Ascii.eqb Bool.eqb].
        change ((".." =? "..")%string) with true. cbv iota.
        destruct rooted; [specialize (Hr eq_refl); discriminate|].
        exists [], (".." :: ".." :: dotdots). repeat split; auto. discriminate.
    + inversion Hn as [|? ? Hx Hxs]; subst. cbn [app].
      destruct Hx as (_ & _ & Hx & _). apply String.eqb_neq in Hx. rewrite Hx.
      exists names, dotdots. auto.
  - exists (el :: names), dotdots. repeat split; auto.
    constructor; [repeat split; assumption|assumption].
Qed.

Lemma fold_clean_step_shape (rooted : bool) (els kept : list string) :
  Forall (fun el => ~ In "/"%char (list_ascii_of_string el)) els ->
  kept_shape rooted kept ->
  kept_shape rooted (fold_left (Filepath.clean_step rooted) els kept).
Proof.
  revert kept. induction els as [|el els IH]; intros kept Hall Hk; [exact Hk|].
  inversion Hall; subst. cbn [fold_left]. apply IH; [assumption|].
  apply clean_step_shape; assumption.
Qed.

Lemma fold_clean_step_plain (rooted : bool) (els kept : list string) :
  Forall plain_element els ->
  fold_left (Filepath.clean_step rooted) els kept = (rev els ++ kept)%list.
Proof.
  revert kept. induction els as [|el els IH]; intros kept Hall; [reflexivity|].
  inversion Hall; subst. cbn [fold_left rev].
  rewrite clean_step_plain by assumption. rewrite IH by assumption.
  rewrite <- app_assoc. reflexivity.
Qed.

Lemma fold_clean_step_dotdots (els kept : list string) :
  Forall (eq "..") els -> Forall (eq "..") kept ->
  fold_left (Filepath.clean_step false) els kept = (rev els ++ kept)%list.
Proof.
  revert kept. induction els as [|el els IH]; intros kept Hall Hk; [reflexivity|].
  inversion Hall as [|? ? <- Hels]; subst. cbn [fold_left rev].
  assert (Hstep : Filepath.clean_step false kept ".." = ".." :: kept).
  { destruct kept as [|top rest]; [reflexivity|].
    inversion Hk as [|? ? <- ?]; subst. reflexivity. }
  rewrite Hstep, IH; [|assumption|constructor; [reflexivity|assumption]].
  rewrite <- app_assoc. reflexivity.
Qed.

Lemma Forall_plain_no_sep (els : list string) :
  Forall plain_element els ->
  Forall (fun el => ~ In "/"%char (list_ascii_of_string el)) els.
Proof.
  intros Hall. eapply Forall_impl; [exact Hall|]. intros el (_ & _ & _ & H). exact H.
Qed.

Lemma Forall_dotdot_no_sep (els : list string) :
  Forall (eq "..") els ->
  Forall (fun el => ~ In "/"%char (list_ascii_of_string el)) els.
Proof.
  intros Hall. eapply Forall_impl; [exact Hall|].
  intros el <-. cbn. intros [H|[H|[]]]; discriminate.
Qed.

(** Cleaning the elements of a cleaned path keeps all of them. *)
Lemma fold_clean_step_rev (rooted : bool) (kept : list string) :
  kept_shape rooted kept ->
  fold_left (Filepath.clean_step rooted) (rev kept) [] = kept.
Proof.
  intros (names & dotdots & -> & Hn & Hd & Hr).
  rewrite rev_app_distr, fold_left_app.
  destruct rooted.
  - rewrite (Hr eq_refl). cbn [rev fold_left].
    rewrite fold_clean_step_plain by (apply List.Forall_rev; assumption).
    rewrite rev_involutive. reflexivity.
  - rewrite (fold_clean_step_dotdots (rev dotdots) []);
      [|apply List.Forall_rev; assumption|constructor].
    rewrite fold_clean_step_plain by (apply List.Forall_rev; assumption).
    rewrite !rev_involutive, app_nil_r. reflexivity.
Qed.

Lemma Join_head (x : string) (xs : list string) (sep : string) :
  exists rest, Strings.Join (x :: xs) sep = x ++ rest.
Proof.
  destruct xs as [|y ys]; cbn [Strings.Join].
  - exists "". symmetry. clear. induction x as [|a x IH]; [reflexivity|].
    change (String a x ++ "") with (String a (x ++ "")). rewrite IH. reflexivity.
  - eauto.
Qed.

Lemma kept_shape_head (rooted : bool) (kept : list string) (x : string) (xs : list string) :
  kept_shape rooted kept -> rev kept = x :: xs ->
  exists a t, x = String a t /\ a <> "/"%char.
Proof.
  intros (names & dotdots & -> & Hn & Hd & _) E.
  assert (Hin : In x (names ++ dotdots)%list).
  { apply in_rev. rewrite E. left. reflexivity. }
  apply in_app_or in Hin. destruct Hin as [Hin|Hin].
  - rewrite List.Forall_forall in Hn. destruct (Hn x Hin) as (H1 & _ & _ & Hs).
    destruct x as [|a t]; [contradiction H1; reflexivity|].
    exists a, t. split; [reflexivity|]. intros ->. apply Hs. left. reflexivity.
  - rewrite List.Forall_forall in Hd. rewrite <- (Hd x Hin).
    exists "."%char, ".". split; [reflexivity|discriminate].
Qed.

Lemma kept_shape_no_sep (rooted : bool) (kept : list string) :
  kept_shape rooted kept ->
  Forall (fun el => ~ In "/"%char (list_ascii_of_string el)) (rev kept).
Proof.
  intros (names & dotdots & -> & Hn & Hd & _). apply List.Forall_rev, Forall_app.
  split; [apply Forall_plain_no_sep|apply Forall_dotdot_no_sep]; assumption.
Qed.

Lemma Clean_idempotent (p : string) : Filepath.Clean (Filepath.Clean p) = Filepath.Clean p.
Proof.
  destruct (String.eqb_spec p "") as [->|Hp]; [reflexivity|].
  set (rooted := Strings.HasPrefix p "/").
  set (kept := fold_left (Filepath.clean_step rooted) (Strings.SplitByte "/" p) []).
  assert (HC : Filepath.Clean p
               = if rooted then "/" ++ Strings.Join (rev kept) "/"
                 else if (Strings.Join (rev kept) "/" =? "")%string then "."
                      else Strings.Join (rev kept) "/").
  { unfold Filepath.Clean. apply String.eqb_neq in Hp. rewrite Hp. reflexivity. }
  rewrite HC. clear HC.
  assert (Hk : kept_shape rooted kept).
  { apply fold_clean_step_shape; [apply SplitByte_no_sep|].
    exists [], []. repeat split; auto. }
  pose proof (kept_shape_no_sep rooted kept Hk) as Hns.
  pose proof (fold_clean_step_rev rooted kept Hk) as Hfold.
  clearbody kept. clearbody rooted.
  destruct (rev kept) as [|x xs] eqn:Erev.
  - (* nothing is kept *)
    cbn [Strings.Join]. destruct rooted; reflexivity.
  - destruct (kept_shape_head rooted kept x xs Hk Erev) as (a & t & Hx & Ha).
    destruct (Join_head x xs "/") as (rest & Hj).
    assert (Hsplit : Strings.SplitByte "/" (Strings.Join (x :: xs) "/") = x :: xs).
    { apply SplitByte_Join; [discriminate|assumption]. }
    destruct rooted.
    + unfold Filepath.Clean.
      change ("/" ++ Strings.Join (x :: xs) "/") with (String "/" (Strings.Join (x :: xs) "/")).
      change (String "/" (Strings.Join (x :: xs) "/") =? "")%string with false. cbv iota.
      change (Strings.HasPrefix (String "/" (Strings.Join (x :: xs) "/")) "/")
        with (Strings.HasPrefix (Strings.Join (x :: xs) "/") "").
      rewrite HasPrefix_empty. cbv zeta iota.
      change (Strings.SplitByte "/" (String "/" (Strings.Join (x :: xs) "/")))
        with ("" :: Strings.SplitByte "/" (Strings.Join (x :: xs) "/")).
      rewrite Hsplit.
      change (fold_left (Filepath.clean_step true) ("" :: x :: xs) [])
        with (fold_left (Filepath.clean_step true) (x :: xs) []).
      rewrite Hfold, Erev. reflexivity.
    + assert (Hne : (Strings.Join (x :: xs) "/" =? "")%string = false).
      { rewrite Hj, Hx. reflexivity. }
      rewrite Hne. unfold Filepath.Clean. rewrite Hne.
      assert (Hrel : Strings.HasPrefix (Strings.Join (x :: xs) "/") "/" = false).
      { rewrite Hj, Hx. change (String a t ++ rest) with (String a (t ++ rest)).
        cbn [Strings.HasPrefix].
        destruct (Ascii.eqb_spec a "/"); [contradiction|reflexivity]. }
      rewrite Hrel. cbv zeta iota. rewrite Hsplit, Hfold, Erev, Hne. reflexivity.
Qed.

Lemma validateFilePath_again (p c : string) (config config' : SecurityConfig) :
  validateFilePath p config = Ok c -> validateFilePath c config' = Ok c.
Proof.
  intros H. apply validateFilePath_Ok in H. destruct H as (-> & H1 & H2 & H3 & H4).
  apply validateFilePath_Ok. rewrite Clean_idempotent. auto.
Qed.

(** X7.  [filepath.Clean] is idempotent, so a path that [validateFilePath]
    returned is accepted again, unchanged, by [validateFilePath] under any
    configuration: the cleaned path can be validated a second time by
    [buildDarktableArgs] without a new failure. *)
Theorem validateFilePath_idempotent :
  (forall p : string, Filepath.Clean (Filepath.Clean p) = Filepath.Clean p) /\
  (forall (p c : string) (config config' : SecurityConfig),
      validateFilePath p config = Ok c -> validateFilePath c config' = Ok c).
Proof.
  split; [exact Clean_idempotent|exact validateFilePath_again].
Qed.

Lemma validateFilePath_idempotent_witness :
  validateFilePath "shots/./2024//IMG_0001.ARW" (DefaultSecurityConfig "/tmp")
  = Ok "shots/2024/IMG_0001.ARW" /\
  validateFilePath "shots/2024/IMG_0001.ARW" (DefaultSecurityConfig "/var/tmp")
  = Ok "shots/2024/IMG_0001.ARW".
Proof.
  split; [reflexivity|].
  destruct validateFilePath_idempotent as [_ H].
  apply (H "shots/./2024//IMG_0001.ARW" _ (DefaultSecurityConfig "/tmp")). reflexivity.
Defined.

(** ** RAW conversion: the arguments of the converter *)

Lemma validateFilePath_abs (p : string) (config : SecurityConfig) :
  Filepath.IsAbs p = true -> exists err, validateFilePath p config = Err err.
Proof.
  intros H. destruct (validateFilePath p config) as [c|err] eqn:E; [|eauto].
  apply validateFilePath_Ok in E. destruct E as (-> & _ & Habs & _).
  apply Clean_IsAbs in H. congruence.
Qed.

Lemma fresh_name_Some (fs : gmap string File) (prefix suffix : string) (rs rs' : list string)
    (name : string) :
  fresh_name fs prefix suffix rs = Some (name, rs') ->
  fs !! name = None /\ exists r, In r rs /\ name = prefix ++ r ++ suffix.
Proof.
  induction rs as [|r rs IH]; cbn [fresh_name]; [discriminate|].
  destruct (fs !! (prefix ++ r ++ suffix)) eqn:E.
  - intros H. destruct (IH H) as (Hn & r' & Hin & ->). split; [assumption|].
    exists r'. split; [right; assumption|reflexivity].
  - intros [= <- <-]. split; [assumption|]. exists r. split; [left|]; reflexivity.
Qed.

(** The name of a file made by [secureCreateTempFile]: the directory of
    the configuration (the system's when that is empty), the prefix of the
    pattern, a random string and the suffix of the pattern. *)
Lemma secureCreateTempFile_name (pattern : string) (config : SecurityConfig)
    (w w1 : World) (path : string) :
  secureCreateTempFile pattern config w = (w1, Ok path) ->
  exists prefix suffix r,
    prefixAndSuffix pattern = Ok (prefix, suffix) /\ In r (randoms w) /\
    path = joinPath (if String.eqb (AllowedTempDir config) "" then tempdir w
                     else AllowedTempDir config) prefix ++ r ++ suffix.
Proof.
  unfold secureCreateTempFile, mbind, IO_bind, os_CreateTemp.
  destruct (prefixAndSuffix pattern) as [[prefix suffix]|e]; [|discriminate].
  set (dir := if (AllowedTempDir config =? "")%string then tempdir w else AllowedTempDir config).
  destruct (fresh_name (files w) (joinPath dir prefix) suffix (randoms w))
    as [[name rs]|] eqn:Hf; [|discriminate].
  apply fresh_name_Some in Hf. destruct Hf as (Hnew & r & Hin & ->).
  unfold file_Chmod. cbn [files set_files set_randoms locked]. rewrite lookup_insert_eq.
  destruct (decide (_ ∈ locked w)).
  - unfold os_Remove. cbn [files set_files set_randoms locked]. rewrite lookup_insert_eq.
    destruct (decide (_ ∈ locked w)); discriminate.
  - intros [= _ <-]. exists prefix, suffix, r. auto.
Qed.

Lemma HasPrefix_app (s t p : string) :
  Strings.HasPrefix s p = true -> Strings.HasPrefix (s ++ t) p = true.
Proof.
  revert s. induction p as [|b p IH]; intros s; [intros _; apply HasPrefix_empty|].
  destruct s as [|a s]; [discriminate|].
  change (String a s ++ t) with (String a (s ++ t)). cbn [Strings.HasPrefix].
  destruct (Ascii.eqb a b); [apply IH|discriminate].
Qed.

Lemma joinPath_abs (dir name rest : string) :
  Filepath.IsAbs dir = true -> Filepath.IsAbs (joinPath dir name ++ rest) = true.
Proof.
  unfold Filepath.IsAbs, joinPath. intros H.
  destruct (Strings.HasSuffix dir "/"); repeat apply HasPrefix_app; assumption.
Qed.

(** What [buildDarktableArgs] returns when it returns arguments. *)
Lemma buildDarktableArgs_Ok (tmp inputPath outputPath : string) (options : ARWProcessOptions)
    (args : list string) :
  buildDarktableArgs tmp inputPath outputPath options = Ok args ->
  is_ok (validateFilePath inputPath (DefaultSecurityConfig tmp)) = true /\
  is_ok (validateFilePath outputPath (DefaultSecurityConfig tmp)) = true /\
  offending_field options = None /\
  exists colorSpaceID wbMode,
    colorSpaceMap !! ColorSpace options = Some colorSpaceID /\
    wbMap !! WhiteBalance options = Some wbMode /\
    args = [ inputPath; outputPath;
             "--core"; "--conf";
             "plugins/imageio/format/png/bpp=" ++ Strings.Itoa (Bitness options);
             "--core"; "--conf";
             "plugins/imageio/format/png/compression=" ++ Strings.Itoa (Compression options);
             "--core"; "--conf"; "plugins/lighttable/export/colorspace=" ++ colorSpaceID;
             "--core"; "--conf"; "plugins/lighttable/export/wb=" ++ wbMode;
             "--hq"; "--upscale";
             "--conf"; "plugins/lighttable/export/overwrite=true" ].
Proof.
  intros H.
  assert (Hoff : offending_field options = None).
  { destruct (offending_field options) as [field|] eqn:E; [|reflexivity].
    destruct (buildDarktableArgs_offending_Err tmp inputPath outputPath options field E)
      as (err & E'). congruence. }
  revert H. unfold buildDarktableArgs.
  destruct (validateFilePath inputPath _); [|discriminate].
  destruct (validateFilePath outputPath _); [|discriminate].
  destruct (negb (Bitness options =? 8) && negb (Bitness options =? 16)); [discriminate|].
  destruct ((Compression options <? 0) || (Compression options >? 9)); [discriminate|].
  destruct (colorSpaceMap !! ColorSpace options) as [cid|]; [|discriminate].
  destruct (wbMap !! WhiteBalance options) as [wid|]; [|discriminate].
  intros [= <-]. repeat split; auto. exists cid, wid. auto.
Qed.

Lemma safeExecuteDarktableCommand_spawned (inputPath outputPath : string)
    (options : ARWProcessOptions) (w : World) :
  spawned (safeExecuteDarktableCommand inputPath outputPath options w).1 = spawned w \/
  exists args,
    buildDarktableArgs (tempdir w) inputPath outputPath options = Ok args /\
    validateCommandArgs args = None /\
    spawned (safeExecuteDarktableCommand inputPath outputPath options w).1
    = {| proc_name := "darktable-cli"; proc_args := args; proc_dir := tempdir w |}
        :: spawned w.
Proof.
  unfold safeExecuteDarktableCommand.
  destruct (buildDarktableArgs (tempdir w) inputPath outputPath options) as [args|err];
    [|left; reflexivity].
  destruct (safeExecuteCommand_spawned "darktable-cli" args
              (DefaultSecurityConfig (tempdir w)) w) as [H|(_ & Ha & H)]; [left; exact H|].
  right. exists args. auto.
Qed.

(** When [safeExecuteCommand] returns no error, the process was started
    and exited with status 0. *)
Lemma safeExecuteCommand_None (cmdName : string) (args : list string)
    (config : SecurityConfig) (w w' : World) :
  safeExecuteCommand cmdName args config w = (w', None) ->
  let p := {| proc_name := cmdName; proc_args := args; proc_dir := AllowedTempDir config |} in
  validateCommandName cmdName config = None /\ validateCommandArgs args = None /\
  cmdName ∈ lookpath w /\
  w' = set_files (behaviour w p (files w)).1 (add_spawned p w) /\
  (behaviour w p (files w)).2 = Exited0.
Proof.
  cbv zeta. unfold safeExecuteCommand.
  destruct (validateCommandName cmdName config) as [e|] eqn:Hn; [discriminate|].
  destruct (validateCommandArgs args) as [e|] eqn:Ha; [discriminate|].
  unfold mbind, IO_bind.
  destruct (cmd_Run_cases cmdName args (AllowedTempDir config) (CommandTimeout config) w)
    as [[Hnin ->]|[(Hin & Ht & ->)|(Hin & Ht & H1 & H2)]].
  { destruct (CommandTimeout config <=? 0); discriminate. }
  { discriminate. }
  cbv zeta in H1, H2.
  destruct (cmd_Run cmdName args (AllowedTempDir config) (CommandTimeout config) w)
    as [w1 r]. cbn [fst snd] in H1, H2. subst w1 r.
  destruct ((behaviour w _ (files w)).2) eqn:Est; cbn; intros [= <-]; auto.
Qed.

Lemma colorSpaceMap_Some (cs cid : string) :
  colorSpaceMap !! cs = Some cid -> cid = "2" \/ cid = "1" \/ cid = "3".
Proof.
  unfold colorSpaceMap. rewrite !lookup_insert_Some, lookup_empty.
  intros [[_ <-]|[_ [[_ <-]|[_ [[_ <-]|[_ H]]]]]]; auto. discriminate.
Qed.

Lemma wbMap_Some (wb mode : string) :
  wbMap !! wb = Some mode -> mode = "camera" \/ mode = "auto" \/ mode = "manual".
Proof.
  unfold wbMap. rewrite !lookup_insert_Some, lookup_empty.
  intros [[_ <-]|[_ [[_ <-]|[_ [[_ <-]|[_ H]]]]]]; auto. discriminate.
Qed.

Lemma offending_field_None (o : ARWProcessOptions) :
  offending_field o = None ->
  (Bitness o = 8 \/ Bitness o = 16) /\ 0 <= Compression o <= 9 /\
  is_Some (colorSpaceMap !! ColorSpace o) /\ is_Some (wbMap !! WhiteBalance o).
Proof.
  unfold offending_field.
  destruct (negb ((Bitness o =? 8) || (Bitness o =? 16))) eqn:Hb; [discriminate|].
  destruct ((Compression o <? 0) || (Compression o >? 9)) eqn:Hc; [discriminate|].
  destruct (bool_decide (ColorSpace o ∈ ["sRGB"; "AdobeRGB"; "ProPhoto"])) eqn:Hcs;
    [|discriminate].
  destruct (bool_decide (WhiteBalance o ∈ ["camera"; "auto"; "manual"])) eqn:Hwb;
    [|discriminate].
  intros _. split; [lia|]. split; [lia|].
  apply bool_decide_eq_true in Hcs, Hwb.
  split; apply not_eq_None_Some; intros E.
  - apply colorSpaceMap_None in E. contradiction.
  - apply wbMap_None in E. contradiction.
Qed.

(** The arguments [buildDarktableArgs] puts after the two paths pass
    [validateCommandArgs]. *)
Lemma option_arguments_pass (bitness compression : Z) (colorSpaceID wbMode : string) :
  bitness = 8 \/ bitness = 16 -> 0 <= compression <= 9 ->
  colorSpaceID = "2" \/ colorSpaceID = "1" \/ colorSpaceID = "3" ->
  wbMode = "camera" \/ wbMode = "auto" \/ wbMode = "manual" ->
  validateCommandArgs
    [ "--core"; "--conf"; "plugins/imageio/format/png/bpp=" ++ Strings.Itoa bitness;
      "--core"; "--conf"; "plugins/imageio/format/png/compression=" ++ Strings.Itoa compression;
      "--core"; "--conf"; "plugins/lighttable/export/colorspace=" ++ colorSpaceID;
      "--core"; "--conf"; "plugins/lighttable/export/wb=" ++ wbMode;
      "--hq"; "--upscale";
      "--conf"; "plugins/lighttable/export/overwrite=true" ] = None.
Proof.
  intros Hb Hc Hcs Hwb.
  assert (Hc' : compression = 0 \/ compression = 1 \/ compression = 2 \/ compression = 3 \/
                compression = 4 \/ compression = 5 \/ compression = 6 \/ compression = 7 \/
                compression = 8 \/ compression = 9) by lia.
  destruct Hb as [->| ->];
    destruct Hcs as [->|[->| ->]];
    destruct Hwb as [->|[->| ->]];
    destruct Hc' as [->|[->|[->|[->|[->|[->|[->|[->|[->| ->]]]]]]]]];
    vm_compute; reflexivity.
Qed.

(** X8.  [buildDarktableArgs] returns arguments exactly when both paths
    pass [validateFilePath] and the bit depth is 8 or 16, the compression
    is between 0 and 9, and the colour space and white balance are among
    the three known values each.  The arguments are then the input path,
    the output path and sixteen more, and the sixteen always pass
    [validateCommandArgs]: whether [safeExecuteCommand] refuses the
    arguments depends on the two paths alone. *)
Theorem buildDarktableArgs_arguments (tmp inputPath outputPath : string)
    (options : ARWProcessOptions) :
  (is_ok (buildDarktableArgs tmp inputPath outputPath options) = true <->
   is_ok (validateFilePath inputPath (DefaultSecurityConfig tmp)) = true /\
   is_ok (validateFilePath outputPath (DefaultSecurityConfig tmp)) = true /\
   offending_field options = None) /\
  (forall args : list string,
      buildDarktableArgs tmp inputPath outputPath options = Ok args ->
      exists rest,
        args = inputPath :: outputPath :: rest /\ length rest = 16%nat /\
        validateCommandArgs rest = None /\
        validateCommandArgs args = validateCommandArgs [inputPath; outputPath]).
Proof.
  split.
  - split.
    + destruct (buildDarktableArgs tmp inputPath outputPath options) as [args|] eqn:E;
        [|discriminate].
      intros _. apply buildDarktableArgs_Ok in E. tauto.
    + intros (Hi & Ho & Hoff). apply offending_field_None in Hoff.
      destruct Hoff as (Hb & Hc & [cid Hcs] & [wid Hwb]).
      unfold buildDarktableArgs.
      destruct (validateFilePath inputPath _); [|discriminate].
      destruct (validateFilePath outputPath _); [|discriminate].
      replace (negb (Bitness options =? 8) && negb (Bitness options =? 16)) with false by lia.
      replace ((Compression options <? 0) || (Compression options >? 9)) with false by lia.
      rewrite Hcs, Hwb. reflexivity.
  - intros args E. apply buildDarktableArgs_Ok in E.
    destruct E as (_ & _ & Hoff & cid & wid & Hcs & Hwb & ->).
    apply offending_field_None in Hoff. destruct Hoff as (Hb & Hc & _ & _).
    pose proof (option_arguments_pass (Bitness options) (Compression options) cid wid Hb Hc
                  (colorSpaceMap_Some _ _ Hcs) (wbMap_Some _ _ Hwb)) as Hrest.
    eexists. split; [reflexivity|]. split; [reflexivity|]. split; [exact Hrest|].
    cbn [validateCommandArgs] in *.
    destruct (dangerousCommandChars inputPath); [reflexivity|].
    destruct (dangerousPathChars inputPath); [reflexivity|].
    destruct (Strings.len inputPath >? 4096); [reflexivity|].
    destruct (dangerousCommandChars outputPath); [reflexivity|].
    destruct (dangerousPathChars outputPath); [reflexivity|].
    destruct (Strings.len outputPath >? 4096); [reflexivity|].
    exact Hrest.
Qed.

Lemma buildDarktableArgs_arguments_witness :
  is_ok (buildDarktableArgs "/tmp" "photo.arw" "work/out.png" DefaultARWProcessOptions) = true.
Proof.
  destruct (buildDarktableArgs_arguments "/tmp" "photo.arw" "work/out.png"
              DefaultARWProcessOptions) as [H _].
  apply H. repeat split.
Defined.

(** ** RAW conversion: the stages of [ProcessARWToPNG] *)

(** The stages of [ProcessARWToPNG]: it fails before anything is changed,
    or it fails to create the temporary output file, or it creates that
    file, runs [safeExecuteDarktableCommand], reads the file and releases
    it. *)
Lemma ProcessARWToPNG_stages (arwPath : string) (options : ARWProcessOptions) (w : World) :
  (exists err, ProcessARWToPNG arwPath options w = (w, Err err)) \/
  (exists w1 err,
      secureCreateTempFile "arw_output_*.png" (arwConfig (tempdir w) options) w = (w1, Err err) /\
      ProcessARWToPNG arwPath options w
      = (w1, Err (Wrapf "failed to create secure temp output file" err))) \/
  (exists (c : string) (f : File) (w1 : World) (out : string) (w2 : World) (x : option error),
      validateFilePath arwPath (arwConfig (tempdir w) options) = Ok c /\
      validateFileExtension c = None /\
      files w !! c = Some f /\ file_Size f <= MaxFileSize /\
      "darktable-cli" ∈ lookpath w /\
      secureCreateTempFile "arw_output_*.png" (arwConfig (tempdir w) options) w = (w1, Ok out) /\
      safeExecuteDarktableCommand c out options w1 = (w2, x) /\
      ProcessARWToPNG arwPath options w
      = ((secureCleanup out (KeepTemp options) w2).1,
         match x with
         | Some err => Err (Wrapf "darktable-cli execution failed" err)
         | None =>
             match files w2 !! out with
             | None => Err (Wrapf "failed to read output PNG file" ErrNotExist)
             | Some g =>
                 if Strings.len (f_data g) >? MaxFileSize
                 then Err (SecurityError "size_validation" "output PNG file too large" None)
                 else Ok (f_data g)
             end
         end)).
Proof.
  remember (ProcessARWToPNG arwPath options w) as R eqn:ER.
  unfold ProcessARWToPNG in ER.
  destruct (validateFilePath arwPath _) as [c|e] eqn:Hp; [|left; eauto].
  destruct (validateFileExtension_cases c) as [Hext|Hext]; rewrite Hext in ER; [|left; eauto].
  unfold validateFileSize, mbind, IO_bind, os_Stat, mret, IO_ret in ER.
  destruct (files w !! c) as [f|] eqn:Hf; [|left; eauto].
  destruct (file_Size f >? MaxFileSize) eqn:Hsz; cbv beta iota in ER; [left; eauto|].
  rewrite Hf in ER. cbv beta iota in ER.
  unfold isDarktableAvailable in ER.
  destruct (decide ("darktable-cli" ∈ lookpath w)) as [Hdt|Hdt].
  2:{ rewrite bool_decide_false in ER by assumption.
      cbn [andb negb] in ER. cbv beta iota in ER. left. eauto. }
  rewrite bool_decide_true in ER by assumption.
  change (map_get (AllowedCommands (DefaultSecurityConfig (tempdir w))) "darktable-cli")
    with true in ER.
  change (negb (true && true)) with false in ER. cbv beta iota in ER.
  destruct (secureCreateTempFile "arw_output_*.png" (arwConfig (tempdir w) options) w)
    as [w1 [out|err]] eqn:Ht; [|right; left; eauto].
  right. right.
  destruct (safeExecuteDarktableCommand c out options w1) as [w2 x] eqn:Hx.
  exists c, f, w1, out, w2, x.
  repeat (split; [first [reflexivity | assumption | lia]|]).
  subst R. destruct x as [err|].
  - destruct (secureCleanup out (KeepTemp options) w2) as [w3 e3]. reflexivity.
  - unfold os_ReadFile. destruct (files w2 !! out) as [g|].
    + destruct (Strings.len (f_data g) >? MaxFileSize);
        destruct (secureCleanup out (KeepTemp options) w2) as [w3 e3]; reflexivity.
    + destruct (secureCleanup out (KeepTemp options) w2) as [w3 e3]. reflexivity.
Qed.

Lemma buildDarktableArgs_output_abs (tmp inputPath outputPath : string)
    (options : ARWProcessOptions) :
  is_ok (validateFilePath inputPath (DefaultSecurityConfig tmp)) = true ->
  Filepath.IsAbs outputPath = true ->
  exists e,
    buildDarktableArgs tmp inputPath outputPath options
    = Err (SecurityError "path_validation" "invalid output path" (Some e)).
Proof.
  intros Hi Ho. unfold buildDarktableArgs.
  destruct (validateFilePath inputPath _); [|discriminate].
  destruct (validateFilePath_abs outputPath (DefaultSecurityConfig tmp) Ho) as (e & ->).
  eauto.
Qed.

Lemma arw_output_abs (options : ARWProcessOptions) (w w1 : World) (out : string) :
  Filepath.IsAbs (AllowedTempDir (arwConfig (tempdir w) options)) = true ->
  secureCreateTempFile "arw_output_*.png" (arwConfig (tempdir w) options) w = (w1, Ok out) ->
  Filepath.IsAbs out = true.
Proof.
  intros Habs Ht. apply secureCreateTempFile_name in Ht.
  destruct Ht as (prefix & suffix & r & _ & _ & ->).
  apply joinPath_abs.
  destruct (String.eqb_spec (AllowedTempDir (arwConfig (tempdir w) options)) "") as [E|];
    [|assumption].
  rewrite E in Habs. discriminate.
Qed.

Lemma ProcessARWToPNG_spawned_cases (arwPath : string) (options : ARWProcessOptions)
    (w : World) :
  spawned (ProcessARWToPNG arwPath options w).1 = spawned w \/
  exists (c out : string) (rest : list string),
    spawned (ProcessARWToPNG arwPath options w).1
    = {| proc_name := "darktable-cli"; proc_args := c :: out :: rest;
         proc_dir := tempdir w |} :: spawned w /\
    validateFilePath arwPath (arwConfig (tempdir w) options) = Ok c /\
    validateFileExtension c = None /\
    is_Some (files w !! c) /\
    files w !! out = None /\
    Filepath.IsAbs out = false /\
    offending_field options = None /\
    validateCommandArgs (c :: out :: rest) = None.
Proof.
  destruct (ProcessARWToPNG_stages arwPath options w)
    as [(err & ->)|[(w1 & err & Ht & ->)|(c & f & w1 & out & w2 & x & Hp & He & Hf & _ & _ & Ht
                                          & Hx & ->)]].
  - left. reflexivity.
  - left. pose proof (secureCreateTempFile_spawned "arw_output_*.png"
                        (arwConfig (tempdir w) options) w) as Hs.
    rewrite Ht in Hs. exact Hs.
  - cbn [fst]. rewrite secureCleanup_spawned.
    pose proof (secureCreateTempFile_Ok _ _ _ _ _ Ht)
      as (Hnew & _ & _ & _ & Hsp & _ & Htd & _).
    pose proof (safeExecuteDarktableCommand_spawned c out options w1) as Hs.
    rewrite Hx in Hs. cbn [fst] in Hs. rewrite Hsp, Htd in Hs.
    destruct Hs as [Hs|(args & Hb & Ha & Hs)]; [left; exact Hs|]. right.
    apply buildDarktableArgs_Ok in Hb.
    destruct Hb as (_ & Ho & Hoff & cid & wid & _ & _ & ->).
    eexists c, out, _. split; [exact Hs|].
    repeat (split; [first [assumption | eauto]|]); [|assumption].
    destruct (validateFilePath out _) as [o|] eqn:Eo; [|discriminate].
    apply validateFilePath_Ok in Eo. destruct Eo as (-> & _ & Habs & _).
    destruct (Filepath.IsAbs out) eqn:E; [|reflexivity].
    apply Clean_IsAbs in E. congruence.
Qed.

(** X9.  [ProcessARWToPNG] starts at most one process.  When it starts
    one, the process is darktable-cli, run in the system's temporary
    directory, and its first two arguments are the cleaned input path, an
    existing file with an allowed extension, and a relative output path
    that named no file before the call; every argument is free of shell
    metacharacters and of the path patterns [validateCommandArgs] refuses,
    and is at most 4096 bytes long. *)
Theorem ProcessARWToPNG_starts_converter_only (arwPath : string)
    (options : ARWProcessOptions) (w : World) :
  spawned (ProcessARWToPNG arwPath options w).1 = spawned w \/
  exists (c out : string) (rest : list string),
    spawned (ProcessARWToPNG arwPath options w).1
    = {| proc_name := "darktable-cli"; proc_args := c :: out :: rest;
         proc_dir := tempdir w |} :: spawned w /\
    validateFilePath arwPath (arwConfig (tempdir w) options) = Ok c /\
    validateFileExtension c = None /\
    is_Some (files w !! c) /\
    files w !! out = None /\
    Filepath.IsAbs out = false /\
    offending_field options = None /\
    Forall (fun arg => dangerousCommandChars arg = false /\
                       dangerousPathChars arg = false /\
                       Strings.len arg <= 4096) (c :: out :: rest).
Proof.
  destruct (ProcessARWToPNG_spawned_cases arwPath options w)
    as [H|(c & out & rest & H1 & H2 & H3 & H4 & H5 & H6 & H7 & H8)]; [left; exact H|].
  right. exists c, out, rest. apply validateCommandArgs_None in H8. auto 10.
Qed.

(** X10.  A path whose cleaned form holds a shell metacharacter (such as
    a parenthesis, which [validateFilePath] lets through) is never
    converted: [ProcessARWToPNG] starts no process and returns an
    error. *)
Theorem ProcessARWToPNG_metacharacter_path (arwPath : string) (options : ARWProcessOptions)
    (w : World) :
  dangerousCommandChars (Filepath.Clean arwPath) = true ->
  spawned (ProcessARWToPNG arwPath options w).1 = spawned w /\
  exists err, (ProcessARWToPNG arwPath options w).2 = Err err.
Proof.
  intros Hd. split.
  - destruct (ProcessARWToPNG_spawned_cases arwPath options w)
      as [H|(c & out & rest & _ & Hp & _ & _ & _ & _ & _ & Ha)]; [exact H|].
    exfalso. apply validateFilePath_Ok in Hp. destruct Hp as (-> & _).
    cbn [validateCommandArgs] in Ha. rewrite Hd in Ha. discriminate.
  - destruct (ProcessARWToPNG_stages arwPath options w)
      as [(err & ->)|[(w1 & err & Ht & ->)|(c & f & w1 & out & w2 & x & Hp & _ & _ & _ & _ & Ht
                                            & Hx & ->)]]; [eauto|eauto|].
    cbn [snd]. destruct x as [err|]; [eauto|]. exfalso.
    unfold safeExecuteDarktableCommand in Hx.
    destruct (buildDarktableArgs (tempdir w1) c out options) as [args|] eqn:Eb; [|discriminate].
    apply safeExecuteCommand_None in Hx. destruct Hx as (_ & Ha & _).
    apply buildDarktableArgs_Ok in Eb. destruct Eb as (_ & _ & _ & cid & wid & _ & _ & ->).
    apply validateFilePath_Ok in Hp. destruct Hp as (-> & _).
    cbn [validateCommandArgs] in Ha. rewrite Hd in Ha. discriminate.
Qed.

Lemma ProcessARWToPNG_metacharacter_path_witness :
  spawned (ProcessARWToPNG "shots/IMG(1).arw" (raw_options "work" false) demo_world).1
  = spawned demo_world /\
  exists err,
    (ProcessARWToPNG "shots/IMG(1).arw" (raw_options "work" false) demo_world).2 = Err err.
Proof.
  apply (ProcessARWToPNG_metacharacter_path "shots/IMG(1).arw" (raw_options "work" false)
           demo_world).
  reflexivity.
Defined.

(** X11.  When the temporary directory in effect (the option [TempDir],
    or the system's temporary directory when the option is empty) is an
    absolute path, [ProcessARWToPNG] starts no process and returns an
    error: the output file that [secureCreateTempFile] makes then has an
    absolute name, which [buildDarktableArgs] refuses as an invalid output
    path. *)
Theorem ProcessARWToPNG_absolute_tempdir (arwPath : string) (options : ARWProcessOptions)
    (w : World) :
  Filepath.IsAbs (if String.eqb (arwTempDir options) "" then tempdir w
                  else arwTempDir options) = true ->
  spawned (ProcessARWToPNG arwPath options w).1 = spawned w /\
  (exists err, (ProcessARWToPNG arwPath options w).2 = Err err) /\
  (forall (w1 : World) (out : string),
      secureCreateTempFile "arw_output_*.png" (arwConfig (tempdir w) options) w = (w1, Ok out) ->
      Filepath.IsAbs out = true /\
      forall tmp inputPath,
        is_ok (validateFilePath inputPath (DefaultSecurityConfig tmp)) = true ->
        exists e,
          buildDarktableArgs tmp inputPath out options
          = Err (SecurityError "path_validation" "invalid output path" (Some e))).
Proof.
  intros Habs.
  change (Filepath.IsAbs (AllowedTempDir (arwConfig (tempdir w) options)) = true) in Habs.
  assert (H3 : forall (w1 : World) (out : string),
             secureCreateTempFile "arw_output_*.png" (arwConfig (tempdir w) options) w
             = (w1, Ok out) ->
             Filepath.IsAbs out = true /\
             forall tmp inputPath,
               is_ok (validateFilePath inputPath (DefaultSecurityConfig tmp)) = true ->
               exists e,
                 buildDarktableArgs tmp inputPath out options
                 = Err (SecurityError "path_validation" "invalid output path" (Some e))).
  { intros w1 out Ht. pose proof (arw_output_abs options w w1 out Habs Ht) as Ho.
    split; [assumption|]. intros tmp inputPath Hi.
    apply buildDarktableArgs_output_abs; assumption. }
  destruct (ProcessARWToPNG_stages arwPath options w)
    as [(err & ->)|[(w1 & err & Ht & ->)|(c & f & w1 & out & w2 & x & Hp & _ & _ & _ & _ & Ht
                                          & Hx & ->)]].
  - split; [reflexivity|]. split; [eauto|exact H3].
  - split; [|split; [eauto|exact H3]].
    pose proof (secureCreateTempFile_spawned "arw_output_*.png"
                  (arwConfig (tempdir w) options) w) as Hs.
    rewrite Ht in Hs. exact Hs.
  - destruct (H3 w1 out Ht) as [Ho Hb].
    destruct (Hb (tempdir w1) c) as (e & Eb).
    { rewrite (validateFilePath_again _ _ _ _ Hp). reflexivity. }
    unfold safeExecuteDarktableCommand in Hx. rewrite Eb in Hx. injection Hx as <- <-.
    split; [|split; [eauto|exact H3]].
    cbn [fst]. rewrite secureCleanup_spawned.
    pose proof (secureCreateTempFile_spawned "arw_output_*.png"
                  (arwConfig (tempdir w) options) w) as Hs.
    rewrite Ht in Hs. exact Hs.
Qed.

Lemma ProcessARWToPNG_absolute_tempdir_witness :
  spawned (ProcessARWToPNG "photo.arw" DefaultARWProcessOptions demo_world).1
  = spawned demo_world /\
  exists err, (ProcessARWToPNG "photo.arw" DefaultARWProcessOptions demo_world).2 = Err err.
Proof.
  destruct (ProcessARWToPNG_absolute_tempdir "photo.arw" DefaultARWProcessOptions demo_world)
    as (H1 & H2 & _); [reflexivity|].
  split; assumption.
Defined.

(** X12.  When [ProcessARWToPNG] returns data, the data is at most
    [MaxFileSize] bytes long and is the content of the temporary output
    file after darktable-cli, the one process started, exited with status
    0; the files left are those the converter left, without the output
    file unless [KeepTemp] is set or the file cannot be removed. *)
Theorem ProcessARWToPNG_success (arwPath : string) (options : ARWProcessOptions)
    (w : World) (data : string) :
  (ProcessARWToPNG arwPath options w).2 = Ok data ->
  Strings.len data <= MaxFileSize /\
  exists (c out : string) (rest : list string) (w1 : World) (g : File),
    let p := {| proc_name := "darktable-cli"; proc_args := c :: out :: rest;
                proc_dir := tempdir w |} in
    validateFilePath arwPath (arwConfig (tempdir w) options) = Ok c /\
    secureCreateTempFile "arw_output_*.png" (arwConfig (tempdir w) options) w = (w1, Ok out) /\
    spawned (ProcessARWToPNG arwPath options w).1 = p :: spawned w /\
    (behaviour w p (files w1)).2 = Exited0 /\
    (behaviour w p (files w1)).1 !! out = Some g /\
    f_data g = data /\
    files (ProcessARWToPNG arwPath options w).1
    = (if KeepTemp options || bool_decide (out ∈ locked w)
       then (behaviour w p (files w1)).1
       else delete out (behaviour w p (files w1)).1).
Proof.
  intros Hok.
  destruct (ProcessARWToPNG_stages arwPath options w)
    as [(err & E)|[(w1 & err & Ht & E)|(c & f & w1 & out & w2 & x & Hp & _ & _ & _ & _ & Ht
                                        & Hx & E)]];
    rewrite E in Hok; cbn [snd] in Hok; try discriminate.
  destruct x as [err|]; [discriminate|].
  destruct (files w2 !! out) as [g|] eqn:Hg; [|discriminate].
  destruct (Strings.len (f_data g) >? MaxFileSize) eqn:Hsz; [discriminate|].
  injection Hok as <-. split; [lia|].
  unfold safeExecuteDarktableCommand in Hx.
  destruct (buildDarktableArgs (tempdir w1) c out options) as [args|] eqn:Eb; [|discriminate].
  apply safeExecuteCommand_None in Hx. cbv zeta in Hx.
  destruct Hx as (_ & _ & _ & Hw2 & Hst).
  apply buildDarktableArgs_Ok in Eb. destruct Eb as (_ & _ & _ & cid & wid & _ & _ & ->).
  pose proof (secureCreateTempFile_Ok _ _ _ _ _ Ht)
    as (_ & _ & _ & Hlk & Hsp & _ & Htd & Hbh).
  change (AllowedTempDir (DefaultSecurityConfig (tempdir w1))) with (tempdir w1) in Hw2, Hst.
  rewrite Htd, Hbh in Hw2, Hst.
  eexists c, out, _, w1, g. cbv zeta.
  split; [exact Hp|]. split; [exact Ht|].
  rewrite E. cbn [fst].
  split; [rewrite secureCleanup_spawned, Hw2; cbn [spawned set_files add_spawned];
          rewrite Hsp; reflexivity|].
  split; [exact Hst|].
  rewrite Hw2 in Hg. cbn [files set_files] in Hg.
  split; [exact Hg|]. split; [reflexivity|].
  destruct (KeepTemp options); [rewrite secureCleanup_keep, Hw2; reflexivity|].
  cbn [orb]. unfold secureCleanup, mbind, IO_bind, os_Remove.
  rewrite Hw2. cbn [files set_files add_spawned locked]. rewrite Hg, Hlk.
  destruct (decide (out ∈ locked w)) as [Hin|Hnin].
  - rewrite bool_decide_true by assumption. reflexivity.
  - rewrite bool_decide_false by assumption. reflexivity.
Qed.

Lemma ProcessARWToPNG_success_witness :
  Strings.len "PNGDATA" <= MaxFileSize.
Proof.
  apply (ProcessARWToPNG_success "photo.arw" (raw_options "work" false) demo_world "PNGDATA").
  vm_compute. reflexivity.
Defined.

(** X13.  On a path that [ValidateARWFile] accepts, when darktable-cli is
    not on the search path, [ProcessARWToPNG] changes nothing and returns
    the error that darktable-cli is not available. *)
Theorem ProcessARWToPNG_converter_missing (arwPath : string) (options : ARWProcessOptions)
    (w : World) :
  (ValidateARWFile arwPath w).2 = None ->
  "darktable-cli" ∉ lookpath w ->
  ProcessARWToPNG arwPath options w
  = (w, Err (Errorf "darktable-cli is not available. Please install darktable-cli")).
Proof.
  intros Hv Hdt.
  assert (Hc : exists c f, validateFilePath arwPath (arwConfig (tempdir w) options) = Ok c /\
                           validateFileExtension c = None /\
                           files w !! c = Some f /\ file_Size f <= MaxFileSize).
  { revert Hv. unfold ValidateARWFile.
    destruct (validateFilePath arwPath (DefaultSecurityConfig (tempdir w))) as [c|] eqn:Hp;
      [|discriminate].
    destruct (validateFileExtension_cases c) as [He|He]; rewrite He; [|discriminate].
    unfold validateFileSize, mbind, IO_bind, os_Stat, mret, IO_ret.
    destruct (files w !! c) as [f|] eqn:Hf; [|discriminate].
    destruct (file_Size f >? MaxFileSize) eqn:Hsz; [discriminate|].
    intros _. exists c, f. split; [|split; [exact He|split; [exact Hf|lia]]].
    apply validateFilePath_Ok in Hp. apply validateFilePath_Ok. exact Hp. }
  destruct Hc as (c & f & Hp & He & Hf & Hsz).
  unfold ProcessARWToPNG. rewrite Hp, He.
  unfold validateFileSize, mbind, IO_bind, os_Stat. rewrite Hf.
  replace (file_Size f >? MaxFileSize) with false by lia.
  unfold mret, IO_ret. cbv beta iota. rewrite Hf. cbv beta iota.
  unfold isDarktableAvailable. rewrite bool_decide_false by assumption. reflexivity.
Qed.

Lemma ProcessARWToPNG_converter_missing_witness :
  ProcessARWToPNG "photo.arw" DefaultARWProcessOptions bare_world
  = (bare_world, Err (Errorf "darktable-cli is not available. Please install darktable-cli")).
Proof.
  apply (ProcessARWToPNG_converter_missing "photo.arw" DefaultARWProcessOptions bare_world).
  - vm_compute. reflexivity.
  - vm_compute. set_solver.
Defined.

(** X14.  [Exposure], [Contrast] and [Saturation] have no effect: two
    option records that agree on the other fields give the same arguments
    in [buildDarktableArgs] and the same result and effects in
    [ProcessARWToPNG]. *)
Theorem ProcessARWToPNG_ignores_adjustments (arwPath : string)
    (options options' : ARWProcessOptions) (w : World) :
  Bitness options = Bitness options' ->
  Compression options = Compression options' ->
  ColorSpace options = ColorSpace options' ->
  WhiteBalance options = WhiteBalance options' ->
  arwTempDir options = arwTempDir options' ->
  KeepTemp options = KeepTemp options' ->
  ProcessARWToPNG arwPath options w = ProcessARWToPNG arwPath options' w /\
  forall tmp inputPath outputPath,
    buildDarktableArgs tmp inputPath outputPath options
    = buildDarktableArgs tmp inputPath outputPath options'.
Proof.
  destruct options, options'. simpl.
  intros -> -> -> -> -> ->. split; reflexivity.
Qed.

Lemma ProcessARWToPNG_ignores_adjustments_witness :
  ProcessARWToPNG "photo.arw" (raw_options "work" false) demo_world
  = ProcessARWToPNG "photo.arw"
      {| Bitness := 16; Compression := 6; ColorSpace := "sRGB"; WhiteBalance := "camera";
         Exposure := F64.c0_8; Contrast := F64.c0_1; Saturation := F64.c1_0;
         arwTempDir := "work"; KeepTemp := false |} demo_world.
Proof.
  apply (ProcessARWToPNG_ignores_adjustments "photo.arw" (raw_options "work" false));
    reflexivity.
Defined.

(** ** The encoder: inputs, extensions and files *)

Lemma append_length (a b : string) :
  String.length (a ++ b) = (String.length a + String.length b)%nat.
Proof.
  induction a as [|c a IH]; [reflexivity|].
  change (String c a ++ b) with (String c (a ++ b)). cbn [String.length]. rewrite IH. reflexivity.
Qed.

Lemma substring_all (b : string) : String.substring 0 (String.length b) b = b.
Proof. induction b as [|c b IH]; [reflexivity|]. cbn. rewrite IH. reflexivity. Qed.

Lemma substring_app_r (a b : string) :
  String.substring (String.length a) (String.length b) (a ++ b) = b.
Proof.
  induction a as [|c a IH]; [apply substring_all|].
  change (String c a ++ b) with (String c (a ++ b)). cbn [String.length String.substring].
  exact IH.
Qed.

Lemma HasSuffix_app (a b : string) : Strings.HasSuffix (a ++ b) b = true.
Proof.
  unfold Strings.HasSuffix. cbv zeta. rewrite append_length.
  replace (String.length a + String.length b - String.length b)%nat
    with (String.length a) by lia.
  rewrite substring_app_r, String.eqb_refl.
  replace (String.length b <=? String.length a + String.length b)%nat with true; [reflexivity|].
  symmetry. apply Nat.leb_le. lia.
Qed.


Section EncoderMore.
Context {lib : ImageLib}.

Lemma decodeImage_world (input : Input) (w : World) : (decodeImage input w).1 = w.
Proof.
  unfold decodeImage.
  destruct (match input with InPath _ => _ | _ => _ end) as [data|err]; [|reflexivity].
  destruct (imaging_Decode data); [reflexivity|].
  destruct (png_Decode data); [reflexivity|].
  destruct (jpeg_Decode data); reflexivity.
Qed.

Lemma ProcessImage_world (fuel : nat) (input : Input) (options : ProcessImageOptions)
    (w : World) :
  (ProcessImage fuel input options w).1 = w.
Proof.
  unfold ProcessImage. pose proof (decodeImage_world input w) as H.
  destruct (decodeImage input w) as [w1 [[img hint]|err]]; exact H.
Qed.

(** X15.  [decodeImage] changes nothing.  When it returns an image, the
    image was decoded from at most [MaxFileSize] bytes: the bytes given,
    or the content of the file at the cleaned path, which passed
    [validateFilePath] and [validateFileExtension].  The decoders are
    tried in the order imaging, PNG, JPEG, and the format hint names the
    first that succeeded: unknown, png or jpeg. *)
Theorem decodeImage_checks (input : Input) (w w1 : World) (img : Image) (hint : string) :
  decodeImage input w = (w1, Ok (img, hint)) ->
  w1 = w /\
  exists data : string,
    Strings.len data <= MaxFileSize /\
    (imaging_Decode data = Some img /\ hint = "unknown" \/
     imaging_Decode data = None /\ png_Decode data = Some img /\ hint = "png" \/
     imaging_Decode data = None /\ png_Decode data = None /\
     jpeg_Decode data = Some img /\ hint = "jpeg") /\
    match input with
    | InPath v =>
        exists (c : string) (f : File),
          validateFilePath v (DefaultSecurityConfig (tempdir w)) = Ok c /\
          validateFileExtension c = None /\
          files w !! c = Some f /\ f_data f = data
    | InBytes v => v = data
    | InOther _ => False
    end.
Proof.
  intros H. pose proof (decodeImage_world input w) as Hw. rewrite H in Hw. cbn [fst] in Hw.
  split; [exact Hw|]. revert H. unfold decodeImage.
  set (reader := match input with InPath _ => _ | _ => _ end).
  assert (Hr : forall data, reader = Ok data ->
               Strings.len data <= MaxFileSize /\
               match input with
               | InPath v =>
                   exists (c : string) (f : File),
                     validateFilePath v (DefaultSecurityConfig (tempdir w)) = Ok c /\
                     validateFileExtension c = None /\
                     files w !! c = Some f /\ f_data f = data
               | InBytes v => v = data
               | InOther _ => False
               end).
  { subst reader. intros data. destruct input as [v|v|t].
    - destruct (validateFilePath v _) as [c|] eqn:Hp; [|discriminate].
      destruct (validateFileExtension_cases c) as [He|He]; rewrite He; [|discriminate].
      unfold validateFileSize, mbind, IO_bind, os_Stat, os_ReadFile, mret, IO_ret.
      destruct (files w !! c) as [f|] eqn:Hf; [|discriminate].
      destruct (file_Size f >? MaxFileSize) eqn:Hsz; cbn [snd]; [discriminate|].
      intros [= <-]. split; [unfold file_Size in Hsz; lia|]. exists c, f. auto.
    - destruct (Strings.len v >? MaxFileSize) eqn:Hsz; [discriminate|].
      intros [= <-]. split; [lia|reflexivity].
    - discriminate. }
  destruct reader as [data|err]; [|discriminate].
  specialize (Hr data eq_refl). destruct Hr as [Hlen Hin].
  destruct (imaging_Decode data) as [i1|] eqn:E1.
  { intros [= _ <- <-]. exists data. auto 10. }
  destruct (png_Decode data) as [i2|] eqn:E2.
  { intros [= _ <- <-]. exists data. auto 10. }
  destruct (jpeg_Decode data) as [i3|] eqn:E3; [|discriminate].
  intros [= _ <- <-]. exists data. auto 10.
Qed.

(** X16.  [ProcessImage] refuses, without any change and with an error
    wrapped as a decoding failure: an input that is neither a path nor
    bytes, as a validation error naming the type; bytes longer than
    [MaxFileSize], as a size error; and a path that does not pass
    [validateFilePath], whose extension is not allowed, that names no file
    or names a file larger than [MaxFileSize], as a security error with a
    cause. *)
Theorem ProcessImage_input_errors (fuel : nat) (options : ProcessImageOptions) (w : World) :
  (forall typeName : string,
      ProcessImage fuel (InOther typeName) options w
      = (w, Returned (Err (Wrapf "failed to decode image"
                             (InputValidationError "input_type" typeName
                                "unsupported input type"))))) /\
  (forall data : string,
      MaxFileSize < Strings.len data ->
      ProcessImage fuel (InBytes data) options w
      = (w, Returned (Err (Wrapf "failed to decode image"
                             (SecurityError "size_validation" "input data too large" None))))) /\
  (forall path : string,
      (forall c, validateFilePath path (DefaultSecurityConfig (tempdir w)) = Ok c ->
                 validateFileExtension c <> None \/ files w !! c = None \/
                 exists f, files w !! c = Some f /\ MaxFileSize < file_Size f) ->
      exists (kind message : string) (cause : error),
        ProcessImage fuel (InPath path) options w
        = (w, Returned (Err (Wrapf "failed to decode image"
                               (SecurityError kind message (Some cause)))))).
Proof.
  split; [reflexivity|]. split.
  - intros data Hlen. unfold ProcessImage, decodeImage.
    replace (Strings.len data >? MaxFileSize) with true by lia. reflexivity.
  - intros path H. unfold ProcessImage, decodeImage.
    destruct (validateFilePath path _) as [c|e] eqn:Hp; [|eauto].
    specialize (H c eq_refl).
    destruct (validateFileExtension_cases c) as [He|He]; rewrite He; [|eauto].
    unfold validateFileSize, mbind, IO_bind, os_Stat, mret, IO_ret.
    destruct H as [H|[H|(f & Hf & Hsz)]]; [contradiction| |].
    + rewrite H. cbn [snd]. eauto.
    + rewrite Hf. replace (file_Size f >? MaxFileSize) with true by lia. cbn [snd]. eauto.
Qed.

Lemma resizeLoop_encoded (fuel : nat) (img : Image) (options : ProcessImageOptions)
    (ow oh : Z) (scaleFactor : spec_float) :
  forall (c : spec_float) (last enc : Encoded),
    encoded_from options last ->
    resizeLoop fuel img options ow oh scaleFactor c last = Returned (Ok enc) ->
    encoded_from options enc.
Proof.
  induction fuel as [|fuel IH]; intros c last enc Hlast; cbn [resizeLoop].
  - destruct (negb (F64.ge c F64.c0_1)); [|discriminate]. intros [= <-]. exact Hlast.
  - destruct (negb (F64.ge c F64.c0_1)); [intros [= <-]; exact Hlast|].
    destruct (F64.to_int _) as [nw|]; [|discriminate].
    destruct (F64.to_int _) as [nh|]; [|discriminate].
    destruct (encodeImageWithCompression (imaging_Resize img nw nh) options)
      as [[result ext]|err] eqn:E; [|discriminate].
    destruct (Strings.len result <=? MaxSizeBytes options).
    + intros [= <-]. exact E.
    + apply IH. exact E.
Qed.

Lemma ProcessImage_encoded (fuel : nat) (input : Input) (options : ProcessImageOptions)
    (w : World) (enc : Encoded) :
  (ProcessImage fuel input options w).2 = Returned (Ok enc) ->
  encoded_from (withDefaults (tempdir w) options) enc.
Proof.
  unfold ProcessImage.
  destruct (decodeImage input w) as [w1 [[img hint]|err]]; cbn [snd]; [|discriminate].
  unfold processDecoded.
  destruct (encodeImageWithCompression img _) as [[result ext]|err] eqn:E; [|discriminate].
  destruct (Strings.len result <=? _).
  - intros [= <-]. exact E.
  - apply resizeLoop_encoded. exact E.
Qed.

Lemma encoded_from_extension (options : ProcessImageOptions) (enc : Encoded) :
  encoded_from options enc ->
  (Strings.ToLower (OutputFormat options) = "jpeg" /\ enc_ext enc = ".jpg" /\
   jpeg_Encode (enc_image enc) (Quality options) = Some (enc_bytes enc)) \/
  (Strings.ToLower (OutputFormat options) = "png" /\ enc_ext enc = ".png" /\
   png_Encode (enc_image enc) = Some (enc_bytes enc)).
Proof.
  unfold encoded_from, encodeImageWithCompression.
  destruct (String.eqb_spec (Strings.ToLower (OutputFormat options)) "jpeg") as [Ej|_].
  - destruct (jpeg_Encode _ _) as [buf|] eqn:E; [|discriminate].
    intros [= <- <-]. left. auto.
  - destruct (String.eqb_spec (Strings.ToLower (OutputFormat options)) "png") as [Ep|_];
      [|discriminate].
    destruct (png_Encode _) as [buf|] eqn:E; [|discriminate].
    intros [= <- <-]. right. auto.
Qed.

(** X17.  The extension [ProcessImage] returns follows the format asked
    for, not the input: with the output format jpeg (in any case) the
    extension is .jpg and the bytes are the JPEG encoding of the returned
    image at the quality of the options (85 when that is not positive);
    with png, or no format, the extension is .png and the bytes are its
    PNG encoding.  No other format gives a result. *)
Theorem ProcessImage_extension (fuel : nat) (input : Input) (options : ProcessImageOptions)
    (w : World) (enc : Encoded) :
  (ProcessImage fuel input options w).2 = Returned (Ok enc) ->
  let format := Strings.ToLower (if String.eqb (OutputFormat options) "" then "png"
                                 else OutputFormat options) in
  let quality := if Quality options <=? 0 then 85 else Quality options in
  (format = "jpeg" /\ enc_ext enc = ".jpg" /\
   jpeg_Encode (enc_image enc) quality = Some (enc_bytes enc)) \/
  (format = "png" /\ enc_ext enc = ".png" /\
   png_Encode (enc_image enc) = Some (enc_bytes enc)).
Proof.
  intros H. apply ProcessImage_encoded, encoded_from_extension in H. exact H.
Qed.


(** X19.  When [ProcessImageToTempFile] returns a path, the path named no
    file before, starts with the temporary directory in effect and ends
    with .png, whatever the format of the encoding (a JPEG encoding is
    stored under a .png name); the file holds the bytes [ProcessImage]
    returned, with mode 0600; no other file is changed and no process is
    started. *)
Theorem ProcessImageToTempFile_success (fuel : nat) (input : Input)
    (options : ProcessImageOptions) (w w' : World) (path : string) :
  ProcessImageToTempFile fuel input options w = (w', Returned (Ok path)) ->
  exists enc : Encoded,
    (ProcessImage fuel input options w).2 = Returned (Ok enc) /\
    files w !! path = None /\
    files w' = <[path := {| f_mode := 384; f_data := enc_bytes enc |}]> (files w) /\
    Strings.HasSuffix path ".png" = true /\
    Strings.HasPrefix path (if String.eqb (TempDir options) "" then tempdir w
                            else TempDir options) = true /\
    spawned w' = spawned w.
Proof.
  unfold ProcessImageToTempFile.
  pose proof (ProcessImage_world fuel input options w) as Hw.
  destruct (ProcessImage fuel input options w) as [w1 r]. cbn [fst snd] in *. subst w1.
  destruct r as [[enc|err]| |]; try discriminate.
  unfold mbind, IO_bind.
  destruct (secureCreateTempFile "processed_*.png" (tempFileConfig (tempdir w) options) w)
    as [w1 [tempPath|err]] eqn:Ht; [|discriminate].
  pose proof (secureCreateTempFile_Ok _ _ _ _ _ Ht) as (Hnew & Hfs & _ & _ & Hsp & _).
  pose proof (secureCreateTempFile_name _ _ _ _ _ Ht) as (prefix & suffix & r & Hps & _ & Hname).
  unfold file_Write, file_Sync, mret, IO_ret. cbv beta. rewrite Hfs, lookup_insert_eq.
  intros [= <- <-]. exists enc. split; [reflexivity|]. split; [assumption|].
  cbn [files set_files spawned]. rewrite insert_insert_eq.
  split; [reflexivity|].
  injection Hps as <- <-.
  split; [rewrite Hname, <- append_assoc; apply HasSuffix_app|].
  split; [|assumption].
  rewrite Hname. cbn [AllowedTempDir tempFileConfig].
  set (dir := if (TempDir options =? "")%string then tempdir w else TempDir options).
  assert (Hd : (if (dir =? "")%string then tempdir w else dir) = dir).
  { subst dir. destruct (String.eqb_spec (TempDir options) "") as [E|E].
    - destruct (String.eqb_spec (tempdir w) ""); congruence.
    - apply String.eqb_neq in E. rewrite E. reflexivity. }
  rewrite Hd. apply HasPrefix_app. unfold joinPath.
  assert (Hself : forall s, Strings.HasPrefix s s = true).
  { induction s as [|a s IH]; [reflexivity|]. cbn. rewrite Ascii.eqb_refl. exact IH. }
  destruct (Strings.HasSuffix dir "/"); apply HasPrefix_app, Hself.
Qed.

End EncoderMore.

Lemma decodeImage_checks_witness :
  exists data : string,
    Strings.len data <= MaxFileSize /\ DimLib.decode data = Some (2, 2).
Proof.
  destruct (decodeImage_checks (lib := DimLib.lib) (InPath "photo.png") demo_world demo_world
              (DimLib.image 2 2) "unknown" eq_refl)
    as (_ & data & Hlen & [(Hd & _)|[(_ & Hd & _)|(_ & _ & Hd & _)]] & _).
  - exists data. split; assumption.
  - discriminate Hd.
  - discriminate Hd.
Defined.

Lemma ProcessImage_extension_witness :
  (ProcessImage (lib := DimLib.lib) 5 (InPath "photo.png") jpeg_options demo_world).2
  = Returned (Ok {| enc_bytes := "xxxxxxxx"; enc_ext := ".jpg";
                    enc_image := DimLib.image 2 2 |}) /\
  jpeg_Encode (DimLib.image 2 2) 85 = Some "xxxxxxxx".
Proof.
  split; [reflexivity|].
  destruct (ProcessImage_extension (lib := DimLib.lib) 5 (InPath "photo.png") jpeg_options
              demo_world
              {| enc_bytes := "xxxxxxxx"; enc_ext := ".jpg"; enc_image := DimLib.image 2 2 |}
              eq_refl) as [(_ & _ & E)|(_ & E & _)].
  - exact E.
  - discriminate E.
Defined.


Lemma ProcessImageToTempFile_success_witness :
  files demo_world !! "/tmp/processed_r1.png" = None /\
  Strings.HasSuffix "/tmp/processed_r1.png" ".png" = true /\
  exists enc,
    (ProcessImage (lib := DimLib.lib) 5 (InPath "photo.png") jpeg_options demo_world).2
    = Returned (Ok enc) /\ enc_ext enc = ".jpg".
Proof.
  destruct (ProcessImageToTempFile_success (lib := DimLib.lib) 5 (InPath "photo.png")
              jpeg_options demo_world
              (ProcessImageToTempFile (lib := DimLib.lib) 5 (InPath "photo.png")
                 jpeg_options demo_world).1
              "/tmp/processed_r1.png")
    as (enc & H1 & H2 & _ & H3 & _); [reflexivity|].
  split; [exact H2|]. split; [exact H3|]. exists enc. split; [exact H1|].
  injection H1 as <-. reflexivity.
Defined.

Lemma ProcessImage_input_errors_witness :
  exists (kind message : string) (cause : error),
    ProcessImage (lib := DimLib.lib) 5 (InPath "missing.png") DefaultProcessImageOptions
      demo_world
    = (demo_world, Returned (Err (Wrapf "failed to decode image"
                                    (SecurityError kind message (Some cause))))).
Proof.
  destruct (ProcessImage_input_errors (lib := DimLib.lib) 5 DefaultProcessImageOptions
              demo_world) as (_ & _ & H).
  apply H. intros c Hc. injection Hc as <-. right. left. reflexivity.
Defined.

(** ** The user's scale factor *)

(** X20.  When the image exceeds neither limit that is set (a limit that
    is not positive is not set), [calculateUserScaleFactor] returns 1, and
    the factor the encoder starts from is the one [calculateScaleFactor]
    gives for the pixel count. *)
Theorem calculateUserScaleFactor_within_limits (width height maxWidth maxHeight : Z) :
  maxWidth <= 0 \/ width <= maxWidth ->
  maxHeight <= 0 \/ height <= maxHeight ->
  calculateUserScaleFactor width height maxWidth maxHeight = F64.c1_0 /\
  forall options : ProcessImageOptions,
    MaxWidth options = maxWidth -> MaxHeight options = maxHeight ->
    chooseScaleFactor width height options = calculateScaleFactor (wrap_int (width * height)).
Proof.
  intros HW HH.
  assert (H1 : calculateUserScaleFactor width height maxWidth maxHeight = F64.c1_0).
  { unfold calculateUserScaleFactor.
    destruct ((maxWidth <=? 0) && (maxHeight <=? 0)); [reflexivity|].
    replace ((maxWidth >? 0) && (width >? maxWidth)) with false by lia.
    replace ((maxHeight >? 0) && (height >? maxHeight)) with false by lia.
    reflexivity. }
  split; [exact H1|]. intros options <- <-. unfold chooseScaleFactor. cbv zeta.
  destruct ((MaxWidth options >? 0) || (MaxHeight options >? 0)); [|reflexivity].
  rewrite H1. unfold calculateScaleFactor.
  destruct (_ >=? 8 * 1024 * 1024); [reflexivity|].
  destruct (_ >=? 4 * 1024 * 1024); [reflexivity|].
  destruct (_ >=? 2 * 1024 * 1024); reflexivity.
Qed.

Lemma calculateUserScaleFactor_within_limits_witness :
  calculateUserScaleFactor 800 600 1024 0 = F64.c1_0.
Proof.
  apply (calculateUserScaleFactor_within_limits 800 600 1024 0); lia.
Defined.

(** X21.  For dimensions below 2^53, [calculateUserScaleFactor] returns a
    finite number that is at most 1, whatever the limits: the user's
    limits never enlarge an image. *)
Theorem calculateUserScaleFactor_range (width height maxWidth maxHeight : Z) :
  0 <= width < 2 ^ 53 -> 0 <= height < 2 ^ 53 ->
  F64.fin (calculateUserScaleFactor width height maxWidth maxHeight) /\
  (F64.value (calculateUserScaleFactor width height maxWidth maxHeight) <= 1)%Q.
Proof.
  intros HW HH.
  pose proof (calculateUserScaleFactor_wf width height maxWidth maxHeight HW HH) as Hwf.
  revert Hwf. unfold calculateUserScaleFactor.
  assert (H1 : F64.fin F64.c1_0 /\ (F64.value F64.c1_0 <= 1)%Q).
  { split; [repeat split|vm_compute; discriminate]. }
  destruct ((maxWidth <=? 0) && (maxHeight <=? 0)); [intros _; exact H1|].
  match goal with
  | |- F64.wf (if F64.gt ?r _ then _ else _) -> _ => set (result := r)
  end.
  destruct (F64.gt result F64.c1_0) eqn:E; [intros _; exact H1|].
  intros Hwf.
  destruct (F64Facts.wf_not_gt_fin result F64.c1_0 Hwf ltac:(repeat split) E) as [Hf Hv].
  split; [exact Hf|]. destruct H1 as [_ H1]. eapply Qle_trans; eassumption.
Qed.

Lemma calculateUserScaleFactor_range_witness :
  (F64.value (calculateUserScaleFactor 4000 3000 1024 768) <= 1)%Q.
Proof.
  apply (calculateUserScaleFactor_range 4000 3000 1024 768); lia.
Defined.

(** ** White space *)

Lemma TrimLeft_fixed (s : string) : startsSpace s = false -> Strings.TrimLeft s = s.
Proof.
  destruct s as [|a [|b [|c s3]]]; cbn [startsSpace Strings.TrimLeft]; try reflexivity.
  - rewrite orb_false_r. intros ->. reflexivity.
  - rewrite orb_false_r. intros H. apply orb_false_iff in H. destruct H as [-> ->]. reflexivity.
  - intros H. apply orb_false_iff in H. destruct H as [-> H].
    apply orb_false_iff in H. destruct H as [-> ->]. reflexivity.
Qed.

Lemma TrimLeft_suffix_aux (n : nat) :
  forall s, (String.length s <= n)%nat ->
            startsSpace (Strings.TrimLeft s) = false /\ exists l, s = l ++ Strings.TrimLeft s.
Proof.
  induction n as [|n IH]; intros s Hn.
  - destruct s; [|cbn in Hn; lia]. split; [reflexivity|]. exists "". reflexivity.
  - destruct s as [|a s1]; [split; [reflexivity|exists ""; reflexivity]|].
    cbn [String.length] in Hn. cbn [Strings.TrimLeft].
    destruct (Unicode.isSpace (String a "")) eqn:E1.
    { destruct (IH s1 ltac:(lia)) as [H (l & Hl)]. split; [exact H|].
      exists (String a l). rewrite Hl at 1. reflexivity. }
    destruct s1 as [|b s2].
    { split; [cbn [startsSpace]; rewrite E1; reflexivity|]. exists "". reflexivity. }
    cbn [String.length] in Hn.
    destruct (Unicode.isSpace (String a (String b ""))) eqn:E2.
    { destruct (IH s2 ltac:(lia)) as [H (l & Hl)]. split; [exact H|].
      exists (String a (String b l)). rewrite Hl at 1. reflexivity. }
    destruct s2 as [|c s3].
    { split; [cbn [startsSpace]; rewrite E1, E2; reflexivity|]. exists "". reflexivity. }
    cbn [String.length] in Hn.
    destruct (Unicode.isSpace (String a (String b (String c "")))) eqn:E3.
    { destruct (IH s3 ltac:(lia)) as [H (l & Hl)]. split; [exact H|].
      exists (String a (String b (String c l))). rewrite Hl at 1. reflexivity. }
    split; [cbn [startsSpace]; rewrite E1, E2, E3; reflexivity|]. exists "". reflexivity.
Qed.

Lemma TrimLeft_starts (s : string) : startsSpace (Strings.TrimLeft s) = false.
Proof. apply (TrimLeft_suffix_aux (String.length s) s). lia. Qed.

Lemma TrimLeft_suffix (s : string) : exists l, s = l ++ Strings.TrimLeft s.
Proof. apply (TrimLeft_suffix_aux (String.length s) s). lia. Qed.

Lemma TrimRight_prefix (s : string) : exists r, s = Strings.TrimRight s ++ r.
Proof.
  induction s as [|a s (r & IH)]; [exists ""; reflexivity|]. cbn [Strings.TrimRight].
  destruct (Unicode.isSpace _); [exists (String a s); reflexivity|].
  exists r. rewrite IH at 1. reflexivity.
Qed.

Lemma TrimRight_idempotent (s : string) : Strings.TrimRight (Strings.TrimRight s) = Strings.TrimRight s.
Proof.
  induction s as [|a s IH]; [reflexivity|]. cbn [Strings.TrimRight].
  destruct (Unicode.isSpace (String a (Strings.TrimRight s))) eqn:E; [reflexivity|].
  cbn [Strings.TrimRight]. rewrite IH, E. reflexivity.
Qed.

Lemma startsSpace_prefix (p r : string) :
  startsSpace (p ++ r) = false -> startsSpace p = false.
Proof.
  destruct p as [|a [|b [|c p3]]]; cbn [startsSpace]; try reflexivity.
  - change (String a "" ++ r) with (String a r). cbn [startsSpace].
    intros H. apply orb_false_iff in H. destruct H as [-> _]. reflexivity.
  - change (String a (String b "") ++ r) with (String a (String b r)). cbn [startsSpace].
    intros H. apply orb_false_iff in H. destruct H as [-> H].
    apply orb_false_iff in H. destruct H as [-> _]. reflexivity.
  - change (String a (String b (String c p3)) ++ r)
      with (String a (String b (String c (p3 ++ r)))). cbn [startsSpace]. tauto.
Qed.

Lemma TrimSpace_idempotent (s : string) : Strings.TrimSpace (Strings.TrimSpace s) = Strings.TrimSpace s.
Proof.
  unfold Strings.TrimSpace.
  rewrite (TrimLeft_fixed (Strings.TrimRight (Strings.TrimLeft s))); [apply TrimRight_idempotent|].
  destruct (TrimRight_prefix (Strings.TrimLeft s)) as (r & Hr).
  apply (startsSpace_prefix _ r). rewrite <- Hr. apply TrimLeft_starts.
Qed.

Lemma In_append (c : ascii) (a b : string) :
  In c (list_ascii_of_string (a ++ b)) <->
  In c (list_ascii_of_string a) \/ In c (list_ascii_of_string b).
Proof.
  induction a as [|x a IH]; [cbn; tauto|].
  change (String x a ++ b) with (String x (a ++ b)). cbn [list_ascii_of_string In].
  rewrite IH. tauto.
Qed.

Lemma TrimSpace_bytes (c : ascii) (s : string) :
  In c (list_ascii_of_string (Strings.TrimSpace s)) -> In c (list_ascii_of_string s).
Proof.
  unfold Strings.TrimSpace. intros H.
  destruct (TrimLeft_suffix s) as (l & Hl).
  destruct (TrimRight_prefix (Strings.TrimLeft s)) as (r & Hr).
  rewrite Hl. apply In_append. right. rewrite Hr. apply In_append. left. exact H.
Qed.

(** ** Subscriptions *)

Lemma ParseEnvSubs_loop (parts acc : list string) :
  fold_left (fun out p =>
               let p := Strings.TrimSpace p in
               if negb (String.eqb p "") then (out ++ [p])%list else out)
            parts acc
  = (acc ++ List.filter (fun p => negb (String.eqb p "")) (map Strings.TrimSpace parts))%list.
Proof.
  revert acc. induction parts as [|p parts IH]; intros acc; cbn [fold_left map List.filter].
  - rewrite app_nil_r. reflexivity.
  - rewrite IH. destruct (negb (String.eqb (Strings.TrimSpace p) "")); [|reflexivity].
    rewrite <- app_assoc. reflexivity.
Qed.

Lemma ParseEnvSubs_filter (envVal : string) :
  ParseEnvSubs envVal
  = List.filter (fun p => negb (String.eqb p ""))
      (map Strings.TrimSpace (Strings.SplitByte "," envVal)).
Proof. unfold ParseEnvSubs. cbv zeta. rewrite ParseEnvSubs_loop. reflexivity. Qed.

Lemma ParseEnvSubs_In (envVal u : string) :
  In u (ParseEnvSubs envVal) <->
  u <> "" /\ exists p, In p (Strings.SplitByte "," envVal) /\ Strings.TrimSpace p = u.
Proof.
  rewrite ParseEnvSubs_filter, filter_In, in_map_iff, negb_true_iff, String.eqb_neq.
  split.
  - intros [(p & Hp & Hin) Hne]. eauto.
  - intros [Hne (p & Hin & Hp)]. eauto.
Qed.

Lemma ParseEnvSubs_entry (envVal : string) : Forall entry (ParseEnvSubs envVal).
Proof.
  apply List.Forall_forall. intros u Hu. apply ParseEnvSubs_In in Hu.
  destruct Hu as (Hne & p & Hin & <-). split; [assumption|].
  split; [apply TrimSpace_idempotent|].
  intros Hc. apply TrimSpace_bytes in Hc.
  pose proof (SplitByte_no_sep "," envVal) as Hall.
  rewrite List.Forall_forall in Hall. exact (Hall p Hin Hc).
Qed.

Lemma filter_entries (l : list string) :
  Forall entry l ->
  List.filter (fun p => negb (String.eqb p "")) (map Strings.TrimSpace l) = l.
Proof.
  induction l as [|u l IH]; [reflexivity|].
  intros H. inversion H as [|? ? (Hne & Ht & _) Hl]; subst.
  cbn [map List.filter]. rewrite Ht. apply String.eqb_neq in Hne. rewrite Hne. cbn [negb].
  rewrite IH by assumption. reflexivity.
Qed.

(** X22.  Every entry [ParseEnvSubs] returns is not empty, has no white
    space at either end and holds no comma; the entries are exactly the
    trimmed pieces between commas that are not empty.  So a list of such
    entries, joined with commas, is parsed back to the same list, and the
    empty text gives no entry. *)
Theorem ParseEnvSubs_round_trip :
  (forall envVal : string,
      Forall (fun u : string =>
                u <> "" /\ Strings.TrimSpace u = u /\
                ~ In ","%char (list_ascii_of_string u))
             (ParseEnvSubs envVal)) /\
  (forall envVal u : string,
      In u (ParseEnvSubs envVal) <->
      u <> "" /\ exists p, In p (Strings.SplitByte "," envVal) /\ Strings.TrimSpace p = u) /\
  (forall l : list string,
      Forall (fun u : string =>
                u <> "" /\ Strings.TrimSpace u = u /\
                ~ In ","%char (list_ascii_of_string u)) l ->
      ParseEnvSubs (Strings.Join l ",") = l) /\
  ParseEnvSubs "" = [].
Proof.
  split; [exact ParseEnvSubs_entry|]. split; [exact ParseEnvSubs_In|].
  split; [|reflexivity].
  intros l Hl. rewrite ParseEnvSubs_filter.
  destruct l as [|u l]; [reflexivity|].
  rewrite SplitByte_Join; [apply filter_entries; exact Hl|discriminate|].
  eapply Forall_impl; [exact Hl|]. intros x (_ & _ & H). exact H.
Qed.

Lemma ParseEnvSubs_round_trip_witness :
  ParseEnvSubs (Strings.Join ["https://a.example/sub"; "https://b.example/s?x=1"] ",")
  = ["https://a.example/sub"; "https://b.example/s?x=1"].
Proof.
  destruct ParseEnvSubs_round_trip as (_ & _ & H & _). apply H.
  repeat constructor; try discriminate; vm_compute; intuition discriminate.
Defined.

Lemma map_get_insert (m : gmap string bool) (k u : string) :
  map_get (<[k := true]> m) u = true <-> u = k \/ map_get m u = true.
Proof.
  unfold map_get. destruct (decide (u = k)) as [->|Hne].
  - rewrite lookup_insert_eq. cbn. tauto.
  - rewrite lookup_insert_ne by congruence. tauto.
Qed.

Lemma add_cases (st : merged) (u : string) :
  merged_ok st ->
  (add st u = st /\ (Strings.TrimSpace u = "" \/ In (Strings.TrimSpace u) (out st))) \/
  (out (add st u) = (out st ++ [Strings.TrimSpace u])%list /\
   Strings.TrimSpace u <> "" /\ ~ In (Strings.TrimSpace u) (out st) /\
   seen (add st u) = <[Strings.TrimSpace u := true]> (seen st)).
Proof.
  intros [Hnd Hseen]. unfold add. cbv zeta.
  destruct (String.eqb_spec (Strings.TrimSpace u) "") as [E|E]; [left; auto|].
  cbn [orb]. destruct (map_get (seen st) (Strings.TrimSpace u)) eqn:Hs.
  - left. split; [reflexivity|]. right. apply Hseen. exact Hs.
  - right. cbn [out seen]. repeat split; auto.
    intros Hin. apply Hseen in Hin. congruence.
Qed.

Lemma add_ok (st : merged) (u : string) : merged_ok st -> merged_ok (add st u).
Proof.
  intros Hok. destruct (add_cases st u Hok) as [[-> _]|(Hout & Hne & Hnin & Hseen)];
    [exact Hok|].
  destruct Hok as [Hnd Hs]. split.
  - rewrite Hout. apply List.NoDup_app; [exact Hnd|repeat constructor; intros []|].
    intros x Hx [<-|[]]. contradiction.
  - intros x. rewrite Hseen, Hout, map_get_insert, in_app_iff, Hs. cbn [In]. intuition auto.
Qed.

Lemma fold_add_ok (l : list string) (st : merged) :
  merged_ok st -> merged_ok (fold_left add l st).
Proof.
  revert st. induction l as [|u l IH]; intros st Hok; [exact Hok|].
  cbn [fold_left]. apply IH, add_ok, Hok.
Qed.

Lemma fold_add_In (l : list string) (st : merged) (v : string) :
  merged_ok st ->
  (In v (out (fold_left add l st)) <->
   In v (out st) \/ (v <> "" /\ exists p, In p l /\ Strings.TrimSpace p = v)).
Proof.
  revert st. induction l as [|u l IH]; intros st Hok; cbn [fold_left].
  - split; [auto|]. intros [H|(_ & p & [] & _)]. exact H.
  - rewrite (IH (add st u) (add_ok st u Hok)).
    destruct (add_cases st u Hok) as [[-> Hv]|(Hout & Hne & Hnin & _)].
    + split.
      * intros [H|(Hn & p & Hp & E)]; [auto|]. right. split; [exact Hn|]. exists p.
        split; [right; exact Hp|exact E].
      * intros [H|(Hn & p & [->|Hp] & E)]; [auto| |eauto].
        left. rewrite E in Hv. destruct Hv as [Hv|Hv]; [contradiction|exact Hv].
    + rewrite Hout, in_app_iff. cbn [In]. split.
      * intros [[H|[H|[]]]|(Hn & p & Hp & E)]; [auto| |].
        -- right. split; [congruence|]. exists u. auto.
        -- right. split; [exact Hn|]. exists p. auto.
      * intros [H|(Hn & p & [->|Hp] & E)]; [auto|auto|eauto].
Qed.

Lemma fold_add_prefix (l : list string) (st : merged) :
  merged_ok st -> exists rest, out (fold_left add l st) = (out st ++ rest)%list.
Proof.
  revert st. induction l as [|u l IH]; intros st Hok; cbn [fold_left].
  - exists []. rewrite app_nil_r. reflexivity.
  - destruct (IH (add st u) (add_ok st u Hok)) as (rest & ->).
    destruct (add_cases st u Hok) as [[-> _]|(-> & _)]; [eauto|].
    rewrite <- app_assoc. eauto.
Qed.

Lemma fold_add_distinct (l : list string) (st : merged) :
  merged_ok st ->
  Forall (fun u : string => u <> "" /\ Strings.TrimSpace u = u) l ->
  List.NoDup (out st ++ l) ->
  out (fold_left add l st) = (out st ++ l)%list.
Proof.
  revert st. induction l as [|u l IH]; intros st Hok Hall Hnd; cbn [fold_left].
  - rewrite app_nil_r. reflexivity.
  - inversion Hall as [|? ? (Hne & Ht) Hl]; subst.
    assert (Hnin : ~ In u (out st)).
    { intros Hin. apply List.NoDup_remove_2 in Hnd. apply Hnd.
      apply in_or_app. left. exact Hin. }
    destruct (add_cases st u Hok) as [[_ Hv]|(Hout & _ & _ & _)]; rewrite Ht in *.
    + destruct Hv; contradiction.
    + rewrite IH; [|apply add_ok; exact Hok|exact Hl|].
      * rewrite Hout, <- app_assoc. reflexivity.
      * rewrite Hout, <- app_assoc. exact Hnd.
Qed.

Section SubscriptionFacts.
Context {json : JSONLib}.

Lemma LoadStoredSubs_world (w : World) : (LoadStoredSubs w).1 = w.
Proof.
  unfold LoadStoredSubs, mbind, IO_bind, os_ReadFile, mret, IO_ret.
  destruct (files w !! singboxSubsFile); [|reflexivity].
  destruct (json_Unmarshal _); reflexivity.
Qed.

(** X23.  [MergeEnvAndSaved] changes no file.  Its result has no entry
    twice and no entry that is empty or has white space at either end; the
    entries are those of the environment value and the trimmed non-empty
    entries of the stored file.  When the environment entries are distinct
    they come first, in their order, and when there is no stored file they
    are the whole result. *)
Theorem MergeEnvAndSaved_distinct (envVal : string) (w : World) :
  (MergeEnvAndSaved envVal w).1 = w /\
  List.NoDup (MergeEnvAndSaved envVal w).2 /\
  Forall (fun u : string => u <> "" /\ Strings.TrimSpace u = u)
         (MergeEnvAndSaved envVal w).2 /\
  (forall u : string,
      In u (MergeEnvAndSaved envVal w).2 <->
      In u (ParseEnvSubs envVal) \/
      (u <> "" /\ exists p, In p (LoadStoredSubs w).2 /\ Strings.TrimSpace p = u)) /\
  (List.NoDup (ParseEnvSubs envVal) ->
   exists rest, (MergeEnvAndSaved envVal w).2 = (ParseEnvSubs envVal ++ rest)%list) /\
  (files w !! singboxSubsFile = None -> List.NoDup (ParseEnvSubs envVal) ->
   (MergeEnvAndSaved envVal w).2 = ParseEnvSubs envVal).
Proof.
  set (st0 := {| seen := ∅; out := [] |}).
  assert (H0 : merged_ok st0).
  { split; [constructor|]. intros u. cbn. unfold map_get. rewrite lookup_empty. cbn.
    intuition discriminate. }
  set (st1 := fold_left add (ParseEnvSubs envVal) st0).
  assert (H1 : merged_ok st1) by (apply fold_add_ok; exact H0).
  assert (Hin1 : forall u, In u (out st1) <-> In u (ParseEnvSubs envVal)).
  { intros u. unfold st1. rewrite (fold_add_In _ _ _ H0). cbn [out In]. split.
    - intros [[]|(Hne & p & Hp & <-)].
      pose proof (ParseEnvSubs_entry envVal) as Hall. rewrite List.Forall_forall in Hall.
      destruct (Hall p Hp) as (_ & -> & _). exact Hp.
    - intros Hu. right.
      pose proof (ParseEnvSubs_entry envVal) as Hall. rewrite List.Forall_forall in Hall.
      destruct (Hall u Hu) as (Hne & Ht & _). eauto. }
  assert (Hr : MergeEnvAndSaved envVal w
               = ((LoadStoredSubs w).1, out (fold_left add (LoadStoredSubs w).2 st1))).
  { unfold MergeEnvAndSaved. cbv zeta. fold st0. fold st1.
    destruct (LoadStoredSubs w) as [w1 stored]. reflexivity. }
  rewrite Hr. cbn [fst snd].
  pose proof (fold_add_ok (LoadStoredSubs w).2 st1 H1) as [Hnd Hseen].
  split; [apply LoadStoredSubs_world|]. split; [exact Hnd|].
  assert (Hmem : forall u : string,
             In u (out (fold_left add (LoadStoredSubs w).2 st1)) <->
             In u (ParseEnvSubs envVal) \/
             (u <> "" /\ exists p, In p (LoadStoredSubs w).2 /\ Strings.TrimSpace p = u)).
  { intros u. rewrite (fold_add_In _ _ _ H1), Hin1. reflexivity. }
  split; [|split; [exact Hmem|]].
  - apply List.Forall_forall. intros u Hu. apply Hmem in Hu.
    destruct Hu as [Hu|(Hne & p & _ & <-)].
    + pose proof (ParseEnvSubs_entry envVal) as Hall. rewrite List.Forall_forall in Hall.
      destruct (Hall u Hu) as (Hne & Ht & _). auto.
    + split; [exact Hne|apply TrimSpace_idempotent].
  - assert (Hd : List.NoDup (ParseEnvSubs envVal) -> out st1 = ParseEnvSubs envVal).
    { intros Hdist. unfold st1. rewrite fold_add_distinct; [reflexivity|exact H0| |exact Hdist].
      eapply Forall_impl; [apply ParseEnvSubs_entry|]. intros u (Hne & Ht & _). auto. }
    split.
    + intros Hdist. destruct (fold_add_prefix (LoadStoredSubs w).2 st1 H1) as (rest & ->).
      rewrite (Hd Hdist). eauto.
    + intros Hnone Hdist.
      assert (Hl : (LoadStoredSubs w).2 = []).
      { unfold LoadStoredSubs, mbind, IO_bind, os_ReadFile. rewrite Hnone. reflexivity. }
      rewrite Hl. cbn [fold_left]. exact (Hd Hdist).
Qed.

End SubscriptionFacts.

Lemma MergeEnvAndSaved_distinct_witness :
  (MergeEnvAndSaved (json := no_json) " https://a.example/s ,https://b.example/s,"
     demo_world).2
  = ["https://a.example/s"; "https://b.example/s"].
Proof.
  destruct (MergeEnvAndSaved_distinct (json := no_json)
              " https://a.example/s ,https://b.example/s," demo_world)
    as (_ & _ & _ & _ & _ & H).
  rewrite H; [vm_compute; reflexivity|vm_compute; reflexivity|].
  replace (ParseEnvSubs " https://a.example/s ,https://b.example/s,")
    with ["https://a.example/s"; "https://b.example/s"] by (vm_compute; reflexivity).
  repeat constructor; cbn [In]; intuition discriminate.
Defined.
